(** * CityGuardGame: the simulation core of [GameCanvas]

    A shallow embedding of the game loop of [components/GameCanvas.tsx]
    (first variant, the mouse-driven canvas) together with the entity types of
    [types.ts], followed by the properties of the simulation and resolution
    engine.  The second variant of the component has the same simulation: it
    differs in the input handling (keyboard, crosshair), in the drawing and in
    the length of the trail of a LASER.

    Numbers.  A JavaScript [number] that holds a coordinate, a duration in
    seconds, a radius or an identity is a rational [Q] (ideal arithmetic: no
    rounding, no NaN, no infinities).  A [number] that is integer valued in
    every run -- health, combo multiplier, shield energy, upgrade levels,
    millisecond timestamps read from [Date.now()], counters, the score -- is a
    [Z].  A comparison [Math.hypot(a, b) < r] is decided exactly through
    squares; where the value of a square root or of a trigonometric function is
    stored, the function is a parameter of the development ([MathLib]).  A
    division by zero yields 0 here (Infinity or NaN in the source); the
    divisors are the shield's full charge, read only when a shield is
    installed, and the length of an enemy's path, which is at least the height
    of the canvas plus 30.

    Host.  [Date.now()] and [Math.random()] are oracles: the [n]-th call made
    by the simulation returns [clock n] or [random n]; the world counts the
    calls (those of the drawing code are left out with it).  Sounds, the
    callbacks of the parent component and the request for the next animation
    frame are appended to a log. *)

From Stdlib Require Import ZArith QArith Qround Qabs List Bool Lia Lqa SetoidList.
Import ListNotations.

Set Implicit Arguments.

(** ** Numbers *)

Definition Qltb (a b : Q) : bool := negb (Qle_bool b a).
Definition Qleb (a b : Q) : bool := Qle_bool a b.
Definition Qgtb (a b : Q) : bool := Qltb b a.
Definition Qgeb (a b : Q) : bool := Qleb b a.

(** [Math.hypot(a, b) < r], decided without taking the root: the distance is
    never negative, so it is below [r] exactly when [r] is positive and the
    squares compare. *)
Definition hypot_lt (a b r : Q) : bool :=
  Qltb 0 r && Qltb (a * a + b * b) (r * r).

(** The host's floating-point library, where a value (not a comparison) is
    needed. *)
Record MathLib : Type := mkMathLib {
  Math_hypot : Q -> Q -> Q;
  Math_atan2 : Q -> Q -> Q;
  Math_cos : Q -> Q;
  Math_sin : Q -> Q;
  Math_PI : Q
}.

(** The two oracles of the host. *)
Record Host : Type := mkHost {
  clock : nat -> Z;    (* successive results of Date.now(), in milliseconds *)
  random : nat -> Q    (* successive results of Math.random() *)
}.

(** ** types.ts *)

Record Point : Type := mkPoint { pt_x : Q; pt_y : Q }.

Inductive EnemyType : Type :=
  STANDARD | FAST | HEAVY | WOBBLY | BULLET | LASER | BOMB.

Inductive GameState : Type :=
  MENU | PLAYING | LEVEL_COMPLETE | GAME_OVER | PAUSED.

Inductive Difficulty : Type := EASY | MEDIUM | HARD.

Definition EnemyType_eqb (a b : EnemyType) : bool :=
  match a, b with
  | STANDARD, STANDARD | FAST, FAST | HEAVY, HEAVY | WOBBLY, WOBBLY
  | BULLET, BULLET | LASER, LASER | BOMB, BOMB => true
  | _, _ => false
  end.

Definition GameState_eqb (a b : GameState) : bool :=
  match a, b with
  | MENU, MENU | PLAYING, PLAYING | LEVEL_COMPLETE, LEVEL_COMPLETE
  | GAME_OVER, GAME_OVER | PAUSED, PAUSED => true
  | _, _ => false
  end.

Module Building.
Record t : Type := mk {
  id : Z; x : Q; y : Q; width : Q; height : Q; isDestroyed : bool
}.
Definition destroy (b : t) : t := mk (id b) (x b) (y b) (width b) (height b) true.
End Building.

Module EnemyMissile.
Record t : Type := mk {
  id : Q;
  type : EnemyType;
  x : Q; y : Q;
  startX : Q; startY : Q;
  targetX : Q; targetY : Q;
  totalDistance : Q;
  traveledDistance : Q;
  speed : Q;
  trail : list Point;
  health : Z;
  maxHealth : Z;
  hitByExplosionIds : list Q
}.
(* the [color] string of the source only feeds the renderer and is left out *)
Definition set_health (h : Z) (e : t) : t :=
  mk (id e) (type e) (x e) (y e) (startX e) (startY e) (targetX e) (targetY e)
     (totalDistance e) (traveledDistance e) (speed e) (trail e) h (maxHealth e)
     (hitByExplosionIds e).
Definition set_hitByExplosionIds (l : list Q) (e : t) : t :=
  mk (id e) (type e) (x e) (y e) (startX e) (startY e) (targetX e) (targetY e)
     (totalDistance e) (traveledDistance e) (speed e) (trail e) (health e)
     (maxHealth e) l.
Definition set_motion (d : Q) (tr : list Point) (nx ny : Q) (e : t) : t :=
  mk (id e) (type e) nx ny (startX e) (startY e) (targetX e) (targetY e)
     (totalDistance e) d (speed e) tr (health e) (maxHealth e)
     (hitByExplosionIds e).
End EnemyMissile.

Module Interceptor.
Record t : Type := mk {
  id : Q; x : Q; y : Q; startX : Q; startY : Q; targetX : Q; targetY : Q;
  speed : Q; exploded : bool; trail : list Point
}.
End Interceptor.

Module Projectile.
Record t : Type := mk {
  id : Q; x : Q; y : Q; velocityX : Q; velocityY : Q; speed : Q;
  trail : list Point
}.
End Projectile.

Module Explosion.
Record t : Type := mk {
  id : Q; x : Q; y : Q; currentRadius : Q; maxRadius : Q; alpha : Q
}.
End Explosion.

Record UpgradeStats : Type := mkUpgradeStats {
  speedLevel : Z; radiusLevel : Z; rateLevel : Z; turretLevel : Z;
  shieldLevel : Z; targetingLevel : Z
}.

(** ** The component: props, refs and host effects *)

(** What one render of the component closes over: its props and the React
    state [displayScore] as of that render. *)
Record Render : Type := mkRender {
  gameState : GameState;
  level : Z;
  difficulty : Difficulty;
  upgradeStats : UpgradeStats;
  displayScore : Z
}.

Record Canvas : Type := mkCanvas {
  cv_width : Q; cv_height : Q;
  cv_context2d : bool   (* whether getContext('2d') answers *)
}.

Inductive Sound : Type :=
  | warning | shoot | explode_normal | explode_heavy | turret_shoot
  | shield_hit | nuke.

Inductive Event : Type :=
  | PlaySound (s : Sound) (intensity : Q)
  | LevelComplete (buildingsLost enemiesDestroyed : Z)
  | GameOver (finalScore : Z)
  | RequestFrame.

(** The mutable refs of the component ([...Ref.current]), the React state
    [displayScore] after the queued updaters ([score]), and two ghost fields:
    the number of oracle calls made so far and the log of host effects.  The
    purely presentational states [displayTime], [displayMultiplier] and
    [comboProgress] are not modelled. *)
Record World : Type := mkWorld {
  buildings : list Building.t;
  enemies : list EnemyMissile.t;
  interceptors : list Interceptor.t;
  explosions : list Explosion.t;
  projectiles : list Projectile.t;
  shieldEnergy : Z;
  shieldHitTime : Z;
  lastTurretFireTime : Z;
  warningPlayed : bool;
  multiplier : Z;
  lastKillTime : Z;
  lastTime : Q;
  levelTime : Q;
  nextSpawnTime : Q;
  lastShotTime : Z;
  gameOverStart : Q;
  buildingsLostInLevel : Z;
  enemiesDestroyed : Z;
  score : Z;
  canvas : option Canvas;
  hostCalls : nat;
  log : list Event
}.

(** [ref.current = v]: one setter per ref. *)

Definition set_buildings (v : list Building.t) (w : World) : World :=
  mkWorld v (enemies w) (interceptors w) (explosions w) (projectiles w)
    (shieldEnergy w) (shieldHitTime w) (lastTurretFireTime w) (warningPlayed w)
    (multiplier w) (lastKillTime w) (lastTime w) (levelTime w) (nextSpawnTime w)
    (lastShotTime w) (gameOverStart w) (buildingsLostInLevel w) (enemiesDestroyed w)
    (score w) (canvas w) (hostCalls w) (log w).

Definition set_enemies (v : list EnemyMissile.t) (w : World) : World :=
  mkWorld (buildings w) v (interceptors w) (explosions w) (projectiles w)
    (shieldEnergy w) (shieldHitTime w) (lastTurretFireTime w) (warningPlayed w)
    (multiplier w) (lastKillTime w) (lastTime w) (levelTime w) (nextSpawnTime w)
    (lastShotTime w) (gameOverStart w) (buildingsLostInLevel w) (enemiesDestroyed w)
    (score w) (canvas w) (hostCalls w) (log w).

Definition set_interceptors (v : list Interceptor.t) (w : World) : World :=
  mkWorld (buildings w) (enemies w) v (explosions w) (projectiles w) (shieldEnergy w)
    (shieldHitTime w) (lastTurretFireTime w) (warningPlayed w) (multiplier w)
    (lastKillTime w) (lastTime w) (levelTime w) (nextSpawnTime w) (lastShotTime w)
    (gameOverStart w) (buildingsLostInLevel w) (enemiesDestroyed w) (score w)
    (canvas w) (hostCalls w) (log w).

Definition set_explosions (v : list Explosion.t) (w : World) : World :=
  mkWorld (buildings w) (enemies w) (interceptors w) v (projectiles w)
    (shieldEnergy w) (shieldHitTime w) (lastTurretFireTime w) (warningPlayed w)
    (multiplier w) (lastKillTime w) (lastTime w) (levelTime w) (nextSpawnTime w)
    (lastShotTime w) (gameOverStart w) (buildingsLostInLevel w) (enemiesDestroyed w)
    (score w) (canvas w) (hostCalls w) (log w).

Definition set_projectiles (v : list Projectile.t) (w : World) : World :=
  mkWorld (buildings w) (enemies w) (interceptors w) (explosions w) v (shieldEnergy w)
    (shieldHitTime w) (lastTurretFireTime w) (warningPlayed w) (multiplier w)
    (lastKillTime w) (lastTime w) (levelTime w) (nextSpawnTime w) (lastShotTime w)
    (gameOverStart w) (buildingsLostInLevel w) (enemiesDestroyed w) (score w)
    (canvas w) (hostCalls w) (log w).

Definition set_shieldEnergy (v : Z) (w : World) : World :=
  mkWorld (buildings w) (enemies w) (interceptors w) (explosions w) (projectiles w) v
    (shieldHitTime w) (lastTurretFireTime w) (warningPlayed w) (multiplier w)
    (lastKillTime w) (lastTime w) (levelTime w) (nextSpawnTime w) (lastShotTime w)
    (gameOverStart w) (buildingsLostInLevel w) (enemiesDestroyed w) (score w)
    (canvas w) (hostCalls w) (log w).

Definition set_shieldHitTime (v : Z) (w : World) : World :=
  mkWorld (buildings w) (enemies w) (interceptors w) (explosions w) (projectiles w)
    (shieldEnergy w) v (lastTurretFireTime w) (warningPlayed w) (multiplier w)
    (lastKillTime w) (lastTime w) (levelTime w) (nextSpawnTime w) (lastShotTime w)
    (gameOverStart w) (buildingsLostInLevel w) (enemiesDestroyed w) (score w)
    (canvas w) (hostCalls w) (log w).

Definition set_lastTurretFireTime (v : Z) (w : World) : World :=
  mkWorld (buildings w) (enemies w) (interceptors w) (explosions w) (projectiles w)
    (shieldEnergy w) (shieldHitTime w) v (warningPlayed w) (multiplier w)
    (lastKillTime w) (lastTime w) (levelTime w) (nextSpawnTime w) (lastShotTime w)
    (gameOverStart w) (buildingsLostInLevel w) (enemiesDestroyed w) (score w)
    (canvas w) (hostCalls w) (log w).

Definition set_warningPlayed (v : bool) (w : World) : World :=
  mkWorld (buildings w) (enemies w) (interceptors w) (explosions w) (projectiles w)
    (shieldEnergy w) (shieldHitTime w) (lastTurretFireTime w) v (multiplier w)
    (lastKillTime w) (lastTime w) (levelTime w) (nextSpawnTime w) (lastShotTime w)
    (gameOverStart w) (buildingsLostInLevel w) (enemiesDestroyed w) (score w)
    (canvas w) (hostCalls w) (log w).

Definition set_multiplier (v : Z) (w : World) : World :=
  mkWorld (buildings w) (enemies w) (interceptors w) (explosions w) (projectiles w)
    (shieldEnergy w) (shieldHitTime w) (lastTurretFireTime w) (warningPlayed w) v
    (lastKillTime w) (lastTime w) (levelTime w) (nextSpawnTime w) (lastShotTime w)
    (gameOverStart w) (buildingsLostInLevel w) (enemiesDestroyed w) (score w)
    (canvas w) (hostCalls w) (log w).

Definition set_lastKillTime (v : Z) (w : World) : World :=
  mkWorld (buildings w) (enemies w) (interceptors w) (explosions w) (projectiles w)
    (shieldEnergy w) (shieldHitTime w) (lastTurretFireTime w) (warningPlayed w)
    (multiplier w) v (lastTime w) (levelTime w) (nextSpawnTime w) (lastShotTime w)
    (gameOverStart w) (buildingsLostInLevel w) (enemiesDestroyed w) (score w)
    (canvas w) (hostCalls w) (log w).

Definition set_lastTime (v : Q) (w : World) : World :=
  mkWorld (buildings w) (enemies w) (interceptors w) (explosions w) (projectiles w)
    (shieldEnergy w) (shieldHitTime w) (lastTurretFireTime w) (warningPlayed w)
    (multiplier w) (lastKillTime w) v (levelTime w) (nextSpawnTime w) (lastShotTime w)
    (gameOverStart w) (buildingsLostInLevel w) (enemiesDestroyed w) (score w)
    (canvas w) (hostCalls w) (log w).

Definition set_levelTime (v : Q) (w : World) : World :=
  mkWorld (buildings w) (enemies w) (interceptors w) (explosions w) (projectiles w)
    (shieldEnergy w) (shieldHitTime w) (lastTurretFireTime w) (warningPlayed w)
    (multiplier w) (lastKillTime w) (lastTime w) v (nextSpawnTime w) (lastShotTime w)
    (gameOverStart w) (buildingsLostInLevel w) (enemiesDestroyed w) (score w)
    (canvas w) (hostCalls w) (log w).

Definition set_nextSpawnTime (v : Q) (w : World) : World :=
  mkWorld (buildings w) (enemies w) (interceptors w) (explosions w) (projectiles w)
    (shieldEnergy w) (shieldHitTime w) (lastTurretFireTime w) (warningPlayed w)
    (multiplier w) (lastKillTime w) (lastTime w) (levelTime w) v (lastShotTime w)
    (gameOverStart w) (buildingsLostInLevel w) (enemiesDestroyed w) (score w)
    (canvas w) (hostCalls w) (log w).

Definition set_lastShotTime (v : Z) (w : World) : World :=
  mkWorld (buildings w) (enemies w) (interceptors w) (explosions w) (projectiles w)
    (shieldEnergy w) (shieldHitTime w) (lastTurretFireTime w) (warningPlayed w)
    (multiplier w) (lastKillTime w) (lastTime w) (levelTime w) (nextSpawnTime w) v
    (gameOverStart w) (buildingsLostInLevel w) (enemiesDestroyed w) (score w)
    (canvas w) (hostCalls w) (log w).

Definition set_gameOverStart (v : Q) (w : World) : World :=
  mkWorld (buildings w) (enemies w) (interceptors w) (explosions w) (projectiles w)
    (shieldEnergy w) (shieldHitTime w) (lastTurretFireTime w) (warningPlayed w)
    (multiplier w) (lastKillTime w) (lastTime w) (levelTime w) (nextSpawnTime w)
    (lastShotTime w) v (buildingsLostInLevel w) (enemiesDestroyed w) (score w)
    (canvas w) (hostCalls w) (log w).

Definition set_buildingsLostInLevel (v : Z) (w : World) : World :=
  mkWorld (buildings w) (enemies w) (interceptors w) (explosions w) (projectiles w)
    (shieldEnergy w) (shieldHitTime w) (lastTurretFireTime w) (warningPlayed w)
    (multiplier w) (lastKillTime w) (lastTime w) (levelTime w) (nextSpawnTime w)
    (lastShotTime w) (gameOverStart w) v (enemiesDestroyed w) (score w) (canvas w)
    (hostCalls w) (log w).

Definition set_enemiesDestroyed (v : Z) (w : World) : World :=
  mkWorld (buildings w) (enemies w) (interceptors w) (explosions w) (projectiles w)
    (shieldEnergy w) (shieldHitTime w) (lastTurretFireTime w) (warningPlayed w)
    (multiplier w) (lastKillTime w) (lastTime w) (levelTime w) (nextSpawnTime w)
    (lastShotTime w) (gameOverStart w) (buildingsLostInLevel w) v (score w) (canvas w)
    (hostCalls w) (log w).

Definition set_score (v : Z) (w : World) : World :=
  mkWorld (buildings w) (enemies w) (interceptors w) (explosions w) (projectiles w)
    (shieldEnergy w) (shieldHitTime w) (lastTurretFireTime w) (warningPlayed w)
    (multiplier w) (lastKillTime w) (lastTime w) (levelTime w) (nextSpawnTime w)
    (lastShotTime w) (gameOverStart w) (buildingsLostInLevel w) (enemiesDestroyed w) v
    (canvas w) (hostCalls w) (log w).

Definition set_canvas (v : option Canvas) (w : World) : World :=
  mkWorld (buildings w) (enemies w) (interceptors w) (explosions w) (projectiles w)
    (shieldEnergy w) (shieldHitTime w) (lastTurretFireTime w) (warningPlayed w)
    (multiplier w) (lastKillTime w) (lastTime w) (levelTime w) (nextSpawnTime w)
    (lastShotTime w) (gameOverStart w) (buildingsLostInLevel w) (enemiesDestroyed w)
    (score w) v (hostCalls w) (log w).

Definition set_hostCalls (v : nat) (w : World) : World :=
  mkWorld (buildings w) (enemies w) (interceptors w) (explosions w) (projectiles w)
    (shieldEnergy w) (shieldHitTime w) (lastTurretFireTime w) (warningPlayed w)
    (multiplier w) (lastKillTime w) (lastTime w) (levelTime w) (nextSpawnTime w)
    (lastShotTime w) (gameOverStart w) (buildingsLostInLevel w) (enemiesDestroyed w)
    (score w) (canvas w) v (log w).

Definition set_log (v : list Event) (w : World) : World :=
  mkWorld (buildings w) (enemies w) (interceptors w) (explosions w) (projectiles w)
    (shieldEnergy w) (shieldHitTime w) (lastTurretFireTime w) (warningPlayed w)
    (multiplier w) (lastKillTime w) (lastTime w) (levelTime w) (nextSpawnTime w)
    (lastShotTime w) (gameOverStart w) (buildingsLostInLevel w) (enemiesDestroyed w)
    (score w) (canvas w) (hostCalls w) v.

(** ** Small helpers standing for JavaScript idioms *)

Definition Math_max (a b : Q) : Q := if Qltb a b then b else a.
Definition Math_min (a b : Q) : Q := if Qltb b a then b else a.

(** [arr[k]] for a number [k] that is an integer: [undefined] ([None]) out of
    range, also for a negative index. *)
Definition js_index {A : Type} (arr : list A) (k : Z) : option A :=
  if (k <? 0)%Z then None else nth_error arr (Z.to_nat k).

(** [arr.includes(v)] on numbers. *)
Definition includes (arr : list Q) (v : Q) : bool := existsb (Qeq_bool v) arr.

(** [trail.push(p); if (trail.length > n) trail.shift()] *)
Definition pushTrail (n : nat) (p : Point) (trail : list Point) : list Point :=
  let trail' := trail ++ [p] in
  if (n <? length trail')%nat then tl trail' else trail'.

(** The last element of [l] (the first one met when the index counts down)
    that satisfies [P], with what precedes and what follows it. *)
Fixpoint splitLast {A : Type} (P : A -> bool) (l : list A)
  : option (list A * A * list A) :=
  match l with
  | [] => None
  | a :: l' =>
      match splitLast P l' with
      | Some (pre, hit, post) => Some (a :: pre, hit, post)
      | None => if P a then Some ([], a, l') else None
      end
  end.

(** ** Constants and the statistics derived from the upgrades *)

Definition LEVEL_DURATION : Q := 30.      (* seconds *)
Definition COMBO_TIMEOUT : Z := 2500.     (* ms to keep combo alive *)

Definition interceptorSpeed (u : UpgradeStats) : Z := 600 + speedLevel u * 150.
Definition explosionMaxRadius (u : UpgradeStats) : Z := 60 + radiusLevel u * 15.
(* Cooldown: 500ms base, decreases by 50ms per level, min 100ms *)
Definition fireCooldown (u : UpgradeStats) : Z := Z.max 100 (500 - rateLevel u * 50).
Definition shieldMaxEnergy (u : UpgradeStats) : Z := shieldLevel u * 100.
Definition turretCooldown (u : UpgradeStats) : Z :=
  Z.max 200 (1000 - turretLevel u * 100).

(** ** Host effects *)

Definition emit (e : Event) (w : World) : World := set_log (log w ++ [e]) w.

Definition playSound (s : Sound) (intensity : Q) (w : World) : World :=
  emit (PlaySound s intensity) w.

Definition pushExplosion (e : Explosion.t) (w : World) : World :=
  set_explosions (explosions w ++ [e]) w.

Section Component.

Variable M : MathLib.
Variable H : Host.

Definition Date_now (w : World) : Z * World :=
  (clock H (hostCalls w), set_hostCalls (S (hostCalls w)) w).

Definition Math_random (w : World) : Q * World :=
  (random H (hostCalls w), set_hostCalls (S (hostCalls w)) w).

(** [Date.now() + Math.random()], the identity of most entities. *)
Definition freshId (w : World) : Q * World :=
  let (d, w) := Date_now w in
  let (r, w) := Math_random w in
  ((inject_Z d + r)%Q, w).

(** ** initLevel *)

Definition newBuildings (width height : Q) : list Building.t :=
  let buildingCount := 6%Q in
  let buildingWidth := 60%Q in
  let gap := ((width - buildingCount * buildingWidth) / (buildingCount + 1))%Q in
  map (fun i : Z =>
         Building.mk i (gap + inject_Z i * (buildingWidth + gap))%Q (height - 50)%Q
                     buildingWidth 40%Q false)
      [0; 1; 2; 3; 4; 5]%Z.

Definition initLevel (r : Render) (w : World) : World :=
  match canvas w with
  | None => w
  | Some c =>
      (* Reset transients *)
      let w := set_enemies [] w in
      let w := set_interceptors [] w in
      let w := set_explosions [] w in
      let w := set_projectiles [] w in
      let w := set_levelTime 0%Q w in
      let w := set_nextSpawnTime 0%Q w in
      let w := set_buildingsLostInLevel 0%Z w in
      let w := set_enemiesDestroyed 0%Z w in
      let w := set_lastShotTime 0%Z w in
      let w := set_lastTurretFireTime 0%Z w in
      let w := set_warningPlayed false w in
      let w := set_gameOverStart 0%Q w in
      (* Reset combo *)
      let w := set_multiplier 1%Z w in
      let w := set_lastKillTime 0%Z w in
      (* Reset Shield Energy *)
      let w := set_shieldEnergy (shieldLevel (upgradeStats r) * 100)%Z w in
      let w := set_shieldHitTime 0%Z w in
      (* Create buildings if it's level 1 (New Game) or if missing *)
      if (level r =? 1)%Z || (length (buildings w) =? 0)%nat then
        let w := set_buildings (newBuildings (cv_width c) (cv_height c)) w in
        set_score 0%Z w
      else w
  end.

(** ** handleCanvasClick *)

Record MouseEvent : Type := mkMouseEvent {
  clientX : Q; clientY : Q;
  rect_left : Q; rect_top : Q   (* canvas.getBoundingClientRect() at the click *)
}.

Definition handleCanvasClick (r : Render) (e : MouseEvent) (w : World) : World :=
  if negb (GameState_eqb (gameState r) PLAYING) then w
  else
    let (now, w) := Date_now w in
    if (now - lastShotTime w <? fireCooldown (upgradeStats r))%Z then w
    else
      let w := playSound shoot 1 w in
      let w := set_lastShotTime now w in
      match canvas w with
      | None => w
      | Some cv =>
          let x := (clientX e - rect_left e)%Q in
          let y := (clientY e - rect_top e)%Q in
          (* Spawn from bottom center *)
          let startX := (cv_width cv / 2)%Q in
          let startY := (cv_height cv - 20)%Q in
          let (id, w) := freshId w in
          set_interceptors
            (interceptors w ++
             [Interceptor.mk id startX startY startX startY x y
                (inject_Z (interceptorSpeed (upgradeStats r))) false []]) w
      end.

(** ** getEnemyConfig *)

Definition getEnemyConfig (level : Z) (difficulty : Difficulty) (w : World)
  : EnemyType * Q * World :=
  let (rand, w) := Math_random w in
  (* Adjust entry levels based on difficulty *)
  let '(fastStart, bombStart, heavyStart, bulletStart, wobblyStart, laserStart,
        difficultySpeedMod) :=
    match difficulty with
    | EASY => (3, 4, 6, 7, 8, 9, 0.8%Q)
    | HARD => (1, 2, 3, 3, 5, 5, 1.25%Q)
    | MEDIUM => (2, 3, 4, 5, 6, 7, 1%Q)
    end%Z in
  (* Weighted Random Selection based on Level *)
  let availableTypes :=
    [STANDARD]
      ++ (if (fastStart <=? level)%Z then [FAST] else [])
      ++ (if (bombStart <=? level)%Z then [BOMB] else [])
      ++ (if (heavyStart <=? level)%Z then [HEAVY] else [])
      ++ (if (bulletStart <=? level)%Z then [BULLET] else [])
      ++ (if (wobblyStart <=? level)%Z then [WOBBLY] else [])
      ++ (if (laserStart <=? level)%Z then [LASER] else []) in
  (* Bias towards newer types, but keep some standards.  An index outside the
     array yields [undefined] in the source, which no later test tells from
     STANDARD. *)
  let '(type, w) :=
    if (1 <? length availableTypes)%nat then
      if Qgtb rand 0.4 then
        let (r2, w) := Math_random w in
        let k :=
          (Qfloor (r2 * inject_Z (Z.of_nat (length availableTypes - 1))) + 1)%Z in
        (match js_index availableTypes k with Some t => t | None => STANDARD end, w)
      else (STANDARD, w)
    else (STANDARD, w) in
  (* Hard Mode specific: Chaos *)
  let type :=
    match difficulty with
    | HARD => if (3 <=? level)%Z && Qgtb rand 0.9 then FAST else type
    | _ => type
    end in
  (* Config based on type *)
  let speedMultiplier :=
    match type with
    | FAST => 1.6
    | HEAVY => 0.5      (* Slower but bigger boom *)
    | WOBBLY => 0.8
    | BOMB => 0.6       (* Falls slower *)
    | BULLET => 2.2     (* Very Fast *)
    | LASER => 2.5      (* Extremely Fast *)
    | STANDARD => 1
    end%Q in
  (type, (speedMultiplier * difficultySpeedMod)%Q, w).

(** ** update, phase by phase *)

(** Combo Timeout Check *)
Definition comboTimeoutCheck (now : Z) (w : World) : World :=
  if (1 <? multiplier w)%Z then
    let timeSinceKill := (now - lastKillTime w)%Z in
    if (COMBO_TIMEOUT <? timeSinceKill)%Z then set_multiplier 1%Z w else w
  else w.

(** 2. Audio Warning Logic *)
Definition audioWarning (w : World) : World :=
  let timeUntilSpawn := (nextSpawnTime w - levelTime w)%Q in
  if Qltb timeUntilSpawn 0.5 && Qgtb timeUntilSpawn 0 && negb (warningPlayed w)
  then set_warningPlayed true (playSound warning 1 w)
  else w.

(** Spawn Rate Logic *)
Definition baseRate (level : Z) : Q := Math_max 0.4 (2.5 - inject_Z level * 0.15).

Definition rateMod (difficulty : Difficulty) : Q :=
  match difficulty with
  | EASY => 1.3     (* Slower spawns *)
  | HARD => 0.7     (* Faster spawns *)
  | MEDIUM => 1
  end.

Definition spawnRate (level : Z) (difficulty : Difficulty) : Q :=
  baseRate level * rateMod difficulty.

(** 3. Spawn Enemies *)
Definition spawnEnemies (r : Render) (cv : Canvas) (w : World) : World :=
  if Qgtb (levelTime w) (nextSpawnTime w) then
    let activeBuildings :=
      filter (fun b => negb (Building.isDestroyed b)) (buildings w) in
    if (0 <? length activeBuildings)%nat then
      (* Target a random living building or ground *)
      let (r1, w) := Math_random w in
      let targetB :=
        js_index activeBuildings
                 (Qfloor (r1 * inject_Z (Z.of_nat (length activeBuildings)))) in
      let '(targetX, w) :=
        match targetB with
        | Some b => ((Building.x b + Building.width b / 2)%Q, w)
        | None => let (r2, w) := Math_random w in ((r2 * cv_width cv)%Q, w)
        end in
      let targetY := cv_height cv in
      let (r3, w) := Math_random w in
      let startX := (r3 * cv_width cv)%Q in
      let startY := (-30)%Q in
      let baseSpeed := (50 + inject_Z (level r) * 10)%Q in
      let '(type, speedMultiplier, w) :=
        getEnemyConfig (level r) (difficulty r) w in
      (* Bombs fall straight down *)
      let startX := if EnemyType_eqb type BOMB then targetX else startX in
      let dist := Math_hypot M (targetX - startX) (targetY - startY) in
      (* INITIALIZE HEALTH *)
      let maxHealth := if EnemyType_eqb type HEAVY then 3%Z else 1%Z in
      let (id, w) := freshId w in
      let (r4, w) := Math_random w in
      let w :=
        set_enemies
          (enemies w ++
           [EnemyMissile.mk id type startX startY startX startY targetX targetY
              dist 0 ((baseSpeed + r4 * 40) * speedMultiplier)%Q [] maxHealth
              maxHealth []]) w in
      let (r5, w) := Math_random w in
      let w :=
        set_nextSpawnTime
          (levelTime w + r5 * spawnRate (level r) (difficulty r))%Q w in
      set_warningPlayed false w   (* Reset warning for next spawn *)
    else w
  else w.

(** 4. Auto-Turret Logic *)

Definition turretX : Q := 60.   (* Left side *)

(** The [forEach] that looks for the closest enemy: [closest] carries the
    square of [closestDist] with the enemy found so far ([None] while
    [closestDist] is [Infinity]). *)
Fixpoint findClosest (cv : Canvas) (es : list EnemyMissile.t)
         (closest : option (Q * EnemyMissile.t)) : option (Q * EnemyMissile.t) :=
  match es with
  | [] => closest
  | e :: es' =>
      let turretY := (cv_height cv - 40)%Q in
      let dx := (EnemyMissile.x e - turretX)%Q in
      let dy := (EnemyMissile.y e - turretY)%Q in
      let d2 := (dx * dx + dy * dy)%Q in
      let nearer :=
        match closest with None => true | Some (c2, _) => Qltb d2 c2 end in
      (* Don't shoot if too close to ground (visuals) *)
      if nearer && Qltb (EnemyMissile.y e) (cv_height cv - 100)
      then findClosest cv es' (Some (d2, e))
      else findClosest cv es' closest
  end.

Definition autoTurret (r : Render) (cv : Canvas) (now : Z) (w : World) : World :=
  if (0 <? turretLevel (upgradeStats r))%Z then
    if (turretCooldown (upgradeStats r) <? now - lastTurretFireTime w)%Z then
      match findClosest cv (enemies w) None with
      | Some (_, closestEnemy) =>
          (* Fire! *)
          let turretY := (cv_height cv - 40)%Q in
          let angle :=
            Math_atan2 M (EnemyMissile.y closestEnemy - turretY)
                         (EnemyMissile.x closestEnemy - turretX) in
          let pSpeed := 800%Q in
          let (rnd, w) := Math_random w in
          let w :=
            set_projectiles
              (projectiles w ++
               [Projectile.mk (inject_Z now + rnd)%Q turretX turretY
                  (Math_cos M angle * pSpeed)%Q (Math_sin M angle * pSpeed)%Q
                  pSpeed []]) w in
          let w := set_lastTurretFireTime now w in
          playSound turret_shoot 1 w
      | None => w
      end
    else w
  else w.

(** Helper: Handle Kill Scoring & Combo *)
Definition baseScore (t : EnemyType) : Z :=
  match t with
  | STANDARD => 10 | FAST => 20 | BULLET => 25 | WOBBLY => 30
  | LASER => 35 | HEAVY => 40 | BOMB => 40
  end.

Definition diffMult (d : Difficulty) : Q :=
  match d with HARD => 1.5 | EASY => 0.8 | MEDIUM => 1 end.

Definition handleKill (r : Render) (now : Z) (enemy : EnemyMissile.t) (w : World)
  : World :=
  let w := set_enemiesDestroyed (enemiesDestroyed w + 1)%Z w in
  (* Combo Logic *)
  let timeSinceLast := (now - lastKillTime w)%Z in
  let w :=
    if (timeSinceLast <? COMBO_TIMEOUT)%Z
    then set_multiplier (Z.min (multiplier w + 1) 10) w
    else set_multiplier 1%Z w (* First kill of a chain is 1x *) in
  let w := set_lastKillTime now w in
  let totalScore :=
    Qceiling (inject_Z (baseScore (EnemyMissile.type enemy))
              * diffMult (difficulty r) * inject_Z (multiplier w)) in
  set_score (score w + totalScore)%Z w.

(** 5. Move Turret Projectiles: one iteration of the loop, for the projectile
    [p]; the result is the projectile if it stays in the array. *)
Definition stepProjectile (r : Render) (cv : Canvas) (now : Z) (deltaTime : Q)
           (p : Projectile.t) (w : World) : option Projectile.t * World :=
  let x := (Projectile.x p + Projectile.velocityX p * deltaTime)%Q in
  let y := (Projectile.y p + Projectile.velocityY p * deltaTime)%Q in
  let p :=
    Projectile.mk (Projectile.id p) x y (Projectile.velocityX p)
      (Projectile.velocityY p) (Projectile.speed p)
      (pushTrail 5 (mkPoint x y) (Projectile.trail p)) in
  (* Bounds check *)
  if Qltb x 0 || Qgtb x (cv_width cv) || Qltb y 0 then (None, w)
  else
    (* Hit Check *)
    match splitLast
            (fun e => hypot_lt (x - EnemyMissile.x e) (y - EnemyMissile.y e) 20)
            (enemies w) with
    | None => (Some p, w)
    | Some (pre, e, post) =>
        let e := EnemyMissile.set_health (EnemyMissile.health e - 1)%Z e in
        if (EnemyMissile.health e <=? 0)%Z then
          (* DESTROYED *)
          let w := set_enemies (pre ++ post) w in
          let (d, w) := Date_now w in
          let w :=
            pushExplosion
              (Explosion.mk (inject_Z d) (EnemyMissile.x e) (EnemyMissile.y e) 5 30 1)
              w in
          let w := playSound explode_normal 1 w in
          (None, handleKill r now e w)
        else
          (* DAMAGED BUT ALIVE *)
          let w := set_enemies (pre ++ e :: post) w in
          let (id, w) := freshId w in
          (None,
           pushExplosion
             (Explosion.mk id (EnemyMissile.x e) (EnemyMissile.y e) 2 10 1) w)
    end.

(** The loop counts the index down: [todo] holds the projectiles still to
    visit, the last of the array first; [kept] those that stay. *)
Fixpoint projectilesLoop (r : Render) (cv : Canvas) (now : Z) (deltaTime : Q)
         (todo kept : list Projectile.t) (w : World) : World :=
  match todo with
  | [] => set_projectiles kept w
  | p :: todo' =>
      let (res, w) := stepProjectile r cv now deltaTime p w in
      projectilesLoop r cv now deltaTime todo'
        (match res with Some p' => p' :: kept | None => kept end) w
  end.

Definition moveProjectiles (r : Render) (cv : Canvas) (now : Z) (deltaTime : Q)
           (w : World) : World :=
  projectilesLoop r cv now deltaTime (rev (projectiles w)) [] w.

(** 6. Move Interceptors *)
Definition stepInterceptor (r : Render) (deltaTime : Q) (missile : Interceptor.t)
           (w : World) : option Interceptor.t * World :=
  let dx := (Interceptor.targetX missile - Interceptor.x missile)%Q in
  let dy := (Interceptor.targetY missile - Interceptor.y missile)%Q in
  (* Update Trail *)
  let trail :=
    pushTrail 20 (mkPoint (Interceptor.x missile) (Interceptor.y missile))
              (Interceptor.trail missile) in
  (* Move *)
  if hypot_lt dx dy (Interceptor.speed missile * deltaTime) then
    (* Reached target: Create Explosion *)
    let (id, w) := freshId w in
    (None,
     pushExplosion
       (Explosion.mk id (Interceptor.targetX missile) (Interceptor.targetY missile)
          1 (inject_Z (explosionMaxRadius (upgradeStats r))) 1) w)
  else
    let angle := Math_atan2 M dy dx in
    (Some
       (Interceptor.mk (Interceptor.id missile)
          (Interceptor.x missile
           + Math_cos M angle * Interceptor.speed missile * deltaTime)%Q
          (Interceptor.y missile
           + Math_sin M angle * Interceptor.speed missile * deltaTime)%Q
          (Interceptor.startX missile) (Interceptor.startY missile)
          (Interceptor.targetX missile) (Interceptor.targetY missile)
          (Interceptor.speed missile) (Interceptor.exploded missile) trail),
     w).

Fixpoint interceptorsLoop (r : Render) (deltaTime : Q)
         (todo kept : list Interceptor.t) (w : World) : World :=
  match todo with
  | [] => set_interceptors kept w
  | m :: todo' =>
      let (res, w) := stepInterceptor r deltaTime m w in
      interceptorsLoop r deltaTime todo'
        (match res with Some m' => m' :: kept | None => kept end) w
  end.

Definition moveInterceptors (r : Render) (deltaTime : Q) (w : World) : World :=
  interceptorsLoop r deltaTime (rev (interceptors w)) [] w.

(** 7. Update Explosions: what one iteration does to one explosion; [None]
    when it is spliced out. *)
Definition ageExplosion (deltaTime : Q) (exp : Explosion.t) : option Explosion.t :=
  let currentRadius := (Explosion.currentRadius exp + 100 * deltaTime)%Q in
  if Qgtb currentRadius (Explosion.maxRadius exp) then
    let alpha := (Explosion.alpha exp - 2 * deltaTime)%Q in
    if Qleb alpha 0 then None
    else Some (Explosion.mk (Explosion.id exp) (Explosion.x exp) (Explosion.y exp)
                 currentRadius (Explosion.maxRadius exp) alpha)
  else Some (Explosion.mk (Explosion.id exp) (Explosion.x exp) (Explosion.y exp)
               currentRadius (Explosion.maxRadius exp) (Explosion.alpha exp)).

Fixpoint ageExplosions (deltaTime : Q) (exps : list Explosion.t)
  : list Explosion.t :=
  match exps with
  | [] => []
  | exp :: exps' =>
      match ageExplosion deltaTime exp with
      | Some exp' => exp' :: ageExplosions deltaTime exps'
      | None => ageExplosions deltaTime exps'
      end
  end.

Definition updateExplosions (deltaTime : Q) (w : World) : World :=
  set_explosions (ageExplosions deltaTime (explosions w)) w.

(** 8. Move Enemies & Collisions *)

(** The movement of one enemy; the second component is the travel fraction
    [t]. *)
Definition moveEnemy (deltaTime : Q) (enemy : EnemyMissile.t)
  : EnemyMissile.t * Q :=
  let traveledDistance :=
    (EnemyMissile.traveledDistance enemy + EnemyMissile.speed enemy * deltaTime)%Q in
  let t := (traveledDistance / EnemyMissile.totalDistance enemy)%Q in
  (* Wobbly trails need to be longer to see the pattern *)
  let maxTrail :=
    match EnemyMissile.type enemy with WOBBLY | LASER => 40%nat | _ => 25%nat end in
  let trail :=
    pushTrail maxTrail (mkPoint (EnemyMissile.x enemy) (EnemyMissile.y enemy))
              (EnemyMissile.trail enemy) in
  (* Base Linear Position *)
  let dx := (EnemyMissile.targetX enemy - EnemyMissile.startX enemy)%Q in
  let dy := (EnemyMissile.targetY enemy - EnemyMissile.startY enemy)%Q in
  let currentX := (EnemyMissile.startX enemy + dx * t)%Q in
  let currentY := (EnemyMissile.startY enemy + dy * t)%Q in
  (* Apply Modifiers based on Type *)
  let '(currentX, currentY) :=
    match EnemyMissile.type enemy with
    | WOBBLY =>
        (* Perpendicular offset sine wave *)
        let angle := Math_atan2 M dy dx in
        let perpX := Math_cos M (angle + Math_PI M / 2) in
        let perpY := Math_sin M (angle + Math_PI M / 2) in
        (* Amplitude: 60px, Frequency: based on distance *)
        let wave := (Math_sin M (traveledDistance * 0.03) * 60)%Q in
        ((currentX + perpX * wave)%Q, (currentY + perpY * wave)%Q)
    | _ => (currentX, currentY)
    end in
  (EnemyMissile.set_motion traveledDistance trail currentX currentY enemy, t).

(** --- SHIELD COLLISION --- *)

(** Shield visual radius varies slightly with energy: visually the shield
    shrinks a tiny bit as it gets weaker. *)
Definition visualShieldRadius (u : UpgradeStats) (energy : Z) : Q :=
  let baseShieldRadius := 180%Q in
  let energyPct := (inject_Z energy / inject_Z (shieldMaxEnergy u))%Q in
  (baseShieldRadius * (0.9 + 0.1 * energyPct))%Q.

Definition distToShield_lt (cv : Canvas) (enemy : EnemyMissile.t) (radius : Q)
  : bool :=
  let shieldX := (cv_width cv / 2)%Q in
  let shieldY := (cv_height cv - 20)%Q in
  hypot_lt (EnemyMissile.x enemy - shieldX) (EnemyMissile.y enemy - shieldY) radius.

(** The guard of the shield branch for one enemy. *)
Definition shieldBlocks (r : Render) (cv : Canvas) (enemy : EnemyMissile.t)
           (w : World) : bool :=
  (0 <? shieldLevel (upgradeStats r))%Z && (0 <? shieldEnergy w)%Z
  && distToShield_lt cv enemy
       (visualShieldRadius (upgradeStats r) (shieldEnergy w)).

(** Blocked by Shield! *)
Definition shieldAbsorb (r : Render) (now : Z) (enemy : EnemyMissile.t)
           (w : World) : World :=
  let w := handleKill r now enemy w in   (* Award points for shield defense *)
  let w := set_shieldEnergy (shieldEnergy w - 30)%Z w in   (* Damage to shield *)
  let w := if (shieldEnergy w <? 0)%Z then set_shieldEnergy 0%Z w else w in
  let (d, w) := Date_now w in
  let w := set_shieldHitTime d w in
  let w :=
    playSound shield_hit
      (inject_Z (shieldEnergy w) / inject_Z (shieldMaxEnergy (upgradeStats r)))%Q
      w in
  let (d', w) := Date_now w in
  pushExplosion
    (Explosion.mk (inject_Z d') (EnemyMissile.x enemy) (EnemyMissile.y enemy) 5 20 1)
    w.

(** Check Collision with Explosions.  [for (const exp of explosionsRef.current)]
    walks the live array, so the explosions pushed inside the loop are visited
    by it too: [todo] is what remains to visit, and a spark is appended to it
    as well as to the array.  The flag of the result is [destroyed].  [fuel]
    bounds the number of iterations; [None] means it ran out. *)
Fixpoint explosionHits (fuel : nat) (r : Render) (now : Z)
         (todo : list Explosion.t) (enemy : EnemyMissile.t) (w : World)
  : option (EnemyMissile.t * bool * World) :=
  match todo with
  | [] => Some (enemy, false, w)
  | exp :: rest =>
      match fuel with
      | O => None
      | S fuel' =>
          if hypot_lt (EnemyMissile.x enemy - Explosion.x exp)
                      (EnemyMissile.y enemy - Explosion.y exp)
                      (Explosion.currentRadius exp)
          then
            (* Check if this specific explosion ID has already hit this enemy *)
            if negb (includes (EnemyMissile.hitByExplosionIds enemy)
                              (Explosion.id exp))
            then
              let enemy :=
                EnemyMissile.set_hitByExplosionIds
                  (EnemyMissile.hitByExplosionIds enemy ++ [Explosion.id exp])
                  enemy in
              let enemy :=
                EnemyMissile.set_health (EnemyMissile.health enemy - 1)%Z enemy in
              if (EnemyMissile.health enemy <=? 0)%Z then
                let w := handleKill r now enemy w in
                (* Explosion effect for the missile itself *)
                let (d, w) := Date_now w in
                let w :=
                  pushExplosion
                    (Explosion.mk (inject_Z d) (EnemyMissile.x enemy)
                                  (EnemyMissile.y enemy) 5 30 1) w in
                let w :=
                  playSound
                    (if EnemyType_eqb (EnemyMissile.type enemy) HEAVY
                     then explode_heavy else explode_normal) 1 w in
                Some (enemy, true, w)   (* break *)
              else
                (* Survived Hit - Spark effect *)
                let (id, w) := freshId w in
                let spark :=
                  Explosion.mk id (EnemyMissile.x enemy) (EnemyMissile.y enemy)
                               2 10 1 in
                explosionHits fuel' r now (rest ++ [spark]) enemy
                              (pushExplosion spark w)
            else explosionHits fuel' r now rest enemy w
          else explosionHits fuel' r now rest enemy w
      end
  end.

(** Every iteration either shortens what remains to visit or takes one point
    of health from an enemy that survives it, so this many iterations are
    enough (see [explosionHits_total]). *)
Definition explosionFuel (todo : list Explosion.t) (enemy : EnemyMissile.t) : nat :=
  length todo + Z.to_nat (EnemyMissile.health enemy).

Definition checkExplosions (r : Render) (now : Z) (enemy : EnemyMissile.t)
           (w : World) : option (EnemyMissile.t * bool * World) :=
  explosionHits (explosionFuel (explosions w) enemy) r now (explosions w) enemy w.

(** Check Collision with Ground/Buildings *)

(* Bomb impact is larger *)
Definition impactRadius (t : EnemyType) : Q :=
  match t with BOMB | HEAVY => 90 | _ => 40 end.

(** [for (const b of buildingsRef.current)]: the buildings after the loop,
    [hitBuilding], and the world with the effects of the hits. *)
Fixpoint impactBuildings (cv : Canvas) (enemy : EnemyMissile.t)
         (bs : list Building.t) (w : World) : list Building.t * bool * World :=
  match bs with
  | [] => ([], false, w)
  | b :: bs' =>
      if negb (Building.isDestroyed b)
         && Qgeb (EnemyMissile.x enemy) (Building.x b)
         && Qleb (EnemyMissile.x enemy) (Building.x b + Building.width b)
      then
        let w := set_buildingsLostInLevel (buildingsLostInLevel w + 1)%Z w in
        (* BREAK COMBO ON DAMAGE *)
        let w := set_multiplier 1%Z w in
        (* Explosion at impact *)
        let (d, w) := Date_now w in
        let w :=
          pushExplosion
            (Explosion.mk (inject_Z d) (EnemyMissile.x enemy) (cv_height cv - 30) 1
                          (impactRadius (EnemyMissile.type enemy)) 1) w in
        let w := playSound explode_heavy 1 w in
        let '(bs'', _, w) := impactBuildings cv enemy bs' w in
        (Building.destroy b :: bs'', true, w)
      else
        let '(bs'', hitBuilding, w) := impactBuildings cv enemy bs' w in
        (b :: bs'', hitBuilding, w)
  end.

(** The body of the ground branch; the flag tells that [onGameOver] was called
    and [update] returned. *)
Definition groundImpact (r : Render) (cv : Canvas) (enemy : EnemyMissile.t)
           (w : World) : World * bool :=
  let '(bs, hitBuilding, w) := impactBuildings cv enemy (buildings w) w in
  let w := set_buildings bs w in
  (* If it hit ground but no building, still explode *)
  let w :=
    if hitBuilding then w
    else
      let (d, w) := Date_now w in
      let w :=
        pushExplosion
          (Explosion.mk (inject_Z d) (EnemyMissile.x enemy) (cv_height cv - 20) 1
                        (impactRadius (EnemyMissile.type enemy) - 20) 1) w in
      playSound
        (if EnemyType_eqb (EnemyMissile.type enemy) HEAVY
         then explode_heavy else explode_normal) 1 w in
  (* Check Game Over (All buildings destroyed) *)
  if forallb Building.isDestroyed (buildings w)
  then (emit (GameOver (displayScore r)) w, true)   (* Pass final score *)
  else (w, false).

Inductive EnemyOutcome : Type :=
  | Kept (enemy : EnemyMissile.t)   (* stays in the array *)
  | Removed                         (* spliced out, the loop goes on *)
  | Returned.                       (* spliced out, [update] returns *)

(** One iteration of the enemy loop. *)
Definition stepEnemy (r : Render) (cv : Canvas) (now : Z) (deltaTime : Q)
           (enemy : EnemyMissile.t) (w : World) : EnemyOutcome * World :=
  let (enemy, t) := moveEnemy deltaTime enemy in
  if shieldBlocks r cv enemy w then (Removed, shieldAbsorb r now enemy w)
  else
    match checkExplosions r now enemy w with
    | None => (Kept enemy, w)   (* never taken: [checkExplosions_total] *)
    | Some (enemy, true, w) => (Removed, w)
    | Some (enemy, false, w) =>
        if Qgeb t 1 || Qgeb (EnemyMissile.y enemy) (cv_height cv - 40) then
          let (w, over) := groundImpact r cv enemy w in
          (if over then Returned else Removed, w)
        else (Kept enemy, w)
    end.

(** The loop counts the index down: [todo] holds the enemies still to visit,
    the last of the array first; [kept] those already visited that stay.  The
    flag tells that [update] returned from inside the loop. *)
Fixpoint enemiesLoop (r : Render) (cv : Canvas) (now : Z) (deltaTime : Q)
         (todo kept : list EnemyMissile.t) (w : World) : World * bool :=
  match todo with
  | [] => (set_enemies kept w, false)
  | enemy :: todo' =>
      match stepEnemy r cv now deltaTime enemy w with
      | (Kept enemy', w) => enemiesLoop r cv now deltaTime todo' (enemy' :: kept) w
      | (Removed, w) => enemiesLoop r cv now deltaTime todo' kept w
      | (Returned, w) => (set_enemies (rev todo' ++ kept) w, true)
      end
  end.

Definition moveEnemies (r : Render) (cv : Canvas) (now : Z) (deltaTime : Q)
           (w : World) : World * bool :=
  enemiesLoop r cv now deltaTime (rev (enemies w)) [] w.

(** --- NORMAL GAMEPLAY LOGIC --- *)
Definition gameplay (r : Render) (cv : Canvas) (now : Z) (deltaTime : Q)
           (w : World) : World :=
  let w := comboTimeoutCheck now w in
  (* 1. Level Timer *)
  let w := set_levelTime (levelTime w + deltaTime)%Q w in
  let timeLeft := Math_max 0 (LEVEL_DURATION - levelTime w) in
  if Qleb timeLeft 0 then
    (* Level Complete; stop updating *)
    emit (LevelComplete (buildingsLostInLevel w) (enemiesDestroyed w)) w
  else
    let w := audioWarning w in
    let w := spawnEnemies r cv w in
    let w := autoTurret r cv now w in
    let w := moveProjectiles r cv now deltaTime w in
    let w := moveInterceptors r deltaTime w in
    let w := updateExplosions deltaTime w in
    let (w, returned) := moveEnemies r cv now deltaTime w in
    if returned then w
    else emit RequestFrame w.   (* after the drawing, which is not modelled *)

(** --- GAME OVER ANIMATION SEQUENCE --- (the drawing is not modelled) *)
Definition gameOverAnimation (time : Q) (w : World) : World :=
  let w :=
    if Qeq_bool (gameOverStart w) 0
    then playSound nuke 1 (set_gameOverStart time w)
    else w in
  emit RequestFrame w.

(** ** update *)
Definition update (r : Render) (time : Q) (w : World) : World :=
  (* We allow drawing in GAME_OVER for the explosion animation *)
  if negb (GameState_eqb (gameState r) PLAYING)
     && negb (GameState_eqb (gameState r) GAME_OVER) then w
  else
    let deltaTime := ((time - lastTime w) / 1000)%Q in
    let w := set_lastTime time w in
    let (now, w) := Date_now w in
    (* Prevent massive jumps if tab was inactive *)
    if Qgtb deltaTime 0.1 then w
    else
      match canvas w with
      | None => w
      | Some cv =>
          if negb (cv_context2d cv) then w
          else if GameState_eqb (gameState r) GAME_OVER
               then gameOverAnimation time w
               else gameplay r cv now deltaTime w
      end.

(** ** The host's event loop

    What the host delivers to the component while a level is played: animation
    frames, which call [update], and clicks on the canvas.  Each carries the
    render whose closure handles it, since the props ([gameState] above all)
    change between renders. *)
Inductive Action : Type :=
  | Frame (r : Render) (time : Q)
  | Click (r : Render) (e : MouseEvent).

Definition deliver (a : Action) (w : World) : World :=
  match a with
  | Frame r time => update r time w
  | Click r e => handleCanvasClick r e w
  end.

Definition play (acts : list Action) (w : World) : World :=
  fold_left (fun w a => deliver a w) acts w.

(** [n] successive runs of the explosion update on one explosion. *)
Fixpoint ageTicks (deltaTime : Q) (n : nat) (exp : Explosion.t)
  : option Explosion.t :=
  match n with
  | O => Some exp
  | S n' =>
      match ageExplosion deltaTime exp with
      | Some exp' => ageTicks deltaTime n' exp'
      | None => None
      end
  end.

End Component.

(** ** The effect that starts the loop (GameCanvas)

    [prevGameStateRef] is passed in and returned; the request for the first
    animation frame is logged like the later ones.  The cleanup, which cancels
    a pending request, is not modelled. *)
Section Scheduling.

Variable M : MathLib.
Variable H : Host.

Definition canvasEffect (prevGameState : GameState) (r : Render)
           (innerWidth innerHeight : Q) (w : World) : World * GameState :=
  (* Set canvas size *)
  let w :=
    match canvas w with
    | Some cv => set_canvas (Some (mkCanvas innerWidth innerHeight (cv_context2d cv))) w
    | None => w
    end in
  (* Init level when level changes or we start playing:
     only init if we are NOT resuming from PAUSED *)
  let w :=
    if GameState_eqb (gameState r) PLAYING
       && negb (GameState_eqb prevGameState PAUSED)
    then initLevel r w else w in
  let w :=
    if GameState_eqb (gameState r) PLAYING
       || GameState_eqb (gameState r) GAME_OVER
    then emit RequestFrame w else w in
  (* Update prev state *)
  (w, gameState r).

(** The callback of that first request:
    [(time) => { lastTimeRef.current = time; update(time); }] *)
Definition firstFrame (r : Render) (time : Q) (w : World) : World :=
  update M H r time (set_lastTime time w).

End Scheduling.

(** ** Keyboard aiming (second variant of GameCanvas) *)

Record InputState : Type := mkInputState {
  up : bool; down : bool; left : bool; right : bool; fire : bool
}.

Inductive KeyCode : Type :=
  | KeyW | ArrowUp | KeyS | ArrowDown | KeyA | ArrowLeft | KeyD | ArrowRight
  | Space | Enter | OtherKey.

(** The write [inputStateRef.current.<flag> = v] selected by the [switch]. *)
Definition setKey (code : KeyCode) (v : bool) (s : InputState) : InputState :=
  match code with
  | KeyW | ArrowUp => mkInputState v (down s) (left s) (right s) (fire s)
  | KeyS | ArrowDown => mkInputState (up s) v (left s) (right s) (fire s)
  | KeyA | ArrowLeft => mkInputState (up s) (down s) v (right s) (fire s)
  | KeyD | ArrowRight => mkInputState (up s) (down s) (left s) v (fire s)
  | Space | Enter => mkInputState (up s) (down s) (left s) (right s) v
  | OtherKey => s
  end.

Definition handleKeyDown (gameState : GameState) (code : KeyCode) (s : InputState)
  : InputState :=
  if negb (GameState_eqb gameState PLAYING) then s else setKey code true s.

Definition handleKeyUp (code : KeyCode) (s : InputState) : InputState :=
  setKey code false s.

(** 0. Update Crosshair Position from Input, then Clamp Crosshair *)
Definition moveCrosshair (input : InputState) (deltaTime : Q) (cv : Canvas)
           (crosshair : Point) : Point :=
  let moveSpeed := (600 * deltaTime)%Q in   (* px per second *)
  let y := pt_y crosshair in
  let y := if up input then (y - moveSpeed)%Q else y in
  let y := if down input then (y + moveSpeed)%Q else y in
  let x := pt_x crosshair in
  let x := if left input then (x - moveSpeed)%Q else x in
  let x := if right input then (x + moveSpeed)%Q else x in
  mkPoint (Math_max 0 (Math_min (cv_width cv) x))
          (Math_max 0 (Math_min (cv_height cv) y)).

(** ** App.tsx

    The React state of the parent component, with the item of [localStorage]
    that holds the high score.  A handler runs on the state of the render that
    created it; renders follow every event, so that state is the current one.
    The state object built by [App] has no [targetingLevel] (the canvas
    modelled here never reads it); it is held at 0. *)
Module App.

Record t : Type := mk {
  gameState : GameState;
  level : Z;
  credits : Z;
  buildingsRemaining : Z;
  highScore : Z;
  isMuted : bool;
  difficulty : Difficulty;
  upgrades : UpgradeStats;
  savedHighScore : option Z   (* localStorage 'shomrei_hair_highscore' *)
}.

Definition set_gameState (v : GameState) (a : t) : t :=
  mk v (level a) (credits a) (buildingsRemaining a) (highScore a) (isMuted a)
     (difficulty a) (upgrades a) (savedHighScore a).

(** The state of the first render, and the effect that loads the high score. *)
Definition initial (saved : option Z) : t :=
  mk MENU 1 0 6 0 false MEDIUM (mkUpgradeStats 0 0 0 0 0 0) saved.

Definition loadHighScore (a : t) : t :=
  match savedHighScore a with
  | Some s =>
      mk (gameState a) (level a) (credits a) (buildingsRemaining a) s (isMuted a)
         (difficulty a) (upgrades a) (savedHighScore a)
  | None => a
  end.

Definition startGame (a : t) : t :=
  (* Reset upgrades but keep high score *)
  mk PLAYING 1 0 6 (highScore a) (isMuted a) (difficulty a)
     (mkUpgradeStats 0 0 0 0 0 0) (savedHighScore a).

Definition nextLevel (a : t) : t :=
  mk PLAYING (level a + 1) (credits a) (buildingsRemaining a) (highScore a)
     (isMuted a) (difficulty a) (upgrades a) (savedHighScore a).

Definition togglePause (a : t) : t :=
  match gameState a with
  | PLAYING => set_gameState PAUSED a
  | PAUSED => set_gameState PLAYING a
  | _ => a
  end.

Definition quitToMenu (a : t) : t := set_gameState MENU a.

Definition difficultyBonus (d : Difficulty) : Q :=
  match d with HARD => 1.5 | EASY => 0.8 | MEDIUM => 1 end.

Definition handleLevelComplete (buildingsLost enemiesDestroyed : Z) (a : t) : t :=
  let currentRemaining := Z.max 0 (buildingsRemaining a - buildingsLost) in
  (* Calculate Earned Credits based on difficulty *)
  let earned :=
    Qfloor (inject_Z (currentRemaining * 50 + enemiesDestroyed * 10 + 100)
            * difficultyBonus (difficulty a)) in
  mk LEVEL_COMPLETE (level a) (credits a + earned) currentRemaining (highScore a)
     (isMuted a) (difficulty a) (upgrades a) (savedHighScore a).

Definition handleGameOver (finalScore : Z) (a : t) : t :=
  if (highScore a <? finalScore)%Z then
    mk GAME_OVER (level a) (credits a) 0 finalScore (isMuted a) (difficulty a)
       (upgrades a) (Some finalScore)
  else
    mk GAME_OVER (level a) (credits a) 0 (highScore a) (isMuted a) (difficulty a)
       (upgrades a) (savedHighScore a).

(** Upgrade Logic *)
Definition getUpgradeCost (currentLevel : Z) : Z := 500 * (currentLevel + 1).

Inductive UpgradeKey : Type :=
  | speedLevelKey | radiusLevelKey | rateLevelKey | turretLevelKey | shieldLevelKey.

(** [upgrades[type]] and [{...prev, [type]: prev[type] + 1}] *)
Definition levelOf (type : UpgradeKey) (u : UpgradeStats) : Z :=
  match type with
  | speedLevelKey => speedLevel u
  | radiusLevelKey => radiusLevel u
  | rateLevelKey => rateLevel u
  | turretLevelKey => turretLevel u
  | shieldLevelKey => shieldLevel u
  end.

Definition raise (type : UpgradeKey) (u : UpgradeStats) : UpgradeStats :=
  match type with
  | speedLevelKey =>
      mkUpgradeStats (speedLevel u + 1) (radiusLevel u) (rateLevel u) (turretLevel u)
                     (shieldLevel u) (targetingLevel u)
  | radiusLevelKey =>
      mkUpgradeStats (speedLevel u) (radiusLevel u + 1) (rateLevel u) (turretLevel u)
                     (shieldLevel u) (targetingLevel u)
  | rateLevelKey =>
      mkUpgradeStats (speedLevel u) (radiusLevel u) (rateLevel u + 1) (turretLevel u)
                     (shieldLevel u) (targetingLevel u)
  | turretLevelKey =>
      mkUpgradeStats (speedLevel u) (radiusLevel u) (rateLevel u) (turretLevel u + 1)
                     (shieldLevel u) (targetingLevel u)
  | shieldLevelKey =>
      mkUpgradeStats (speedLevel u) (radiusLevel u) (rateLevel u) (turretLevel u)
                     (shieldLevel u + 1) (targetingLevel u)
  end.

Definition buyUpgrade (type : UpgradeKey) (a : t) : t :=
  let cost := getUpgradeCost (levelOf type (upgrades a)) in
  if (cost <=? credits a)%Z then
    mk (gameState a) (level a) (credits a - cost) (buildingsRemaining a)
       (highScore a) (isMuted a) (difficulty a) (raise type (upgrades a))
       (savedHighScore a)
  else a.

(** What reaches the component: the buttons, each shown in one overlay only,
    and the two callbacks of the canvas. *)
Inductive Event : Type :=
  | MuteButton
  | PauseButton                         (* shown while PLAYING or PAUSED *)
  | DifficultyButton (d : Difficulty)   (* main menu *)
  | StartButton                         (* main menu *)
  | ResumeButton                        (* pause menu *)
  | QuitButton                          (* pause menu *)
  | UpgradeButton (type : UpgradeKey)   (* upgrade shop, disabled when too dear *)
  | NextLevelButton                     (* upgrade shop *)
  | BackToMenuButton                    (* game over overlay *)
  | onLevelComplete (buildingsLost enemiesDestroyed : Z)
  | onGameOver (finalScore : Z).

Definition handle (e : Event) (a : t) : t :=
  match e with
  | MuteButton =>
      mk (gameState a) (level a) (credits a) (buildingsRemaining a) (highScore a)
         (negb (isMuted a)) (difficulty a) (upgrades a) (savedHighScore a)
  | PauseButton =>
      match gameState a with PLAYING | PAUSED => togglePause a | _ => a end
  | DifficultyButton d =>
      match gameState a with
      | MENU =>
          mk (gameState a) (level a) (credits a) (buildingsRemaining a)
             (highScore a) (isMuted a) d (upgrades a) (savedHighScore a)
      | _ => a
      end
  | StartButton => match gameState a with MENU => startGame a | _ => a end
  | ResumeButton => match gameState a with PAUSED => togglePause a | _ => a end
  | QuitButton => match gameState a with PAUSED => quitToMenu a | _ => a end
  | UpgradeButton type =>
      match gameState a with
      | LEVEL_COMPLETE =>
          if (credits a <? getUpgradeCost (levelOf type (upgrades a)))%Z
          then a else buyUpgrade type a
      | _ => a
      end
  | NextLevelButton =>
      match gameState a with LEVEL_COMPLETE => nextLevel a | _ => a end
  | BackToMenuButton =>
      match gameState a with GAME_OVER => set_gameState MENU a | _ => a end
  | onLevelComplete lost destroyed => handleLevelComplete lost destroyed a
  | onGameOver finalScore => handleGameOver finalScore a
  end.

Definition run (events : list Event) (a : t) : t :=
  fold_left (fun a e => handle e a) events a.

End App.

(** ** Vocabulary of the properties *)

Local Open Scope Z_scope.

(** The test of the explosion loop: the enemy is closer to the centre of [exp]
    than its current radius. *)
Definition overlaps (enemy : EnemyMissile.t) (exp : Explosion.t) : bool :=
  hypot_lt (EnemyMissile.x enemy - Explosion.x exp)
           (EnemyMissile.y enemy - Explosion.y exp)
           (Explosion.currentRadius exp).

(** The enemy after it has recorded the identities [newIds], one point of
    health each. *)
Definition damaged (newIds : list Q) (enemy : EnemyMissile.t) : EnemyMissile.t :=
  EnemyMissile.set_health
    (EnemyMissile.health enemy - Z.of_nat (length newIds))
    (EnemyMissile.set_hitByExplosionIds
       (EnemyMissile.hitByExplosionIds enemy ++ newIds) enemy).



(** What one run of the explosion loop did to an enemy: [newIds] are the
    identities it recorded, in order. *)
Record hitReport (todo : list Explosion.t) (enemy : EnemyMissile.t) (w : World)
       (enemy' : EnemyMissile.t) (destroyed : bool) (w' : World)
       (newIds : list Q) : Prop := mkHitReport {
  hr_enemy : enemy' = damaged newIds enemy;
  hr_nodup : NoDupA Qeq newIds;
  hr_fresh : forall k, InA Qeq k newIds ->
             includes (EnemyMissile.hitByExplosionIds enemy) k = false;
  hr_source : forall k, In k newIds ->
              exists exp, (In exp todo \/ In exp (explosions w'))
                          /\ Explosion.id exp = k /\ overlaps enemy exp = true;
  hr_dead : destroyed = true -> EnemyMissile.health enemy' <= 0 /\ newIds <> [];
  hr_alive : destroyed = false -> newIds = [] \/ 0 < EnemyMissile.health enemy';
  hr_recorded : destroyed = false ->
                forall exp, In exp todo -> overlaps enemy exp = true ->
                  includes (EnemyMissile.hitByExplosionIds enemy')
                           (Explosion.id exp) = true;
  hr_pushed : exists pushed, explosions w' = explosions w ++ pushed
}.

(** The events that any phase may send. *)
Definition isSound (e : Event) : Prop :=
  match e with PlaySound _ _ => True | _ => False end.

(** The range of the combo multiplier. *)
Definition comboInRange (w : World) : Prop := 1 <= multiplier w <= 10.

(** A stretch of [update] that touches neither the buildings nor the shield
    and sends nothing but sounds. *)
Record calm (w w' : World) : Prop := mkCalm {
  calm_buildings : buildings w' = buildings w;
  calm_shield : shieldEnergy w' = shieldEnergy w;
  calm_combo : comboInRange w -> comboInRange w';
  calm_log : exists evs, log w' = log w ++ evs /\ Forall isSound evs
}.

(** [buildingsRef.current.every(b => b.isDestroyed)] *)
Definition allDestroyed (w : World) : bool :=
  forallb Building.isDestroyed (buildings w).

(** What may happen to a building: nothing, or its destruction. *)
Definition ruins (b b' : Building.t) : Prop := b' = b \/ b' = Building.destroy b.

(** What holds between the worlds before and after any stretch of [update]. *)
Record evolves (w w' : World) : Prop := mkEvolves {
  ev_buildings : Forall2 ruins (buildings w) (buildings w');
  ev_shield_le : shieldEnergy w' <= shieldEnergy w;
  ev_shield_nonneg : 0 <= shieldEnergy w -> 0 <= shieldEnergy w';
  ev_combo : comboInRange w -> comboInRange w'
}.

(** How a stretch of [update] ends: still running, with only quiet events
    sent, or returned after [onGameOver]. *)
Inductive verdict (r : Render) (w w' : World) : bool -> Prop :=
  | verdict_on :
      (exists evs, log w' = log w ++ evs /\ Forall isSound evs) ->
      buildings w' = buildings w \/ allDestroyed w' = false ->
      verdict r w w' false
  | verdict_over :
      (exists evs, log w' = log w ++ evs ++ [GameOver (displayScore r)]
                   /\ Forall isSound evs) ->
      allDestroyed w' = true ->
      verdict r w w' true.

(** How one call of [update] ends, read off the log. *)
Inductive tickEnd (r : Render) (w w' : World) : Prop :=
  | tick_idle :
      log w' = log w -> buildings w' = buildings w -> tickEnd r w w'
  | tick_continues (evs : list Event) :
      log w' = log w ++ evs ++ [RequestFrame] -> Forall isSound evs ->
      buildings w' = buildings w \/ allDestroyed w' = false ->
      tickEnd r w w'
  | tick_levelComplete (evs : list Event) (lost destroyed : Z) :
      log w' = log w ++ evs ++ [LevelComplete lost destroyed] ->
      Forall isSound evs -> buildings w' = buildings w ->
      tickEnd r w w'
  | tick_gameOver (evs : list Event) :
      log w' = log w ++ evs ++ [GameOver (displayScore r)] ->
      Forall isSound evs -> allDestroyed w' = true ->
      tickEnd r w w'.

(** Whether an iteration of the enemy loop left [update]. *)
Definition isReturned (o : EnemyOutcome) : bool :=
  match o with Returned => true | _ => false end.

(** ** Vocabulary of the properties of App *)

(** The statistics that the canvas reports are counters. *)
Definition plausible (e : App.Event) : Prop :=
  match e with
  | App.onLevelComplete buildingsLost enemiesDestroyed =>
      0 <= buildingsLost /\ 0 <= enemiesDestroyed
  | _ => True
  end.

(** The price of the first [n] levels of one upgrade. *)
Fixpoint paid (n : nat) : Z :=
  match n with
  | O => 0
  | S n' => paid n' + App.getUpgradeCost (Z.of_nat n')
  end.

Definition allKeys : list App.UpgradeKey :=
  [App.speedLevelKey; App.radiusLevelKey; App.rateLevelKey; App.turretLevelKey;
   App.shieldLevelKey].

(** The credits at hand together with the price of the upgrades held. *)
Definition wealth (a : App.t) : Z :=
  App.credits a
  + fold_right (fun k s => paid (Z.to_nat (App.levelOf k (App.upgrades a))) + s)
               0 allKeys.

(** The best of the high score [h] and the final scores reported in [evs]. *)
Definition bestOf (evs : list App.Event) (h : Z) : Z :=
  fold_left (fun h e => match e with App.onGameOver s => Z.max h s | _ => h end)
            evs h.

(** The page as it comes up with [saved] in the storage. *)
Definition pageLoad (saved : option Z) : App.t := App.loadHighScore (App.initial saved).

(** What every state of App satisfies. *)
Record appSane (a : App.t) : Prop := mkAppSane {
  as_credits : 0 <= App.credits a;
  as_buildings : 0 <= App.buildingsRemaining a <= 6;
  as_level : 1 <= App.level a;
  as_upgrades : forall k, 0 <= App.levelOf k (App.upgrades a)
}.

(** The storage holds the high score shown, or nothing while that is 0. *)
Definition stored (a : App.t) : Prop :=
  App.savedHighScore a = Some (App.highScore a)
  \/ (App.savedHighScore a = None /\ App.highScore a = 0).

(** ** Vocabulary of the properties of the input handling *)

(** The flag of [inputStateRef] that the key [code] drives. *)
Definition flagOf (code : KeyCode) (s : InputState) : bool :=
  match code with
  | KeyW | ArrowUp => up s
  | KeyS | ArrowDown => down s
  | KeyA | ArrowLeft => left s
  | KeyD | ArrowRight => right s
  | Space | Enter => fire s
  | OtherKey => false
  end.

(** The render of the same game under another [gameState]. *)
Definition inState (g : GameState) (r : Render) : Render :=
  mkRender g (level r) (difficulty r) (upgradeStats r) (displayScore r).

(** ** Vocabulary of the properties of the canvas *)

(** The square of the distance from an enemy to the turret, and the test that
    keeps the turret from shooting near the ground. *)
Definition turretDist2 (cv : Canvas) (e : EnemyMissile.t) : Q :=
  ((EnemyMissile.x e - turretX) * (EnemyMissile.x e - turretX)
   + (EnemyMissile.y e - (cv_height cv - 40)) * (EnemyMissile.y e - (cv_height cv - 40)))%Q.

Definition inTurretView (cv : Canvas) (e : EnemyMissile.t) : bool :=
  Qltb (EnemyMissile.y e) (cv_height cv - 100).

(** What the search for the closest enemy holds after it has seen [seen]. *)
Definition closestOf (cv : Canvas) (seen : list EnemyMissile.t)
           (closest : option (Q * EnemyMissile.t)) : Prop :=
  match closest with
  | Some (d2, e) =>
      In e seen /\ inTurretView cv e = true /\ d2 = turretDist2 cv e
      /\ forall e', In e' seen -> inTurretView cv e' = true ->
                    (turretDist2 cv e <= turretDist2 cv e')%Q
  | None => forall e', In e' seen -> inTurretView cv e' = false
  end.

(** The level at which getEnemyConfig starts to offer a type, by difficulty
    (none for the standard missile, which is always offered). *)
Definition startLevel (d : Difficulty) (t : EnemyType) : option Z :=
  match t with
  | STANDARD => None
  | FAST => Some (match d with EASY => 3 | MEDIUM => 2 | HARD => 1 end)
  | BOMB => Some (match d with EASY => 4 | MEDIUM => 3 | HARD => 2 end)
  | HEAVY => Some (match d with EASY => 6 | MEDIUM => 4 | HARD => 3 end)
  | BULLET => Some (match d with EASY => 7 | MEDIUM => 5 | HARD => 3 end)
  | WOBBLY => Some (match d with EASY => 8 | MEDIUM => 6 | HARD => 5 end)
  | LASER => Some (match d with EASY => 9 | MEDIUM => 7 | HARD => 5 end)
  end.

Definition unlocked (d : Difficulty) (level : Z) (t : EnemyType) : bool :=
  match startLevel d t with
  | Some s => s <=? level
  | None => true
  end.

(** The health that the spawner gives to a type. *)
Definition fullHealth (t : EnemyType) : Z :=
  match t with HEAVY => 3 | _ => 1 end.

(** The number of buildings that stand. *)
Definition standing (bs : list Building.t) : Z :=
  Z.of_nat (length (filter (fun b => negb (Building.isDestroyed b)) bs)).

(** The books of a stretch of a frame after the level timer: kills are only
    added, every kill scores between 8 and 600 points while the combo is in
    range, every building that falls is counted once, and the level clock and
    the canvas stay. *)
Record tally (w w' : World) : Prop := mkTally {
  ta_kills : enemiesDestroyed w <= enemiesDestroyed w';
  ta_score : comboInRange w ->
             8 * (enemiesDestroyed w' - enemiesDestroyed w) <= score w' - score w
             /\ score w' - score w <= 600 * (enemiesDestroyed w' - enemiesDestroyed w);
  ta_combo : comboInRange w -> comboInRange w';
  ta_lost : buildingsLostInLevel w' + standing (buildings w')
            = buildingsLostInLevel w + standing (buildings w);
  ta_standing : standing (buildings w') <= standing (buildings w);
  ta_time : levelTime w' = levelTime w;
  ta_canvas : canvas w' = canvas w
}.

(** The same of whole frames and clicks, where the level clock moves. *)
Record ledger (w w' : World) : Prop := mkLedger {
  lg_kills : enemiesDestroyed w <= enemiesDestroyed w';
  lg_score : comboInRange w ->
             8 * (enemiesDestroyed w' - enemiesDestroyed w) <= score w' - score w
             /\ score w' - score w <= 600 * (enemiesDestroyed w' - enemiesDestroyed w);
  lg_combo : comboInRange w -> comboInRange w';
  lg_lost : buildingsLostInLevel w' + standing (buildings w')
            = buildingsLostInLevel w + standing (buildings w);
  lg_standing : standing (buildings w') <= standing (buildings w);
  lg_canvas : canvas w' = canvas w
}.

(** The event that ends a frame of the game proper when the level goes on. *)
Definition lastEvent (r : Render) (e : Event) : Prop :=
  e = RequestFrame \/ e = GameOver (displayScore r).

(** The frames of the game-over animation that run at the times [times]. *)
Definition animate (times : list Q) (w : World) : World :=
  fold_left (fun w time => gameOverAnimation time w) times w.

(** The longest trail that moveEnemy leaves to a type. *)
Definition maxTrail (t : EnemyType) : nat :=
  match t with WOBBLY | LASER => 40 | _ => 25 end.

(** What holds of every live enemy: health left, not more than the health of
    its type, a trail within its bound, and a bomb right above its target. *)
Record fitEnemy (e : EnemyMissile.t) : Prop := mkFitEnemy {
  fit_health : 0 < EnemyMissile.health e <= EnemyMissile.maxHealth e;
  fit_maxHealth : EnemyMissile.maxHealth e = fullHealth (EnemyMissile.type e);
  fit_trail : (length (EnemyMissile.trail e) <= maxTrail (EnemyMissile.type e))%nat;
  fit_bomb : EnemyMissile.type e = BOMB ->
             EnemyMissile.startX e = EnemyMissile.targetX e
             /\ (EnemyMissile.x e == EnemyMissile.targetX e)%Q
}.

(** The same of every enemy of the world. *)
Definition allFit (w : World) : Prop := Forall fitEnemy (enemies w).

(** The first building ends to the left of where the second begins. *)
Definition apart (b1 b2 : Building.t) : Prop :=
  (Building.x b1 + Building.width b1 < Building.x b2)%Q.

(** The test of the impact loop: the enemy is over the building. *)
Definition over (enemy : EnemyMissile.t) (b : Building.t) : bool :=
  Qgeb (EnemyMissile.x enemy) (Building.x b)
  && Qleb (EnemyMissile.x enemy) (Building.x b + Building.width b).

(** The test of stepInterceptor: the target is within this frame's reach. *)
Definition arrives (deltaTime : Q) (m : Interceptor.t) : bool :=
  hypot_lt (Interceptor.targetX m - Interceptor.x m)
           (Interceptor.targetY m - Interceptor.y m)
           (Interceptor.speed m * deltaTime).

(** The explosion that an interceptor [m] leaves at its target. *)
Definition blastOf (r : Render) (m : Interceptor.t) (exp : Explosion.t) : Prop :=
  Explosion.x exp = Interceptor.targetX m
  /\ Explosion.y exp = Interceptor.targetY m
  /\ Explosion.currentRadius exp = 1%Q
  /\ Explosion.maxRadius exp = inject_Z (explosionMaxRadius (upgradeStats r))
  /\ Explosion.alpha exp = 1%Q.

(** The interceptor [m'] is [m] one frame further on its way. *)
Definition flownFrom (m m' : Interceptor.t) : Prop :=
  Interceptor.id m' = Interceptor.id m
  /\ Interceptor.targetX m' = Interceptor.targetX m
  /\ Interceptor.targetY m' = Interceptor.targetY m
  /\ Interceptor.speed m' = Interceptor.speed m.

(** The test of the hit check of a turret projectile at [(x, y)]. *)
Definition inReach (x y : Q) (e : EnemyMissile.t) : bool :=
  hypot_lt (x - EnemyMissile.x e) (y - EnemyMissile.y e) 20.

(** ** Sample data, to run the model on *)

(** A crude instance of the host's library (the properties below hold for
    every instance). *)
Definition sampleMath : MathLib :=
  mkMathLib (fun a b => Qabs a + Qabs b)%Q (fun _ _ => 0%Q) (fun _ => 1%Q)
            (fun _ => 0%Q) (355 # 113)%Q.

(** A clock that advances one millisecond per call, and a generator that
    always answers [rnd]. *)
Definition sampleHost (rnd : Q) : Host :=
  mkHost (fun n => 1700000000000 + Z.of_nat n) (fun _ => rnd).

(** The upgrades of a new game: every level at zero. *)
Definition noUpgrades : UpgradeStats := mkUpgradeStats 0 0 0 0 0 0.

Definition sampleCanvas : Canvas := mkCanvas 800 600 true.

Definition sampleUpgrades : UpgradeStats := mkUpgradeStats 0 0 0 0 1 0.

Definition sampleRender : Render := mkRender PLAYING 1 MEDIUM sampleUpgrades 0.

(** The refs as the component mounts, with the canvas in place. *)
Definition mounted : World :=
  mkWorld [] [] [] [] [] 0 0 0 false 1 0 0 0 0 0 0 0 0 0 (Some sampleCanvas) 0%nat [].

(** An enemy of type [t] at [(x, y)], with full health [h]. *)
Definition sampleEnemy (t : EnemyType) (x y : Q) (h : Z) : EnemyMissile.t :=
  EnemyMissile.mk 1 t x y x (-30) x 600 630 (y + 30) 60 [] h h [].

(** * Properties *)

(** ** Comparisons *)

Lemma Qltb_lt (a b : Q) : Qltb a b = true <-> (a < b)%Q.
Proof.
  unfold Qltb. rewrite negb_true_iff, <- not_true_iff_false, Qle_bool_iff.
  split; [apply Qnot_le_lt | apply Qlt_not_le].
Qed.

Lemma Qleb_le (a b : Q) : Qleb a b = true <-> (a <= b)%Q.
Proof. unfold Qleb. apply Qle_bool_iff. Qed.

Lemma Qgtb_gt (a b : Q) : Qgtb a b = true <-> (b < a)%Q.
Proof. unfold Qgtb. apply Qltb_lt. Qed.

Lemma Qgeb_ge (a b : Q) : Qgeb a b = true <-> (b <= a)%Q.
Proof. unfold Qgeb. apply Qleb_le. Qed.

Lemma Qltb_ge (a b : Q) : Qltb a b = false <-> (b <= a)%Q.
Proof.
  unfold Qltb. rewrite negb_false_iff. apply Qle_bool_iff.
Qed.

Lemma Qleb_gt (a b : Q) : Qleb a b = false <-> (b < a)%Q.
Proof.
  unfold Qleb. rewrite <- not_true_iff_false, Qle_bool_iff.
  split; [apply Qnot_le_lt | apply Qlt_not_le].
Qed.

(** ** The statistics derived from the upgrades *)

Lemma fireCooldown_ge_100 (u : UpgradeStats) : 100 <= fireCooldown u.
Proof. unfold fireCooldown. lia. Qed.

(** C9, as stated, fails: with every level at -1 none of the five derived
    parameters has its level-zero value.  The interceptor flies at 450 instead
    of 600, the blast radius is 45 instead of 60, the shield's full charge is
    -100 instead of 0, and both cooldowns are longer than at level zero. *)
Lemma negative_levels_propagate :
  let u := mkUpgradeStats (-1) (-1) (-1) (-1) (-1) (-1) in
  (interceptorSpeed u = 450 /\ interceptorSpeed noUpgrades = 600) /\
  (explosionMaxRadius u = 45 /\ explosionMaxRadius noUpgrades = 60) /\
  (fireCooldown u = 550 /\ fireCooldown noUpgrades = 500) /\
  (shieldMaxEnergy u = -100 /\ shieldMaxEnergy noUpgrades = 0) /\
  (turretCooldown u = 1100 /\ turretCooldown noUpgrades = 1000) /\
  ~ (interceptorSpeed u = interceptorSpeed noUpgrades /\
     explosionMaxRadius u = explosionMaxRadius noUpgrades /\
     fireCooldown u = fireCooldown noUpgrades /\
     shieldMaxEnergy u = shieldMaxEnergy noUpgrades /\
     turretCooldown u = turretCooldown noUpgrades).
Proof.
  cbv zeta. repeat split. intros [E _]. discriminate E.
Qed.

(** C9 (amended): the derived parameters are computed from the levels as they
    are given, without validation.  Each one equals its level-zero value only
    when its level is exactly zero; a negative level gives a slower
    interceptor, a smaller blast, a negative full charge of the shield and
    longer cooldowns than level zero. *)
Theorem derived_stats_follow_levels (u : UpgradeStats) :
  (interceptorSpeed u = interceptorSpeed noUpgrades <-> speedLevel u = 0) /\
  (explosionMaxRadius u = explosionMaxRadius noUpgrades <-> radiusLevel u = 0) /\
  (fireCooldown u = fireCooldown noUpgrades <-> rateLevel u = 0) /\
  (shieldMaxEnergy u = shieldMaxEnergy noUpgrades <-> shieldLevel u = 0) /\
  (turretCooldown u = turretCooldown noUpgrades <-> turretLevel u = 0) /\
  (speedLevel u < 0 -> interceptorSpeed u < interceptorSpeed noUpgrades) /\
  (radiusLevel u < 0 -> explosionMaxRadius u < explosionMaxRadius noUpgrades) /\
  (rateLevel u < 0 -> fireCooldown noUpgrades < fireCooldown u) /\
  (shieldLevel u < 0 -> shieldMaxEnergy u < 0) /\
  (turretLevel u < 0 -> turretCooldown noUpgrades < turretCooldown u).
Proof.
  destruct u as [sl rl fl tl hl gl].
  unfold interceptorSpeed, explosionMaxRadius, fireCooldown, shieldMaxEnergy,
    turretCooldown, noUpgrades, speedLevel, radiusLevel, rateLevel, turretLevel,
    shieldLevel.
  repeat split; intros; lia.
Qed.

Lemma derived_stats_follow_levels_witness :
  interceptorSpeed (mkUpgradeStats (-2) 0 0 0 0 0) < interceptorSpeed noUpgrades.
Proof.
  apply (derived_stats_follow_levels (mkUpgradeStats (-2) 0 0 0 0 0)).
  cbn. lia.
Defined.

Section Properties.

Variable M : MathLib.
Variable H : Host.

(** ** The fire cooldown *)

(** C10.  A click on the canvas while PLAYING that comes less than
    [fireCooldown] milliseconds after the last accepted shot changes nothing
    but the count of oracle calls: no interceptor, no sound, the same
    [lastShotTime].  [fireCooldown] is max(100, 500 - 50 * rateLevel), hence at
    least 100 at every level: an accepted click records its own time as
    [lastShotTime] and adds exactly one interceptor (none without a canvas),
    and from any world that
    still holds this [lastShotTime], a click less than 100 ms later, at
    whatever upgrade level, is such a no-op. *)
Theorem click_inside_cooldown_is_noop (r : Render) (e : MouseEvent) (w : World) :
  gameState r = PLAYING ->
  (fireCooldown (upgradeStats r) = Z.max 100 (500 - rateLevel (upgradeStats r) * 50)
   /\ 100 <= fireCooldown (upgradeStats r))
  /\ (clock H (hostCalls w) - lastShotTime w < fireCooldown (upgradeStats r) ->
      handleCanvasClick H r e w = set_hostCalls (S (hostCalls w)) w)
  /\ (fireCooldown (upgradeStats r) <= clock H (hostCalls w) - lastShotTime w ->
      let w1 := handleCanvasClick H r e w in
      lastShotTime w1 = clock H (hostCalls w)
      /\ length (interceptors w1)
         = (length (interceptors w)
            + match canvas w with Some _ => 1 | None => 0 end)%nat
      /\ forall (r2 : Render) (e2 : MouseEvent) (w2 : World),
           gameState r2 = PLAYING ->
           lastShotTime w2 = lastShotTime w1 ->
           clock H (hostCalls w2) - clock H (hostCalls w) < 100 ->
           handleCanvasClick H r2 e2 w2 = set_hostCalls (S (hostCalls w2)) w2).
Proof.
  intros Hplay.
  assert (Hnoop : forall r' e' w',
             gameState r' = PLAYING ->
             clock H (hostCalls w') - lastShotTime w' < fireCooldown (upgradeStats r') ->
             handleCanvasClick H r' e' w' = set_hostCalls (S (hostCalls w')) w').
  { intros r' e' w' Hp Hlt. unfold handleCanvasClick. rewrite Hp. cbn.
    apply Z.ltb_lt in Hlt. rewrite Hlt. reflexivity. }
  split; [split; [reflexivity | apply fireCooldown_ge_100] |].
  split; [apply Hnoop; assumption |].
  intros Hge.
  assert (Hshot : lastShotTime (handleCanvasClick H r e w) = clock H (hostCalls w)
                  /\ length (interceptors (handleCanvasClick H r e w))
                     = (length (interceptors w)
                        + match canvas w with Some _ => 1 | None => 0 end)%nat).
  { unfold handleCanvasClick. rewrite Hplay. cbn.
    apply Z.ltb_ge in Hge. rewrite Hge.
    destruct (canvas w) as [cv|]; cbn.
    - split; [reflexivity |]. rewrite length_app. reflexivity.
    - split; [reflexivity | lia]. }
  destruct Hshot as [Hshot Hlen].
  cbv zeta. split; [exact Hshot | split; [exact Hlen |]].
  intros r2 e2 w2 Hp2 Hsame Hlt. apply Hnoop; [assumption |].
  rewrite Hsame, Hshot. pose proof (fireCooldown_ge_100 (upgradeStats r2)). lia.
Qed.

(** ** The stall guard *)

(** C3.  When the delta-time of a tick exceeds 0.1 s, [update] returns before
    anything else than [lastTime] (and the count of oracle calls) is written:
    every entity collection, the shield energy, the combo, the level timer, the
    spawn schedule, the score and the level statistics are what they were, and
    nothing is sent to the host. *)
Theorem stalled_tick_is_skipped (r : Render) (time : Q) (w : World) :
  (0.1 < (time - lastTime w) / 1000)%Q ->
  let w' := update M H r time w in
  buildings w' = buildings w /\
  enemies w' = enemies w /\
  interceptors w' = interceptors w /\
  projectiles w' = projectiles w /\
  explosions w' = explosions w /\
  shieldEnergy w' = shieldEnergy w /\
  shieldHitTime w' = shieldHitTime w /\
  multiplier w' = multiplier w /\
  lastKillTime w' = lastKillTime w /\
  levelTime w' = levelTime w /\
  nextSpawnTime w' = nextSpawnTime w /\
  warningPlayed w' = warningPlayed w /\
  lastShotTime w' = lastShotTime w /\
  lastTurretFireTime w' = lastTurretFireTime w /\
  score w' = score w /\
  buildingsLostInLevel w' = buildingsLostInLevel w /\
  enemiesDestroyed w' = enemiesDestroyed w /\
  gameOverStart w' = gameOverStart w /\
  log w' = log w.
Proof.
  intros Hstall. unfold update.
  destruct (negb (GameState_eqb (gameState r) PLAYING)
            && negb (GameState_eqb (gameState r) GAME_OVER)).
  - cbv zeta. repeat split.
  - cbn. apply Qgtb_gt in Hstall. rewrite Hstall. cbv zeta. repeat split.
Qed.

(** ** The explosion loop of one enemy *)


Lemma includes_app (l1 l2 : list Q) (k : Q) :
  includes (l1 ++ l2) k = includes l1 k || includes l2 k.
Proof. unfold includes. apply existsb_app. Qed.

Lemma explosions_handleKill (r : Render) (now : Z) (e : EnemyMissile.t) (w : World) :
  explosions (handleKill r now e w) = explosions w.
Proof. unfold handleKill. destruct (_ <? _); reflexivity. Qed.

Lemma explosionHits_total (r : Render) (now : Z) (fuel : nat) :
  forall (todo : list Explosion.t) (enemy : EnemyMissile.t) (w : World),
    (explosionFuel todo enemy <= fuel)%nat ->
    explosionHits H fuel r now todo enemy w <> None.
Proof.
  unfold explosionFuel.
  induction fuel as [|fuel IH]; intros todo enemy w Hfuel.
  - destruct todo; cbn in *; [discriminate | lia].
  - destruct todo as [|exp rest]; cbn [explosionHits]; [discriminate |].
    cbn [length] in Hfuel.
    destruct (hypot_lt _ _ _); [| apply IH; lia].
    destruct (negb _); [| apply IH; lia].
    cbn [EnemyMissile.health EnemyMissile.set_health
         EnemyMissile.set_hitByExplosionIds].
    destruct (EnemyMissile.health enemy - 1 <=? 0) eqn:Hdead.
    + unfold Date_now. discriminate.
    + unfold freshId, Date_now, Math_random. cbn.
      apply IH. apply Z.leb_gt in Hdead.
      rewrite length_app. cbn. lia.
Qed.

Lemma damaged_nil (enemy : EnemyMissile.t) : damaged [] enemy = enemy.
Proof.
  destruct enemy. unfold damaged. cbn. rewrite app_nil_r, Z.sub_0_r. reflexivity.
Qed.

Lemma damaged_cons (k : Q) (ks : list Q) (enemy : EnemyMissile.t) :
  damaged ks
    (EnemyMissile.set_health (EnemyMissile.health enemy - 1)
       (EnemyMissile.set_hitByExplosionIds
          (EnemyMissile.hitByExplosionIds enemy ++ [k]) enemy))
  = damaged (k :: ks) enemy.
Proof.
  destruct enemy.
  unfold damaged, EnemyMissile.set_health, EnemyMissile.set_hitByExplosionIds.
  simpl. rewrite <- app_assoc. simpl. f_equal. lia.
Qed.

Lemma hitBy_set_health (h : Z) (e : EnemyMissile.t) :
  EnemyMissile.hitByExplosionIds (EnemyMissile.set_health h e)
  = EnemyMissile.hitByExplosionIds e.
Proof. reflexivity. Qed.

Lemma hitBy_set_hitBy (l : list Q) (e : EnemyMissile.t) :
  EnemyMissile.hitByExplosionIds (EnemyMissile.set_hitByExplosionIds l e) = l.
Proof. reflexivity. Qed.

Lemma hitBy_damaged (ks : list Q) (enemy : EnemyMissile.t) :
  EnemyMissile.hitByExplosionIds (damaged ks enemy)
  = EnemyMissile.hitByExplosionIds enemy ++ ks.
Proof. reflexivity. Qed.


Lemma overlaps_damaged (ks : list Q) (enemy : EnemyMissile.t) (exp : Explosion.t) :
  overlaps (damaged ks enemy) exp = overlaps enemy exp.
Proof. reflexivity. Qed.

Lemma includes_Qeq (l : list Q) (k k' : Q) :
  (k == k')%Q -> includes l k = includes l k'.
Proof.
  intros Hq. unfold includes. induction l as [|y l IH]; [reflexivity |].
  cbn. rewrite IH. f_equal.
  apply Bool.eq_true_iff_eq. rewrite !Qeq_bool_iff. rewrite Hq. reflexivity.
Qed.

Lemma hitReport_skip (exp : Explosion.t) (rest : list Explosion.t)
      (enemy : EnemyMissile.t) (w : World) (enemy' : EnemyMissile.t)
      (destroyed : bool) (w' : World) (newIds : list Q) :
  (overlaps enemy exp = true ->
   includes (EnemyMissile.hitByExplosionIds enemy) (Explosion.id exp) = true) ->
  hitReport rest enemy w enemy' destroyed w' newIds ->
  hitReport (exp :: rest) enemy w enemy' destroyed w' newIds.
Proof.
  intros Hseen [E Hnd Hfresh Hsrc Hd Ha Hrec Hpush].
  constructor; try assumption.
  - intros k Hk. destruct (Hsrc k Hk) as (e0 & Hin & Hid & Ho).
    exists e0. split; [| split; assumption].
    destruct Hin as [Hin | Hin]; [left; right; exact Hin | right; exact Hin].
  - intros Hsv e0 [<- | Hin] Ho; [| apply Hrec; assumption].
    rewrite E, hitBy_damaged, includes_app, (Hseen Ho). reflexivity.
Qed.

Lemma explosionHits_spec (r : Render) (now : Z) (fuel : nat) :
  forall (todo : list Explosion.t) (enemy : EnemyMissile.t) (w : World)
         (enemy' : EnemyMissile.t) (destroyed : bool) (w' : World),
    explosionHits H fuel r now todo enemy w = Some (enemy', destroyed, w') ->
    exists newIds : list Q, hitReport todo enemy w enemy' destroyed w' newIds.
Proof.
  assert (Hnil : forall enemy w,
             hitReport [] enemy w enemy false w []).
  { intros enemy w. constructor.
    - symmetry. apply damaged_nil.
    - constructor.
    - intros k Hk. inversion Hk.
    - intros k [].
    - discriminate.
    - intros _. left. reflexivity.
    - intros _ exp [].
    - exists []. symmetry. apply app_nil_r. }
  induction fuel as [|fuel IH]; intros todo enemy w enemy' destroyed w' Hrun.
  { destruct todo; cbn in Hrun; [| discriminate].
    injection Hrun as <- <- <-. exists []. apply Hnil. }
  destruct todo as [|exp rest]; cbn [explosionHits] in Hrun.
  { injection Hrun as <- <- <-. exists []. apply Hnil. }
  fold (overlaps enemy exp) in Hrun.
  destruct (overlaps enemy exp) eqn:Hover.
  2:{ apply IH in Hrun. destruct Hrun as (ks & Hrep). exists ks.
      apply hitReport_skip; [congruence | exact Hrep]. }
  destruct (includes (EnemyMissile.hitByExplosionIds enemy) (Explosion.id exp))
    eqn:Hinc; cbn [negb] in Hrun.
  { apply IH in Hrun. destruct Hrun as (ks & Hrep). exists ks.
    apply hitReport_skip; [intros _; exact Hinc | exact Hrep]. }
  cbn [EnemyMissile.health EnemyMissile.set_health
       EnemyMissile.set_hitByExplosionIds] in Hrun.
  set (enemy1 := EnemyMissile.set_health (EnemyMissile.health enemy - 1)
                   (EnemyMissile.set_hitByExplosionIds
                      (EnemyMissile.hitByExplosionIds enemy ++ [Explosion.id exp])
                      enemy)) in *.
  assert (Hhead : forall k, (k == Explosion.id exp)%Q ->
                   includes (EnemyMissile.hitByExplosionIds enemy) k = false).
  { intros k Hq. rewrite (includes_Qeq _ Hq). exact Hinc. }
  destruct (EnemyMissile.health enemy - 1 <=? 0) eqn:Hdead.
  - unfold Date_now in Hrun. cbv beta iota zeta in Hrun.
    injection Hrun as <- <- <-.
    exists [Explosion.id exp]. constructor.
    + unfold enemy1. rewrite <- (damaged_cons (Explosion.id exp) [] enemy).
      symmetry. apply damaged_nil.
    + constructor; [intros Hk; inversion Hk | constructor].
    + intros k Hk. inversion Hk as [? ? Hq | ? ? Hk']; subst; [| inversion Hk'].
      apply Hhead, Hq.
    + intros k [<- | []]. exists exp. split; [left; left; reflexivity |].
      split; [reflexivity | exact Hover].
    + intros _. apply Z.leb_le in Hdead. split; [exact Hdead | discriminate].
    + discriminate.
    + discriminate.
    + eexists. unfold playSound, emit, pushExplosion.
      cbn [explosions set_log set_explosions set_hostCalls].
      rewrite explosions_handleKill. reflexivity.
  - unfold freshId, Date_now, Math_random in Hrun.
    cbv beta iota zeta in Hrun.
    match type of Hrun with
    | explosionHits _ _ _ _ (rest ++ [?s]) _ ?w0 = _ =>
        set (spark := s) in *; set (w1 := w0) in *
    end.
    apply IH in Hrun.
    destruct Hrun as (ks & [E Hnd Hfresh Hsrc Hd Ha Hrec [pushed Hpush]]).
    assert (Hw1 : explosions w1 = explosions w ++ [spark]) by reflexivity.
    assert (Hmono : forall k,
               includes (EnemyMissile.hitByExplosionIds enemy1) k = false ->
               includes (EnemyMissile.hitByExplosionIds enemy) k = false
               /\ Qeq_bool k (Explosion.id exp) = false).
    { intros k. unfold enemy1.
      rewrite hitBy_set_health, hitBy_set_hitBy, includes_app.
      unfold includes at 2. cbn [existsb].
      rewrite orb_false_r. apply orb_false_iff. }
    exists (Explosion.id exp :: ks). constructor.
    + rewrite E. unfold enemy1. apply damaged_cons.
    + constructor; [| exact Hnd].
      intros Hk. apply Hfresh, Hmono in Hk. destruct Hk as [_ Hne].
      assert (Hrefl : Qeq_bool (Explosion.id exp) (Explosion.id exp) = true)
        by (apply Qeq_bool_iff; reflexivity).
      congruence.
    + intros k Hk. inversion Hk as [? ? Hq | ? ? Hk']; subst.
      * apply Hhead, Hq.
      * apply Hfresh, Hmono in Hk'. apply Hk'.
    + intros k [<- | Hk].
      * exists exp. split; [left; left; reflexivity |].
        split; [reflexivity | exact Hover].
      * destruct (Hsrc k Hk) as (e0 & Hin & Hid & Ho).
        exists e0. split; [| split; [exact Hid | exact Ho]].
        destruct Hin as [Hin | Hin]; [| right; exact Hin].
        apply in_app_or in Hin. destruct Hin as [Hin | [<- | []]].
        -- left; right; exact Hin.
        -- right. rewrite Hpush. apply in_or_app. left.
           change (In spark (explosions w ++ [spark])).
           apply in_or_app. right. left. reflexivity.
    + intros Hd'. destruct (Hd Hd') as [Hle _]. split; [exact Hle | discriminate].
    + intros Hsv. right. destruct (Ha Hsv) as [-> | Hpos]; [| exact Hpos].
      rewrite E, damaged_nil. unfold enemy1.
      change (0 < EnemyMissile.health enemy - 1). apply Z.leb_gt in Hdead. lia.
    + intros Hsv e0 [<- | Hin] Ho.
      * rewrite E, hitBy_damaged. unfold enemy1.
        rewrite hitBy_set_health, hitBy_set_hitBy, !includes_app.
        unfold includes at 2. cbn [existsb].
        assert (Hrefl : Qeq_bool (Explosion.id exp) (Explosion.id exp) = true)
          by (apply Qeq_bool_iff; reflexivity).
        rewrite Hrefl. cbn [orb]. rewrite orb_true_r. reflexivity.
      * apply (Hrec Hsv); [apply in_or_app; left; exact Hin | exact Ho].
    + exists (spark :: pushed). rewrite Hpush.
      change ((explosions w ++ [spark]) ++ pushed = explosions w ++ spark :: pushed).
      rewrite <- app_assoc. reflexivity.
Qed.

(** ** What every phase of a tick preserves *)

Lemma calm_refl (w : World) : calm w w.
Proof.
  constructor; try reflexivity; [tauto |].
  exists []. split; [symmetry; apply app_nil_r | constructor].
Qed.

Lemma calm_trans (w1 w2 w3 : World) : calm w1 w2 -> calm w2 w3 -> calm w1 w3.
Proof.
  intros [B1 S1 C1 (e1 & L1 & Q1)] [B2 S2 C2 (e2 & L2 & Q2)]. constructor.
  - congruence.
  - congruence.
  - tauto.
  - exists (e1 ++ e2). split.
    + rewrite L2, L1, app_assoc. reflexivity.
    + apply Forall_app. split; assumption.
Qed.

Lemma calm_same (w w' : World) :
  buildings w' = buildings w ->
  shieldEnergy w' = shieldEnergy w ->
  multiplier w' = multiplier w ->
  (exists evs, log w' = log w ++ evs /\ Forall isSound evs) ->
  calm w w'.
Proof.
  intros B S Mu L. constructor; try assumption.
  unfold comboInRange. rewrite Mu. tauto.
Qed.

Lemma ruins_refl_all (bs : list Building.t) : Forall2 ruins bs bs.
Proof. induction bs; constructor; [left; reflexivity | assumption]. Qed.

Lemma ruins_trans_all (bs1 bs2 : list Building.t) :
  Forall2 ruins bs1 bs2 -> forall bs3, Forall2 ruins bs2 bs3 -> Forall2 ruins bs1 bs3.
Proof.
  induction 1 as [|b1 b2 l1 l2 Hb _ IH]; intros bs3 H23; inversion H23; subst.
  - constructor.
  - constructor; [| apply IH; assumption].
    match goal with Hr : ruins b2 _ |- _ => destruct Hr as [-> | ->] end.
    + exact Hb.
    + destruct Hb as [-> | ->]; right; reflexivity.
Qed.

Lemma evolves_refl (w : World) : evolves w w.
Proof. constructor; [apply ruins_refl_all | lia | tauto | tauto]. Qed.

Lemma evolves_trans (w1 w2 w3 : World) :
  evolves w1 w2 -> evolves w2 w3 -> evolves w1 w3.
Proof.
  intros [B1 L1 N1 C1] [B2 L2 N2 C2]. constructor.
  - eapply ruins_trans_all; eassumption.
  - lia.
  - tauto.
  - tauto.
Qed.

Lemma calm_evolves (w w' : World) : calm w w' -> evolves w w'.
Proof.
  intros [B S C _]. constructor.
  - rewrite B. apply ruins_refl_all.
  - lia.
  - lia.
  - exact C.
Qed.

Lemma calm_verdict (r : Render) (w w' : World) : calm w w' -> verdict r w w' false.
Proof.
  intros [B _ _ L]. constructor; [exact L | left; exact B].
Qed.

Lemma verdict_after_calm (r : Render) (w1 w2 w3 : World) (over : bool) :
  calm w1 w2 -> verdict r w2 w3 over -> verdict r w1 w3 over.
Proof.
  intros [B _ _ (e1 & L1 & Q1)] [(e2 & L2 & Q2) Hb | (e2 & L2 & Q2) Hd].
  - constructor.
    + exists (e1 ++ e2). split; [rewrite L2, L1, app_assoc; reflexivity |].
      apply Forall_app; split; assumption.
    + rewrite <- B. exact Hb.
  - constructor; [| exact Hd].
    exists (e1 ++ e2). split; [rewrite L2, L1, !app_assoc; reflexivity |].
    apply Forall_app; split; assumption.
Qed.

Lemma verdict_trans (r : Render) (w1 w2 w3 : World) (over : bool) :
  verdict r w1 w2 false -> verdict r w2 w3 over -> verdict r w1 w3 over.
Proof.
  intros H12 H23. inversion H12 as [(e1 & L1 & Q1) Hb1 |]; subst.
  destruct H23 as [(e2 & L2 & Q2) Hb2 | (e2 & L2 & Q2) Hd].
  - constructor.
    + exists (e1 ++ e2). split; [rewrite L2, L1, app_assoc; reflexivity |].
      apply Forall_app; split; assumption.
    + destruct Hb2 as [Hb2 | Hb2]; [| right; exact Hb2].
      destruct Hb1 as [Hb1 | Hb1]; [left; congruence |].
      right. unfold allDestroyed in *. rewrite Hb2. exact Hb1.
  - constructor; [| exact Hd].
    exists (e1 ++ e2). split; [rewrite L2, L1, !app_assoc; reflexivity |].
    apply Forall_app; split; assumption.
Qed.

Ltac solve_log :=
  first
    [ exists []; split; [symmetry; apply app_nil_r | constructor]
    | eexists; split;
      [ rewrite <- ?app_assoc; reflexivity
      | cbn [app]; repeat (constructor; try exact I) ] ].

Ltac calm_leaf :=
  apply calm_same; cbn; [reflexivity | reflexivity | reflexivity | solve_log].

Lemma handleKill_calm (r : Render) (now : Z) (e : EnemyMissile.t) (w : World) :
  calm w (handleKill r now e w).
Proof.
  unfold handleKill. cbn.
  destruct (now - lastKillTime w <? COMBO_TIMEOUT); constructor; cbn;
    try reflexivity; try solve_log; unfold comboInRange; cbn; lia.
Qed.

Lemma comboTimeoutCheck_calm (now : Z) (w : World) : calm w (comboTimeoutCheck now w).
Proof.
  unfold comboTimeoutCheck.
  destruct (1 <? multiplier w); [| apply calm_refl].
  destruct (COMBO_TIMEOUT <? now - lastKillTime w); [| apply calm_refl].
  constructor; cbn; try reflexivity; try solve_log.
  unfold comboInRange; cbn; lia.
Qed.

Lemma audioWarning_calm (w : World) : calm w (audioWarning w).
Proof.
  unfold audioWarning. destruct (_ && _); [calm_leaf | apply calm_refl].
Qed.

Lemma getEnemyConfig_world (level : Z) (d : Difficulty) (w : World) :
  exists n, snd (getEnemyConfig H level d w) = set_hostCalls n w.
Proof.
  unfold getEnemyConfig, Math_random.
  destruct d; cbv beta iota zeta;
    repeat match goal with
      | |- context [if ?c then _ else _] => destruct c
      end; cbn; eexists; reflexivity.
Qed.

Lemma spawnEnemies_calm (r : Render) (cv : Canvas) (w : World) :
  calm w (spawnEnemies M H r cv w).
Proof.
  unfold spawnEnemies.
  destruct (Qgtb _ _); [| apply calm_refl].
  destruct (0 <? _)%nat; [| apply calm_refl].
  unfold Math_random, freshId, Date_now. cbv beta iota zeta.
  destruct (js_index _ _); cbv beta iota zeta;
    match goal with
    | |- context [getEnemyConfig H ?l ?d ?w0] =>
        destruct (getEnemyConfig_world l d w0) as [n Hn];
        destruct (getEnemyConfig H l d w0) as [[ty sm] wc]
    end;
    cbn [snd] in Hn; subst wc; calm_leaf.
Qed.

Lemma autoTurret_calm (r : Render) (cv : Canvas) (now : Z) (w : World) :
  calm w (autoTurret M H r cv now w).
Proof.
  unfold autoTurret.
  destruct (0 <? _); [| apply calm_refl].
  destruct (_ <? _); [| apply calm_refl].
  destruct (findClosest _ _ _) as [[d2 e]|]; [| apply calm_refl].
  calm_leaf.
Qed.

Lemma stepProjectile_calm (r : Render) (cv : Canvas) (now : Z) (dt : Q)
      (p : Projectile.t) (w : World) :
  calm w (snd (stepProjectile H r cv now dt p w)).
Proof.
  unfold stepProjectile. cbv zeta.
  destruct (_ || _); [apply calm_refl |].
  destruct (splitLast _ _) as [[[pre e] post]|]; [| apply calm_refl].
  destruct (_ <=? 0).
  - unfold Date_now. cbv beta iota zeta. cbn [snd].
    eapply calm_trans; [| apply handleKill_calm]. calm_leaf.
  - calm_leaf.
Qed.

Lemma projectilesLoop_calm (r : Render) (cv : Canvas) (now : Z) (dt : Q)
      (todo : list Projectile.t) :
  forall (kept : list Projectile.t) (w : World),
    calm w (projectilesLoop H r cv now dt todo kept w).
Proof.
  induction todo as [|p todo IH]; intros kept w; cbn [projectilesLoop].
  - calm_leaf.
  - pose proof (stepProjectile_calm r cv now dt p w) as Hstep.
    destruct (stepProjectile H r cv now dt p w) as [res w1]. cbn [snd] in Hstep.
    eapply calm_trans; [exact Hstep | apply IH].
Qed.

Lemma stepInterceptor_calm (r : Render) (dt : Q) (m : Interceptor.t) (w : World) :
  calm w (snd (stepInterceptor M H r dt m w)).
Proof.
  unfold stepInterceptor. cbv zeta.
  destruct (hypot_lt _ _ _); [calm_leaf | apply calm_refl].
Qed.

Lemma interceptorsLoop_calm (r : Render) (dt : Q) (todo : list Interceptor.t) :
  forall (kept : list Interceptor.t) (w : World),
    calm w (interceptorsLoop M H r dt todo kept w).
Proof.
  induction todo as [|m todo IH]; intros kept w; cbn [interceptorsLoop].
  - calm_leaf.
  - pose proof (stepInterceptor_calm r dt m w) as Hstep.
    destruct (stepInterceptor M H r dt m w) as [res w1]. cbn [snd] in Hstep.
    eapply calm_trans; [exact Hstep | apply IH].
Qed.

Lemma updateExplosions_calm (dt : Q) (w : World) : calm w (updateExplosions dt w).
Proof. unfold updateExplosions. calm_leaf. Qed.

Lemma explosionHits_calm (r : Render) (now : Z) (fuel : nat) :
  forall (todo : list Explosion.t) (enemy : EnemyMissile.t) (w : World)
         (enemy' : EnemyMissile.t) (destroyed : bool) (w' : World),
    explosionHits H fuel r now todo enemy w = Some (enemy', destroyed, w') ->
    calm w w'.
Proof.
  induction fuel as [|fuel IH]; intros todo enemy w enemy' destroyed w' Hrun.
  { destruct todo; cbn in Hrun; [| discriminate].
    injection Hrun as <- <- <-. apply calm_refl. }
  destruct todo as [|exp rest]; cbn [explosionHits] in Hrun.
  { injection Hrun as <- <- <-. apply calm_refl. }
  destruct (hypot_lt _ _ _); [| apply IH in Hrun; exact Hrun].
  destruct (negb _); [| apply IH in Hrun; exact Hrun].
  destruct (_ <=? 0).
  - unfold Date_now in Hrun. cbv beta iota zeta in Hrun.
    injection Hrun as <- <- <-.
    match goal with
    | |- context [handleKill ?r0 ?n0 ?e0 w] =>
        apply calm_trans with (w2 := handleKill r0 n0 e0 w);
          [apply handleKill_calm | calm_leaf]
    end.
  - unfold freshId, Date_now, Math_random in Hrun. cbv beta iota zeta in Hrun.
    apply IH in Hrun. eapply calm_trans; [| exact Hrun]. calm_leaf.
Qed.

(** *** The shield *)

Lemma shieldAbsorb_calm_but_shield (r : Render) (now : Z) (enemy : EnemyMissile.t)
      (w : World) :
  let w' := shieldAbsorb H r now enemy w in
  buildings w' = buildings w
  /\ shieldEnergy w' = Z.max 0 (shieldEnergy w - 30)
  /\ (comboInRange w -> comboInRange w')
  /\ exists evs, log w' = log w ++ evs /\ Forall isSound evs.
Proof.
  destruct (handleKill_calm r now enemy w) as [B S C (evs & L & Q)].
  unfold shieldAbsorb, Date_now. cbv beta iota zeta.
  set (wk := handleKill r now enemy w) in *. clearbody wk.
  assert (E : (if shieldEnergy (set_shieldEnergy (shieldEnergy wk - 30) wk) <? 0
               then set_shieldEnergy 0 (set_shieldEnergy (shieldEnergy wk - 30) wk)
               else set_shieldEnergy (shieldEnergy wk - 30) wk)
              = set_shieldEnergy (Z.max 0 (shieldEnergy wk - 30)) wk).
  { cbn [shieldEnergy set_shieldEnergy].
    destruct (shieldEnergy wk - 30 <? 0) eqn:Hneg.
    - apply Z.ltb_lt in Hneg. rewrite Z.max_l by lia. reflexivity.
    - apply Z.ltb_ge in Hneg. rewrite Z.max_r by lia. reflexivity. }
  rewrite E. cbn. split; [| split; [| split]].
  - exact B.
  - rewrite S. reflexivity.
  - exact C.
  - rewrite L. eexists. split; [rewrite <- app_assoc; reflexivity |].
    apply Forall_app. split; [exact Q | repeat constructor].
Qed.

(** *** Ground and buildings *)

Lemma impactBuildings_sound (cv : Canvas) (enemy : EnemyMissile.t)
      (bs : list Building.t) :
  forall (w : World),
    let '(bs', _, w') := impactBuildings H cv enemy bs w in
    Forall2 ruins bs bs' /\ calm w w'.
Proof.
  induction bs as [|b bs IH]; intros w; cbn [impactBuildings].
  - split; [constructor | apply calm_refl].
  - destruct (_ && _).
    + unfold Date_now. cbv beta iota zeta.
      match goal with
      | |- context [impactBuildings H cv enemy bs ?w0] =>
          specialize (IH w0);
          destruct (impactBuildings H cv enemy bs w0) as [[bs' hit] w'];
          assert (Hc : calm w w0)
      end.
      { constructor; cbn; try reflexivity; [| solve_log].
        unfold comboInRange; cbn; lia. }
      destruct IH as [IHb IHc]. split.
      * constructor; [right; reflexivity | exact IHb].
      * eapply calm_trans; eassumption.
    + specialize (IH w).
      destruct (impactBuildings H cv enemy bs w) as [[bs' hit] w'].
      destruct IH as [IHb IHc]. split; [| exact IHc].
      constructor; [left; reflexivity | exact IHb].
Qed.

Lemma groundImpact_sound (r : Render) (cv : Canvas) (enemy : EnemyMissile.t)
      (w : World) :
  let (w', over) := groundImpact H r cv enemy w in
  evolves w w' /\ verdict r w w' over.
Proof.
  unfold groundImpact.
  pose proof (impactBuildings_sound cv enemy (buildings w) w) as Himp.
  destruct (impactBuildings H cv enemy (buildings w) w) as [[bs hit] w1].
  destruct Himp as [Hb [B S C (evs & L & Q)]].
  cbv beta iota zeta.
  set (w3 := if hit then set_buildings bs w1 else _).
  assert (H3 : buildings w3 = bs /\ shieldEnergy w3 = shieldEnergy w
               /\ multiplier w3 = multiplier w1
               /\ exists evs', log w3 = log w ++ evs' /\ Forall isSound evs').
  { unfold w3, Date_now. destruct hit; cbn; rewrite L.
    - repeat split; try assumption. exists evs. split; [reflexivity | exact Q].
    - repeat split; try assumption. eexists.
      split; [rewrite <- app_assoc; reflexivity |].
      apply Forall_app. split; [exact Q | repeat constructor]. }
  clearbody w3. destruct H3 as (B3 & S3 & M3 & evs' & L3 & Q3).
  assert (Hev : evolves w w3).
  { constructor.
    - rewrite B3. exact Hb.
    - lia.
    - lia.
    - unfold comboInRange in *. rewrite M3. exact C. }
  destruct (forallb Building.isDestroyed (buildings w3)) eqn:Hall.
  - split.
    + destruct Hev as [E1 E2 E3 E4]. constructor; assumption.
    + constructor.
      * exists evs'. split; [| exact Q3]. cbn. rewrite L3, app_assoc. reflexivity.
      * exact Hall.
  - split; [exact Hev |].
    constructor; [exists evs'; split; assumption | right; exact Hall].
Qed.

(** *** The enemy loop *)

Lemma shieldBlocks_energy (r : Render) (cv : Canvas) (enemy : EnemyMissile.t)
      (w : World) :
  shieldBlocks r cv enemy w = true ->
  0 < shieldLevel (upgradeStats r) /\ 0 < shieldEnergy w.
Proof.
  unfold shieldBlocks. rewrite !andb_true_iff, !Z.ltb_lt. tauto.
Qed.

Lemma stepEnemy_sound (r : Render) (cv : Canvas) (now : Z) (dt : Q)
      (enemy : EnemyMissile.t) (w : World) :
  let (o, w') := stepEnemy M H r cv now dt enemy w in
  evolves w w' /\ verdict r w w' (isReturned o).
Proof.
  unfold stepEnemy.
  destruct (moveEnemy M dt enemy) as [enemy1 t].
  destruct (shieldBlocks r cv enemy1 w) eqn:Hshield.
  { apply shieldBlocks_energy in Hshield. destruct Hshield as [_ Hpos].
    destruct (shieldAbsorb_calm_but_shield r now enemy1 w) as (B & S & C & L).
    split.
    - constructor.
      + rewrite B. apply ruins_refl_all.
      + rewrite S. lia.
      + rewrite S. lia.
      + exact C.
    - constructor; [exact L | left; exact B]. }
  destruct (checkExplosions H r now enemy1 w) as [[[enemy2 destroyed] w2]|] eqn:Hchk.
  2:{ split; [apply evolves_refl | apply calm_verdict, calm_refl]. }
  apply explosionHits_calm in Hchk.
  destruct destroyed.
  { split; [apply calm_evolves | apply calm_verdict]; exact Hchk. }
  destruct (_ || _).
  - pose proof (groundImpact_sound r cv enemy2 w2) as Hg.
    destruct (groundImpact H r cv enemy2 w2) as [w3 over].
    destruct Hg as [Hev Hvd]. split.
    + eapply evolves_trans; [apply calm_evolves; exact Hchk | exact Hev].
    + replace (isReturned (if over then Returned else Removed)) with over
        by (destruct over; reflexivity).
      eapply verdict_after_calm; eassumption.
  - split; [apply calm_evolves | apply calm_verdict]; exact Hchk.
Qed.

Lemma enemiesLoop_sound (r : Render) (cv : Canvas) (now : Z) (dt : Q)
      (todo : list EnemyMissile.t) :
  forall (kept : list EnemyMissile.t) (w : World),
    let (w', over) := enemiesLoop M H r cv now dt todo kept w in
    evolves w w' /\ verdict r w w' over.
Proof.
  assert (Hleaf : forall es w, calm w (set_enemies es w)) by (intros; calm_leaf).
  induction todo as [|enemy todo IH]; intros kept w; cbn [enemiesLoop].
  - split; [apply calm_evolves | apply calm_verdict]; apply Hleaf.
  - pose proof (stepEnemy_sound r cv now dt enemy w) as Hstep.
    destruct (stepEnemy M H r cv now dt enemy w) as [[enemy'| |] w1];
      destruct Hstep as [Hev Hvd]; cbn [isReturned] in Hvd.
    + specialize (IH (enemy' :: kept) w1).
      destruct (enemiesLoop M H r cv now dt todo (enemy' :: kept) w1) as [w' over].
      destruct IH as [IHe IHv]. split.
      * eapply evolves_trans; eassumption.
      * eapply verdict_trans; eassumption.
    + specialize (IH kept w1).
      destruct (enemiesLoop M H r cv now dt todo kept w1) as [w' over].
      destruct IH as [IHe IHv]. split.
      * eapply evolves_trans; eassumption.
      * eapply verdict_trans; eassumption.
    + split.
      * eapply evolves_trans; [exact Hev | apply calm_evolves, Hleaf].
      * inversion Hvd as [| L Hd]; subst. constructor; [exact L | exact Hd].
Qed.

(** *** One tick *)

Lemma gameplay_sound (r : Render) (cv : Canvas) (now : Z) (dt : Q) (w : World) :
  let w' := gameplay M H r cv now dt w in
  evolves w w' /\ tickEnd r w w'.
Proof.
  unfold gameplay. cbv zeta.
  pose proof (comboTimeoutCheck_calm now w) as H0.
  set (w0 := comboTimeoutCheck now w) in *. clearbody w0.
  set (w1 := set_levelTime (levelTime w0 + dt)%Q w0).
  assert (H1 : calm w w1) by (eapply calm_trans; [exact H0 | calm_leaf]).
  clearbody w1. clear H0 w0.
  destruct (Qleb _ 0).
  { destruct H1 as [B S C (evs & L & Q)]. split.
    - constructor; cbn.
      + rewrite B. apply ruins_refl_all.
      + lia.
      + lia.
      + exact C.
    - apply tick_levelComplete
        with (evs := evs) (lost := buildingsLostInLevel w1)
             (destroyed := enemiesDestroyed w1); cbn.
      + rewrite L, app_assoc. reflexivity.
      + exact Q.
      + exact B. }
  pose proof (audioWarning_calm w1) as H2.
  set (w2 := audioWarning w1) in *. clearbody w2.
  pose proof (spawnEnemies_calm r cv w2) as H3.
  set (w3 := spawnEnemies M H r cv w2) in *. clearbody w3.
  pose proof (autoTurret_calm r cv now w3) as H4.
  set (w4 := autoTurret M H r cv now w3) in *. clearbody w4.
  pose proof (projectilesLoop_calm r cv now dt (rev (projectiles w4)) [] w4) as H5.
  fold (moveProjectiles H r cv now dt w4) in H5.
  set (w5 := moveProjectiles H r cv now dt w4) in *. clearbody w5.
  pose proof (interceptorsLoop_calm r dt (rev (interceptors w5)) [] w5) as H6.
  fold (moveInterceptors M H r dt w5) in H6.
  set (w6 := moveInterceptors M H r dt w5) in *. clearbody w6.
  pose proof (updateExplosions_calm dt w6) as H7.
  set (w7 := updateExplosions dt w6) in *. clearbody w7.
  assert (Hpre : calm w w7).
  { repeat (eapply calm_trans; [eassumption |]). apply calm_refl. }
  clear H1 H2 H3 H4 H5 H6 H7.
  unfold moveEnemies.
  pose proof (enemiesLoop_sound r cv now dt (rev (enemies w7)) [] w7) as Hloop.
  destruct (enemiesLoop M H r cv now dt (rev (enemies w7)) [] w7) as [w8 over].
  destruct Hloop as [Hev Hvd].
  pose proof (verdict_after_calm Hpre Hvd) as Hv.
  assert (Hev8 : evolves w w8)
    by (eapply evolves_trans; [apply calm_evolves; exact Hpre | exact Hev]).
  destruct over.
  - split; [exact Hev8 |].
    inversion Hv as [| (evs & L & Q) Hd]; subst.
    apply tick_gameOver with (evs := evs); assumption.
  - split.
    + destruct Hev8 as [E1 E2 E3 E4]. constructor; assumption.
    + inversion Hv as [(evs & L & Q) Hb |]; subst.
      apply tick_continues with (evs := evs); cbn; [| exact Q | exact Hb].
      rewrite L, app_assoc. reflexivity.
Qed.

Lemma tickEnd_shift (r : Render) (w w1 w' : World) :
  log w1 = log w -> buildings w1 = buildings w ->
  tickEnd r w1 w' -> tickEnd r w w'.
Proof.
  intros L B [L' B' | evs L' Q Hb | evs a b L' Q B' | evs L' Q Hd];
    rewrite ?L, ?B in *.
  - apply tick_idle; assumption.
  - apply tick_continues with (evs := evs); assumption.
  - apply tick_levelComplete with (evs := evs) (lost := a) (destroyed := b);
      assumption.
  - apply tick_gameOver with (evs := evs); assumption.
Qed.

Lemma update_sound (r : Render) (time : Q) (w : World) :
  let w' := update M H r time w in
  evolves w w' /\ tickEnd r w w'.
Proof.
  unfold update. cbv zeta.
  destruct (_ && _).
  { split; [apply evolves_refl | apply tick_idle; reflexivity]. }
  unfold Date_now. cbv beta iota zeta.
  set (w1 := set_hostCalls _ (set_lastTime time w)).
  assert (H1 : calm w w1) by calm_leaf.
  assert (L1 : log w1 = log w) by reflexivity.
  assert (B1 : buildings w1 = buildings w) by reflexivity.
  assert (Hidle : evolves w w1 /\ tickEnd r w w1).
  { split; [apply calm_evolves; exact H1 | apply tick_idle; assumption]. }
  clearbody w1.
  destruct (Qgtb _ _); [exact Hidle |].
  destruct (canvas w1) as [cv|]; [| exact Hidle].
  destruct (negb (cv_context2d cv)); [exact Hidle |].
  destruct (GameState_eqb (gameState r) GAME_OVER).
  - unfold gameOverAnimation. destruct H1 as [B S C _].
    destruct (Qeq_bool (gameOverStart w1) 0); split.
    + constructor; cbn; [rewrite B; apply ruins_refl_all | lia | lia | exact C].
    + apply tick_continues with (evs := [PlaySound nuke 1]); cbn.
      * rewrite L1, <- !app_assoc. reflexivity.
      * repeat constructor.
      * left. exact B.
    + constructor; cbn; [rewrite B; apply ruins_refl_all | lia | lia | exact C].
    + apply tick_continues with (evs := []); cbn.
      * rewrite L1. reflexivity.
      * constructor.
      * left. exact B.
  - destruct (gameplay_sound r cv (clock H (hostCalls w)) ((time - lastTime w) / 1000) w1)
      as [Hev Hend].
    split.
    + eapply evolves_trans; [apply calm_evolves; exact H1 | exact Hev].
    + eapply tickEnd_shift; eassumption.
Qed.

(** ** The shield energy *)

Lemma deliver_evolves (a : Action) (w : World) : evolves w (deliver M H a w).
Proof.
  destruct a as [r time | r e]; cbn [deliver].
  - apply update_sound.
  - apply calm_evolves. unfold handleCanvasClick.
    destruct (negb _); [apply calm_refl |].
    unfold Date_now, freshId, Math_random. cbv beta iota zeta.
    destruct (_ <? _); [calm_leaf |].
    cbn [canvas set_lastShotTime playSound emit set_log set_hostCalls].
    destruct (canvas w); calm_leaf.
Qed.

Lemma play_evolves (acts : list Action) :
  forall w : World, evolves w (play M H acts w).
Proof.
  unfold play. induction acts as [|a acts IH]; intros w; cbn [fold_left].
  - apply evolves_refl.
  - eapply evolves_trans; [apply deliver_evolves | apply IH].
Qed.

(** C6.  With a well-formed shield level, the shield energy is at its maximum
    when a level starts and stays between 0 and that maximum whatever frames
    and clicks follow; no frame and no click ever raises it; an absorption
    takes 30 and stops at zero, so that four absorptions in a row take a full
    charge of 100 to 70, 40, 10 and 0. *)
Theorem shield_energy_in_range (r : Render) (w : World) (acts : list Action) :
  0 <= shieldLevel (upgradeStats r) ->
  canvas w <> None ->
  let w0 := initLevel r w in
  shieldEnergy w0 = shieldMaxEnergy (upgradeStats r)
  /\ 0 <= shieldEnergy (play M H acts w0) <= shieldMaxEnergy (upgradeStats r)
  /\ (forall (a : Action) (w1 : World),
        shieldEnergy (deliver M H a w1) <= shieldEnergy w1
        /\ (0 <= shieldEnergy w1 -> 0 <= shieldEnergy (deliver M H a w1)))
  /\ (forall (now : Z) (enemy : EnemyMissile.t) (w1 : World),
        shieldEnergy (shieldAbsorb H r now enemy w1)
        = Z.max 0 (shieldEnergy w1 - 30))
  /\ (forall (w1 : World) (n1 n2 n3 n4 : Z) (e1 e2 e3 e4 : EnemyMissile.t),
        shieldEnergy w1 = 100 ->
        let w2 := shieldAbsorb H r n1 e1 w1 in
        let w3 := shieldAbsorb H r n2 e2 w2 in
        let w4 := shieldAbsorb H r n3 e3 w3 in
        let w5 := shieldAbsorb H r n4 e4 w4 in
        shieldEnergy w2 = 70 /\ shieldEnergy w3 = 40
        /\ shieldEnergy w4 = 10 /\ shieldEnergy w5 = 0).
Proof.
  intros Hlevel Hcanvas w0.
  assert (Hinit : shieldEnergy w0 = shieldMaxEnergy (upgradeStats r)).
  { unfold w0, initLevel, shieldMaxEnergy.
    destruct (canvas w) as [cv|]; [| congruence].
    destruct (_ || _); reflexivity. }
  assert (Habsorb : forall now enemy w1,
             shieldEnergy (shieldAbsorb H r now enemy w1)
             = Z.max 0 (shieldEnergy w1 - 30)).
  { intros now enemy w1.
    apply (shieldAbsorb_calm_but_shield r now enemy w1). }
  split; [exact Hinit |].
  split.
  { destruct (play_evolves acts w0) as [_ Hle Hnn _].
    unfold shieldMaxEnergy in *. lia. }
  split.
  { intros a w1. destruct (deliver_evolves a w1) as [_ Hle Hnn _].
    split; assumption. }
  split; [exact Habsorb |].
  intros w1 n1 n2 n3 n4 e1 e2 e3 e4 Hfull w2 w3 w4 w5.
  unfold w5, w4, w3, w2. rewrite !Habsorb, Hfull. repeat split.
Qed.

(** ** Buildings and the end of the game *)

Lemma ruins_keeps (b b' : Building.t) :
  ruins b b' ->
  Building.id b' = Building.id b /\ Building.x b' = Building.x b
  /\ Building.width b' = Building.width b
  /\ (Building.isDestroyed b = true -> Building.isDestroyed b' = true).
Proof.
  intros [-> | ->]; repeat split; intros; try assumption; reflexivity.
Qed.

Lemma isSound_not_gameOver (evs : list Event) :
  Forall isSound evs ->
  (forall s, ~ In (GameOver s) evs) /\ ~ In RequestFrame evs.
Proof.
  intros Hs. rewrite Forall_forall in Hs.
  split; [intros s Hin | intros Hin]; apply Hs in Hin; exact Hin.
Qed.

(** C7.  Across a frame, and across any sequence of frames and clicks, every
    building keeps its place and identity and, once destroyed, stays
    destroyed; the re-initialisation between the levels of a run (level other
    than 1, buildings present) leaves the buildings as they are.  A frame that
    starts with a building standing calls [onGameOver] if and only if it ends
    with all buildings destroyed; when it does, the call is the last thing the
    frame does and no further animation frame is requested by it.  Under
    GAME_OVER, [update] leaves every gameplay entity alone. *)
Theorem buildings_fall_for_good (r : Render) (time : Q) (w : World) :
  let w' := update M H r time w in
  let stays (b b' : Building.t) :=
    Building.id b' = Building.id b /\ Building.x b' = Building.x b
    /\ Building.width b' = Building.width b
    /\ (Building.isDestroyed b = true -> Building.isDestroyed b' = true) in
  Forall2 stays (buildings w) (buildings w')
  /\ (forall acts : list Action,
        Forall2 stays (buildings w) (buildings (play M H acts w)))
  /\ (level r <> 1 -> buildings w <> [] ->
      buildings (initLevel r w) = buildings w)
  /\ (exists evs : list Event,
        log w' = log w ++ evs
        /\ (allDestroyed w = false ->
            ((exists s, In (GameOver s) evs) <-> allDestroyed w' = true))
        /\ ((exists s, In (GameOver s) evs) ->
            allDestroyed w' = true
            /\ ~ In RequestFrame evs
            /\ exists sounds, evs = sounds ++ [GameOver (displayScore r)]
                              /\ Forall isSound sounds))
  /\ (gameState r = GAME_OVER ->
      buildings w' = buildings w /\ enemies w' = enemies w
      /\ interceptors w' = interceptors w /\ projectiles w' = projectiles w
      /\ explosions w' = explosions w /\ shieldEnergy w' = shieldEnergy w
      /\ multiplier w' = multiplier w /\ levelTime w' = levelTime w
      /\ score w' = score w).
Proof.
  intros w' stays.
  assert (Hstays : forall bs bs', Forall2 ruins bs bs' -> Forall2 stays bs bs').
  { intros bs bs' Hr. induction Hr; constructor; [| assumption].
    apply ruins_keeps. assumption. }
  destruct (update_sound r time w) as [Hev Hend]. fold w' in Hev, Hend.
  split; [apply Hstays, Hev |].
  split; [intros acts; apply Hstays, (play_evolves acts w) |].
  split.
  { intros Hlevel Hbs. unfold initLevel.
    destruct (canvas w); [| reflexivity]. cbn [buildings set_shieldHitTime
      set_shieldEnergy set_lastKillTime set_multiplier set_gameOverStart
      set_warningPlayed set_lastTurretFireTime set_lastShotTime
      set_enemiesDestroyed set_buildingsLostInLevel set_nextSpawnTime
      set_levelTime set_projectiles set_explosions set_interceptors set_enemies].
    apply Z.eqb_neq in Hlevel. rewrite Hlevel.
    destruct (buildings w) as [|b bs] eqn:Eb; [congruence | cbn; exact Eb]. }
  split.
  { destruct Hend as [L B | evs L Q Hb | evs a b L Q B | evs L Q Hd].
    - exists []. split; [rewrite app_nil_r; exact L |].
      split.
      + intros Hstand. split; [intros [s []] |].
        unfold allDestroyed. rewrite B. fold (allDestroyed w). congruence.
      + intros [s []].
    - exists (evs ++ [RequestFrame]). split; [exact L |].
      destruct (isSound_not_gameOver Q) as [Hno _].
      assert (Hnone : ~ exists s, In (GameOver s) (evs ++ [RequestFrame])).
      { intros [s Hin]. apply in_app_or in Hin.
        destruct Hin as [Hin | [Hin | []]]; [exact (Hno s Hin) | discriminate]. }
      split; [| intros Hex; contradiction].
      intros Hstand. split; [intros Hex; contradiction |].
      intros Hall. exfalso. destruct Hb as [Hb | Hb]; [| congruence].
      unfold allDestroyed in Hall. rewrite Hb in Hall.
      fold (allDestroyed w) in Hall. congruence.
    - exists (evs ++ [LevelComplete a b]). split; [exact L |].
      destruct (isSound_not_gameOver Q) as [Hno _].
      assert (Hnone : ~ exists s, In (GameOver s) (evs ++ [LevelComplete a b])).
      { intros [s Hin]. apply in_app_or in Hin.
        destruct Hin as [Hin | [Hin | []]]; [exact (Hno s Hin) | discriminate]. }
      split; [| intros Hex; contradiction].
      intros Hstand. split; [intros Hex; contradiction |].
      unfold allDestroyed. rewrite B. fold (allDestroyed w). congruence.
    - exists (evs ++ [GameOver (displayScore r)]). split; [exact L |].
      assert (Hex : exists s, In (GameOver s) (evs ++ [GameOver (displayScore r)])).
      { exists (displayScore r). apply in_or_app. right. left. reflexivity. }
      split; [intros _; split; [intros _; exact Hd | intros _; exact Hex] |].
      intros _. split; [exact Hd |]. split.
      + destruct (isSound_not_gameOver Q) as [_ Hnf].
        intros Hin. apply in_app_or in Hin.
        destruct Hin as [Hin | [Hin | []]]; [exact (Hnf Hin) | discriminate].
      + exists evs. split; [reflexivity | exact Q]. }
  intros Hover. unfold w', update. rewrite Hover. cbn [GameState_eqb negb andb].
  unfold Date_now. cbv beta iota zeta.
  destruct (Qgtb _ _); [cbn; repeat split |].
  cbn [canvas set_hostCalls set_lastTime].
  destruct (canvas w) as [cv|]; [| cbn; repeat split].
  destruct (negb (cv_context2d cv)); [cbn; repeat split |].
  unfold gameOverAnimation.
  destruct (Qeq_bool _ 0); cbn; repeat split.
Qed.

(** ** The combo multiplier *)







(** ** Explosions against one enemy *)

Lemma explosionHits_kills (r : Render) (now : Z) (fuel : nat) :
  forall (todo : list Explosion.t) (enemy : EnemyMissile.t) (w : World)
         (enemy' : EnemyMissile.t) (destroyed : bool) (w' : World),
    explosionHits H fuel r now todo enemy w = Some (enemy', destroyed, w') ->
    enemiesDestroyed w' = enemiesDestroyed w + (if destroyed then 1 else 0).
Proof.
  induction fuel as [|fuel IH]; intros todo enemy w enemy' destroyed w' Hrun.
  { destruct todo; cbn in Hrun; [| discriminate].
    injection Hrun as <- <- <-. lia. }
  destruct todo as [|exp rest]; cbn [explosionHits] in Hrun.
  { injection Hrun as <- <- <-. lia. }
  destruct (hypot_lt _ _ _); [| apply IH in Hrun; exact Hrun].
  destruct (negb _); [| apply IH in Hrun; exact Hrun].
  destruct (_ <=? 0).
  - unfold Date_now in Hrun. cbv beta iota zeta in Hrun.
    injection Hrun as <- <- <-.
    unfold handleKill. destruct (_ <? _); reflexivity.
  - unfold freshId, Date_now, Math_random in Hrun. cbv beta iota zeta in Hrun.
    apply IH in Hrun. exact Hrun.
Qed.

Lemma checkExplosions_total (r : Render) (now : Z) (enemy : EnemyMissile.t)
      (w : World) :
  checkExplosions H r now enemy w <> None.
Proof. unfold checkExplosions. apply explosionHits_total. lia. Qed.

Lemma checkExplosions_report (r : Render) (now : Z) (enemy : EnemyMissile.t)
      (w : World) :
  exists (enemy' : EnemyMissile.t) (destroyed : bool) (w' : World)
         (newIds : list Q),
    checkExplosions H r now enemy w = Some (enemy', destroyed, w')
    /\ hitReport (explosions w) enemy w enemy' destroyed w' newIds.
Proof.
  destruct (checkExplosions H r now enemy w) as [[[enemy' destroyed] w']|] eqn:Hchk;
    [| exfalso; exact (checkExplosions_total r now enemy w Hchk)].
  unfold checkExplosions in Hchk. apply explosionHits_spec in Hchk.
  destruct Hchk as (newIds & Hrep).
  exists enemy', destroyed, w', newIds. split; [reflexivity | exact Hrep].
Qed.

(** *** The hit-sets through a run *)






Lemma splitLast_parts (A : Type) (P : A -> bool) (l : list A) :
  forall (pre : list A) (hit : A) (post : list A),
    splitLast P l = Some (pre, hit, post) -> l = pre ++ hit :: post.
Proof.
  induction l as [|a l IH]; intros pre hit post Hsplit; cbn in Hsplit;
    [discriminate |].
  destruct (splitLast P l) as [[[pre' hit'] post']|].
  - injection Hsplit as <- <- <-. cbn. f_equal. apply IH. reflexivity.
  - destruct (P a); [| discriminate].
    injection Hsplit as <- <- <-. reflexivity.
Qed.



Lemma interceptorsLoop_enemies (r : Render) (dt : Q) (todo : list Interceptor.t) :
  forall (kept : list Interceptor.t) (w : World),
    enemies (interceptorsLoop M H r dt todo kept w) = enemies w.
Proof.
  induction todo as [|m todo IH]; intros kept w; cbn [interceptorsLoop];
    [reflexivity |].
  unfold stepInterceptor, freshId, Date_now, Math_random. cbv zeta.
  destruct (hypot_lt _ _ _); cbv beta iota zeta; rewrite IH; reflexivity.
Qed.




(** The movement and a hit of the turret leave the hit-set alone: only the
    explosion check writes it. *)
Lemma moveEnemy_keeps_hits (dt : Q) (enemy : EnemyMissile.t) :
  EnemyMissile.hitByExplosionIds (fst (moveEnemy M dt enemy))
  = EnemyMissile.hitByExplosionIds enemy
  /\ EnemyMissile.health (fst (moveEnemy M dt enemy)) = EnemyMissile.health enemy.
Proof.
  unfold moveEnemy. cbv zeta. destruct (EnemyMissile.type enemy); split; reflexivity.
Qed.

(** ** The ageing of explosions *)

Lemma ageExplosions_In (dt : Q) (exps : list Explosion.t) (exp' : Explosion.t) :
  In exp' (ageExplosions dt exps)
  <-> exists exp, In exp exps /\ ageExplosion dt exp = Some exp'.
Proof.
  induction exps as [|exp exps IH]; cbn [ageExplosions].
  - split; [intros [] | intros (e & [] & _)].
  - destruct (ageExplosion dt exp) as [aged|] eqn:Hage.
    + cbn [In]. rewrite IH. split.
      * intros [<- | (e & Hin & He)].
        -- exists exp. split; [left; reflexivity | exact Hage].
        -- exists e. split; [right; exact Hin | exact He].
      * intros (e & [<- | Hin] & He).
        -- left. congruence.
        -- right. exists e. split; assumption.
    + rewrite IH. split.
      * intros (e & Hin & He). exists e. split; [right; exact Hin | exact He].
      * intros (e & [<- | Hin] & He); [congruence |].
        exists e. split; assumption.
Qed.

(** C2 (amended).  Every run of the explosion update adds 100 * deltaTime to
    [currentRadius], in the fade phase as in the growth phase: the radius is
    not held at [maxRadius].  While the grown radius does not exceed
    [maxRadius], alpha is untouched; once it does, alpha loses 2 * deltaTime
    per run and the explosion is spliced out in the run that takes alpha to
    zero or below.  The explosions left in the array are the aged survivors.
    The area-collision test reads the centre and the current radius only, so
    an explosion of the array takes part in it in both phases: an enemy it
    reaches is destroyed by the check or has its identity in its hit-set. *)
Theorem explosion_keeps_growing (deltaTime : Q) (exp : Explosion.t) :
  let grown := (Explosion.currentRadius exp + 100 * deltaTime)%Q in
  let faded := (Explosion.alpha exp - 2 * deltaTime)%Q in
  let aged (alpha : Q) :=
    Explosion.mk (Explosion.id exp) (Explosion.x exp) (Explosion.y exp) grown
                 (Explosion.maxRadius exp) alpha in
  ((grown <= Explosion.maxRadius exp)%Q ->
   ageExplosion deltaTime exp = Some (aged (Explosion.alpha exp)))
  /\ ((Explosion.maxRadius exp < grown)%Q -> (0 < faded)%Q ->
      ageExplosion deltaTime exp = Some (aged faded))
  /\ ((Explosion.maxRadius exp < grown)%Q -> (faded <= 0)%Q ->
      ageExplosion deltaTime exp = None)
  /\ (forall (w : World) (exp' : Explosion.t),
        In exp' (explosions (updateExplosions deltaTime w))
        <-> exists exp0, In exp0 (explosions w)
                         /\ ageExplosion deltaTime exp0 = Some exp')
  /\ (forall (enemy : EnemyMissile.t) (maxRadius alpha : Q),
        overlaps enemy
          (Explosion.mk (Explosion.id exp) (Explosion.x exp) (Explosion.y exp)
                        (Explosion.currentRadius exp) maxRadius alpha)
        = overlaps enemy exp)
  /\ (forall (r : Render) (now : Z) (enemy : EnemyMissile.t) (w : World),
        In exp (explosions w) -> overlaps enemy exp = true ->
        exists (enemy' : EnemyMissile.t) (destroyed : bool) (w' : World),
          checkExplosions H r now enemy w = Some (enemy', destroyed, w')
          /\ (destroyed = true
              \/ includes (EnemyMissile.hitByExplosionIds enemy')
                          (Explosion.id exp) = true)).
Proof.
  intros grown faded aged.
  split.
  { intros Hle. unfold ageExplosion. fold grown.
    apply Qltb_ge in Hle. unfold Qgtb. rewrite Hle. reflexivity. }
  split.
  { intros Hgt Hpos. unfold ageExplosion. fold grown faded.
    apply Qgtb_gt in Hgt. rewrite Hgt.
    apply Qleb_gt in Hpos. rewrite Hpos. reflexivity. }
  split.
  { intros Hgt Hneg. unfold ageExplosion. fold grown faded.
    apply Qgtb_gt in Hgt. rewrite Hgt.
    apply Qleb_le in Hneg. rewrite Hneg. reflexivity. }
  split.
  { intros w exp'. unfold updateExplosions. cbn [explosions set_explosions].
    apply ageExplosions_In. }
  split; [reflexivity |].
  intros r now enemy w Hin Hover.
  destruct (checkExplosions_report r now enemy w)
    as (enemy' & destroyed & w' & newIds & Hchk & Hrep).
  exists enemy', destroyed, w'. split; [exact Hchk |].
  destruct destroyed; [left; reflexivity | right].
  apply (hr_recorded Hrep); [reflexivity | exact Hin | exact Hover].
Qed.

(** ** The shield *)

Lemma energyPct_range (energy maxEnergy : Z) :
  0 < energy <= maxEnergy ->
  (0 < inject_Z energy / inject_Z maxEnergy <= 1)%Q.
Proof.
  intros [Hpos Hle].
  assert (Hm : (0 < inject_Z maxEnergy)%Q).
  { change 0%Q with (inject_Z 0). rewrite <- Zlt_Qlt. lia. }
  assert (He : (0 < inject_Z energy)%Q).
  { change 0%Q with (inject_Z 0). rewrite <- Zlt_Qlt. lia. }
  split.
  - apply Qlt_shift_div_l; [exact Hm |]. rewrite Qmult_0_l. exact He.
  - apply Qle_shift_div_r; [exact Hm |]. rewrite Qmult_1_l.
    rewrite <- Zle_Qle. exact Hle.
Qed.

(** C5 (amended).  With a shield installed and charged, an enemy is absorbed
    exactly when its distance to the shield's fixed position (the bottom
    centre of the canvas, 20 above the floor) is less than a radius that
    follows the charge: 162 + 18 * energy / maxEnergy, more than 162 and at
    most 180.  The test does not read the enemy's health; an enemy that
    passes it is removed at once by the shield branch, before the explosion
    and ground checks of that iteration, and counts as one kill. *)
Theorem shield_radius_follows_energy (r : Render) (cv : Canvas)
        (enemy : EnemyMissile.t) (w : World) :
  0 < shieldLevel (upgradeStats r) ->
  0 < shieldEnergy w <= shieldMaxEnergy (upgradeStats r) ->
  let radius := visualShieldRadius (upgradeStats r) (shieldEnergy w) in
  shieldBlocks r cv enemy w = distToShield_lt cv enemy radius
  /\ (radius == 162 + 18 * (inject_Z (shieldEnergy w)
                            / inject_Z (shieldMaxEnergy (upgradeStats r))))%Q
  /\ (162 < radius <= 180)%Q
  /\ (forall h : Z,
        shieldBlocks r cv (EnemyMissile.set_health h enemy) w
        = shieldBlocks r cv enemy w)
  /\ (forall (now : Z) (dt : Q) (arriving : EnemyMissile.t),
        fst (moveEnemy M dt arriving) = enemy ->
        shieldBlocks r cv enemy w = true ->
        stepEnemy M H r cv now dt arriving w
        = (Removed, shieldAbsorb H r now enemy w))
  /\ (forall now : Z,
        enemiesDestroyed (shieldAbsorb H r now enemy w) = enemiesDestroyed w + 1).
Proof.
  intros Hlevel Henergy radius.
  split.
  { unfold shieldBlocks.
    apply Z.ltb_lt in Hlevel. rewrite Hlevel.
    destruct Henergy as [Hpos _]. apply Z.ltb_lt in Hpos. rewrite Hpos.
    reflexivity. }
  pose proof (energyPct_range Henergy) as Hpct.
  assert (Hrad : (radius == 162 + 18 * (inject_Z (shieldEnergy w)
                    / inject_Z (shieldMaxEnergy (upgradeStats r))))%Q).
  { unfold radius, visualShieldRadius. cbv zeta. field.
    intros Hz. destruct Hpct as [Hp _].
    rewrite Hz in Hp. unfold Qdiv in Hp. 
    assert (Hinv : (/ 0 == 0)%Q) by reflexivity.
    rewrite Hinv, Qmult_0_r in Hp. apply (Qlt_irrefl 0). exact Hp. }
  split; [exact Hrad |].
  split; [rewrite Hrad; lra |].
  split; [intros h; reflexivity |].
  split.
  { intros now dt arriving Hmove Hblocks. unfold stepEnemy.
    destruct (moveEnemy M dt arriving) as [moved t]. cbn [fst] in Hmove.
    subst moved. rewrite Hblocks. reflexivity. }
  intros now. unfold shieldAbsorb, Date_now. cbv beta iota zeta.
  set (wk := handleKill r now enemy w).
  assert (Hk : enemiesDestroyed wk = enemiesDestroyed w + 1).
  { unfold wk, handleKill. destruct (_ <? _); reflexivity. }
  clearbody wk. destruct (_ <? 0); cbn; exact Hk.
Qed.

(** ** The spawn schedule *)

Lemma baseRate_floor (level : Z) : (0.4 <= baseRate level)%Q.
Proof.
  unfold baseRate, Math_max.
  destruct (Qltb 0.4 _) eqn:Hlt.
  - apply Qltb_lt in Hlt. apply Qlt_le_weak. exact Hlt.
  - apply Qle_refl.
Qed.

Lemma baseRate_decreases (l1 l2 : Z) :
  l1 <= l2 -> (baseRate l2 <= baseRate l1)%Q.
Proof.
  intros Hl. unfold baseRate, Math_max.
  assert (Hq : (inject_Z l1 <= inject_Z l2)%Q) by (rewrite <- Zle_Qle; exact Hl).
  destruct (Qltb 0.4 (2.5 - inject_Z l2 * 0.15)) eqn:H2;
    destruct (Qltb 0.4 (2.5 - inject_Z l1 * 0.15)) eqn:H1;
    try apply Qltb_lt in H1; try apply Qltb_lt in H2;
    try apply Qltb_ge in H1; try apply Qltb_ge in H2; lra.
Qed.

Lemma spawnRate_floor (level : Z) (d : Difficulty) : (0.28 <= spawnRate level d)%Q.
Proof.
  unfold spawnRate. pose proof (baseRate_floor level) as Hb.
  destruct d; unfold rateMod; lra.
Qed.

(** C8 (amended).  When the spawner spawns an enemy (spawn time passed, a
    building standing), it schedules the next spawn at the level-elapsed time
    plus [rnd * rate] for a random [rnd] of [0, 1): the interval is never
    negative and stays below [rate].  The floor is on the rate, not on the
    interval: the base rate max(0.4, 2.5 - 0.15 * level) never increases with
    the level and is scaled by 1.3 (easy), 1 or 0.7 (hard), so that [rate] is
    at least 0.28. *)
Theorem next_spawn_within_rate (r : Render) (cv : Canvas) (w : World) :
  (forall n, 0 <= random H n < 1)%Q ->
  (nextSpawnTime w < levelTime w)%Q ->
  (exists b, In b (buildings w) /\ Building.isDestroyed b = false) ->
  let w' := spawnEnemies M H r cv w in
  let rate := spawnRate (level r) (difficulty r) in
  length (enemies w') = S (length (enemies w))
  /\ levelTime w' = levelTime w
  /\ (exists rnd : Q, (0 <= rnd < 1)%Q
                      /\ nextSpawnTime w' = (levelTime w + rnd * rate)%Q)
  /\ (0 <= nextSpawnTime w' - levelTime w' < rate)%Q
  /\ (0.28 <= rate)%Q
  /\ (forall l1 l2 : Z, l1 <= l2 -> (baseRate l2 <= baseRate l1)%Q)
  /\ (forall l : Z,
        spawnRate l HARD < spawnRate l MEDIUM /\ spawnRate l MEDIUM < spawnRate l EASY)%Q.
Proof.
  intros Hrandom Hdue [b [Hin Halive]] w' rate.
  assert (Hcore : length (enemies w') = S (length (enemies w))
                  /\ levelTime w' = levelTime w
                  /\ exists rnd : Q, (0 <= rnd < 1)%Q
                       /\ nextSpawnTime w' = (levelTime w + rnd * rate)%Q).
  { unfold w', spawnEnemies.
    apply Qgtb_gt in Hdue. rewrite Hdue.
    assert (Hactive : (0 <? length (filter (fun b => negb (Building.isDestroyed b))
                                          (buildings w)))%nat = true).
    { apply Nat.ltb_lt.
      assert (Hf : In b (filter (fun b => negb (Building.isDestroyed b))
                                (buildings w))).
      { apply filter_In. split; [exact Hin | rewrite Halive; reflexivity]. }
      destruct (filter _ _); [destruct Hf | cbn; lia]. }
    rewrite Hactive.
    unfold Math_random, freshId, Date_now. cbv beta iota zeta.
    destruct (js_index _ _); cbv beta iota zeta;
      match goal with
      | |- context [getEnemyConfig H ?l ?d ?w0] =>
          destruct (getEnemyConfig_world l d w0) as [n Hn];
          destruct (getEnemyConfig H l d w0) as [[ty sm] wc]
      end;
      cbn [snd] in Hn; subst wc; cbn;
      (split; [rewrite length_app; cbn; lia |]);
      (split; [reflexivity |]);
      eexists; (split; [apply Hrandom | reflexivity]). }
  destruct Hcore as (Hlen & Htime & rnd & Hrnd & Hnext).
  pose proof (spawnRate_floor (level r) (difficulty r)) as Hfloor. fold rate in Hfloor.
  split; [exact Hlen |].
  split; [exact Htime |].
  split; [exists rnd; split; assumption |].
  split.
  { rewrite Hnext, Htime.
    assert (Hprod : (0 <= rnd * rate < rate)%Q) by (split; nra).
    lra. }
  split; [exact Hfloor |].
  split; [apply baseRate_decreases |].
  intros l. unfold spawnRate, rateMod.
  pose proof (baseRate_floor l) as Hb. lra.
Qed.

(** ** App: the state between the levels *)

Lemma earned_nonneg (n : Z) (d : Difficulty) :
  0 <= n -> 0 <= Qfloor (inject_Z n * App.difficultyBonus d).
Proof.
  intros Hn. change 0 with (Qfloor 0). apply Qfloor_resp_le.
  apply Qmult_le_0_compat.
  - change 0%Q with (inject_Z 0). rewrite <- Zle_Qle. exact Hn.
  - destruct d; vm_compute; discriminate.
Qed.

Lemma levelOf_raise_same (k : App.UpgradeKey) (u : UpgradeStats) :
  App.levelOf k (App.raise k u) = App.levelOf k u + 1.
Proof. destruct k; reflexivity. Qed.

Lemma levelOf_raise_other (k k' : App.UpgradeKey) (u : UpgradeStats) :
  k <> k' -> App.levelOf k' (App.raise k u) = App.levelOf k' u.
Proof. destruct k, k'; intros Hne; try reflexivity; congruence. Qed.

Lemma levelOf_raise_le (k k' : App.UpgradeKey) (u : UpgradeStats) :
  App.levelOf k' u <= App.levelOf k' (App.raise k u).
Proof. destruct k, k'; cbn; lia. Qed.

Lemma pageLoad_sane (saved : option Z) : appSane (pageLoad saved).
Proof.
  unfold pageLoad, App.loadHighScore, App.initial.
  destruct saved; constructor; cbn; try lia; intros []; cbn; lia.
Qed.

Lemma handle_sane (e : App.Event) (a : App.t) :
  plausible e -> appSane a -> appSane (App.handle e a).
Proof.
  intros He [Hc Hb Hl Hu].
  destruct e as [| | d | | | | type | | | lost destroyed | finalScore];
    cbn [App.handle]; unfold App.togglePause, App.quitToMenu;
    try (destruct (App.gameState a); constructor; cbn; try assumption; try lia;
         try (intros []; cbn; lia); fail).
  - destruct (App.gameState a); try (constructor; assumption).
    destruct (_ <? _) eqn:Hdear; [constructor; assumption |].
    apply Z.ltb_ge in Hdear. unfold App.buyUpgrade.
    destruct (_ <=? _) eqn:Hbuy; [| constructor; assumption].
    constructor; cbn [App.credits App.buildingsRemaining App.level App.upgrades];
      try assumption; try lia.
    intros k. specialize (Hu k). pose proof (levelOf_raise_le type k (App.upgrades a)).
    lia.
  - cbn in He. destruct He as [Hlost Hdest]. unfold App.handleLevelComplete.
    constructor; cbn [App.credits App.buildingsRemaining App.level App.upgrades];
      try assumption; try lia.
    pose proof (@earned_nonneg
                  (Z.max 0 (App.buildingsRemaining a - lost) * 50
                   + destroyed * 10 + 100) (App.difficulty a)).
    lia.
  - unfold App.handleGameOver.
    destruct (_ <? _); constructor; cbn; try assumption; lia.
Qed.

Lemma run_sane (evs : list App.Event) :
  forall a, Forall plausible evs -> appSane a -> appSane (App.run evs a).
Proof.
  induction evs as [|e evs IH]; intros a Hp Ha; [exact Ha |].
  inversion Hp; subst. cbn. apply IH; [assumption |].
  apply handle_sane; assumption.
Qed.

(** X1.  Whatever the order of the clicks and of the reports of the canvas
    (with counters that are not negative) after the page has loaded: the
    credits are never negative, between 0 and 6 buildings remain, the level is
    at least 1 and no upgrade level is negative. *)
Theorem app_state_stays_in_range (saved : option Z) (evs : list App.Event) :
  Forall plausible evs ->
  let a := App.run evs (pageLoad saved) in
  0 <= App.credits a
  /\ 0 <= App.buildingsRemaining a <= 6
  /\ 1 <= App.level a
  /\ forall k, 0 <= App.levelOf k (App.upgrades a).
Proof.
  intros Hp a.
  destruct (@run_sane evs (pageLoad saved) Hp (pageLoad_sane saved))
    as [Hc Hb Hl Hu].
  repeat split; try assumption; apply Hb.
Qed.

Lemma paid_step (l : Z) :
  0 <= l -> paid (Z.to_nat (l + 1)) = paid (Z.to_nat l) + App.getUpgradeCost l.
Proof.
  intros Hl. replace (Z.to_nat (l + 1)) with (S (Z.to_nat l)) by lia.
  cbn [paid]. rewrite Z2Nat.id by exact Hl. reflexivity.
Qed.

(** X2.  Buying moves credits into upgrades at the listed price and nothing is
    lost on the way: the credits at hand plus the price of all levels held is
    the same before and after [buyUpgrade], and a purchase is made exactly
    when the credits cover the cost of the next level, which then rises by
    one while the other upgrades stay. *)
Theorem buyUpgrade_conserves_wealth (type : App.UpgradeKey) (a : App.t) :
  (forall k, 0 <= App.levelOf k (App.upgrades a)) ->
  let a' := App.buyUpgrade type a in
  let cost := App.getUpgradeCost (App.levelOf type (App.upgrades a)) in
  wealth a' = wealth a
  /\ (cost <= App.credits a ->
      App.credits a' = App.credits a - cost
      /\ App.levelOf type (App.upgrades a') = App.levelOf type (App.upgrades a) + 1
      /\ forall k, k <> type ->
           App.levelOf k (App.upgrades a') = App.levelOf k (App.upgrades a))
  /\ (App.credits a < cost -> a' = a).
Proof.
  intros Hu a' cost. subst a' cost. unfold App.buyUpgrade.
  destruct (_ <=? _) eqn:Hbuy.
  - apply Z.leb_le in Hbuy. split; [| split].
    + unfold wealth, allKeys. cbn [fold_right App.credits App.upgrades].
      pose proof (Hu type) as Ht. pose proof (paid_step Ht) as Hs.
      destruct type; cbn [App.levelOf App.raise speedLevel radiusLevel rateLevel
                          turretLevel shieldLevel] in *; rewrite Hs; lia.
    + intros _. cbn [App.credits App.upgrades]. split; [reflexivity |].
      split; [apply levelOf_raise_same |].
      intros k Hk. apply levelOf_raise_other. congruence.
    + intros Hlt. lia.
  - apply Z.leb_gt in Hbuy. split; [reflexivity |]. split; [lia | reflexivity].
Qed.

Lemma highScore_handle (e : App.Event) (a : App.t) :
  App.highScore (App.handle e a)
  = match e with
    | App.onGameOver s => Z.max (App.highScore a) s
    | _ => App.highScore a
    end.
Proof.
  destruct e; cbn [App.handle]; unfold App.togglePause, App.quitToMenu;
    try (destruct (App.gameState a); reflexivity).
  - destruct (App.gameState a); try reflexivity.
    destruct (_ <? _); [reflexivity |]. unfold App.buyUpgrade.
    destruct (_ <=? _); reflexivity.
  - unfold App.handleGameOver. destruct (_ <? _) eqn:Hlt; cbn.
    + apply Z.ltb_lt in Hlt. lia.
    + apply Z.ltb_ge in Hlt. lia.
Qed.

(** X3.  The high score is the best of what it was and of all final scores
    reported since, whatever else happened in between: it never goes down and
    [startGame] does not reset it. *)
Theorem high_score_is_best_final_score (evs : list App.Event) (a : App.t) :
  App.highScore (App.run evs a) = bestOf evs (App.highScore a)
  /\ App.highScore a <= App.highScore (App.run evs a).
Proof.
  revert a. induction evs as [|e evs IH]; intros a.
  - split; [reflexivity | cbn; lia].
  - change (App.run (e :: evs) a) with (App.run evs (App.handle e a)).
    change (bestOf (e :: evs) (App.highScore a))
      with (bestOf evs (match e with
                        | App.onGameOver s => Z.max (App.highScore a) s
                        | _ => App.highScore a
                        end)).
    destruct (IH (App.handle e a)) as [IH1 IH2]. rewrite highScore_handle in *.
    split; [exact IH1 |]. destruct e; cbv beta iota in IH2; lia.
Qed.

Lemma handle_stored (e : App.Event) (a : App.t) :
  stored a -> stored (App.handle e a).
Proof.
  unfold stored.
  destruct e; cbn [App.handle]; unfold App.togglePause, App.quitToMenu;
    try (destruct (App.gameState a); cbn; tauto).
  - destruct (App.gameState a); try tauto.
    destruct (_ <? _); [tauto |]. unfold App.buyUpgrade.
    destruct (_ <=? _); cbn; tauto.
  - unfold App.handleGameOver. destruct (_ <? _); cbn; tauto.
Qed.

Lemma run_stored (evs : list App.Event) :
  forall a, stored a -> stored (App.run evs a).
Proof.
  induction evs as [|e evs IH]; intros a Ha; [exact Ha |].
  cbn. apply IH, handle_stored, Ha.
Qed.

(** X4.  The high score survives a reload of the page: after any events, the
    page that loads with what was left in the storage shows the high score
    that was shown before. *)
Theorem high_score_survives_reload (saved : option Z) (evs : list App.Event) :
  let a := App.run evs (pageLoad saved) in
  App.highScore (pageLoad (App.savedHighScore a)) = App.highScore a.
Proof.
  intros a. assert (Hs : stored a).
  { apply run_stored. unfold stored, pageLoad, App.loadHighScore.
    destruct saved; cbn; tauto. }
  unfold pageLoad, App.loadHighScore.
  destruct Hs as [Hs | [Hs Hz]]; cbn; rewrite Hs; cbn; congruence.
Qed.

(** X5.  While a level is played or paused nothing reconfigures it: no event
    changes the level number, the difficulty or the upgrades, and the credits
    change only when the canvas reports the level complete. *)
Theorem level_settings_fixed_during_play (e : App.Event) (a : App.t) :
  App.gameState a = PLAYING \/ App.gameState a = PAUSED ->
  let a' := App.handle e a in
  App.level a' = App.level a
  /\ App.difficulty a' = App.difficulty a
  /\ App.upgrades a' = App.upgrades a
  /\ ((forall lost destroyed, e <> App.onLevelComplete lost destroyed) ->
      App.credits a' = App.credits a).
Proof.
  intros Hg a'. subst a'.
  destruct e; cbn [App.handle]; unfold App.togglePause, App.quitToMenu;
    try (destruct Hg as [-> | ->]; cbn; repeat split; reflexivity).
  - cbn. split; [reflexivity |]. split; [reflexivity |]. split; [reflexivity |].
    intros Hne. exfalso. eapply Hne. reflexivity.
  - unfold App.handleGameOver. destruct (_ <? _); cbn; repeat split; reflexivity.
Qed.

(** ** Keyboard aiming *)

(** X6.  No key stays stuck: a release is handled under every game state and
    clears the flag of its key, also after a press that was handled while
    playing; a press is ignored unless the game is playing; and neither
    touches the flag of a key of another group. *)
Theorem key_release_always_lands (g : GameState) (code : KeyCode) (s : InputState) :
  flagOf code (handleKeyUp code (handleKeyDown g code s)) = false
  /\ handleKeyUp code (handleKeyDown g code s) = handleKeyUp code s
  /\ (g <> PLAYING -> handleKeyDown g code s = s)
  /\ (code <> OtherKey -> flagOf code (handleKeyDown PLAYING code s) = true)
  /\ forall other, flagOf other (setKey code true s) <> flagOf other s ->
                   flagOf other = flagOf code.
Proof.
  split; [| split; [| split; [| split]]].
  - destruct g, code; reflexivity.
  - destruct g, code; reflexivity.
  - intros Hg. destruct g; try reflexivity. congruence.
  - intros Hc. destruct code; try reflexivity. congruence.
  - intros other Hne. destruct code, other; try reflexivity; cbn in Hne; congruence.
Qed.

Lemma Math_max_ge_l (a b : Q) : (a <= Math_max a b)%Q.
Proof.
  unfold Math_max. destruct (Qltb a b) eqn:E.
  - apply Qltb_lt in E. apply Qlt_le_weak, E.
  - apply Qle_refl.
Qed.

Lemma Math_max_lub (a b c : Q) : (a <= c)%Q -> (b <= c)%Q -> (Math_max a b <= c)%Q.
Proof. intros Ha Hb. unfold Math_max. destruct (Qltb a b); assumption. Qed.

Lemma Math_min_le_l (a b : Q) : (Math_min a b <= a)%Q.
Proof.
  unfold Math_min. destruct (Qltb b a) eqn:E.
  - apply Qltb_lt in E. apply Qlt_le_weak, E.
  - apply Qle_refl.
Qed.

Lemma clamp_range (hi v : Q) :
  (0 <= hi)%Q -> (0 <= Math_max 0 (Math_min hi v) <= hi)%Q.
Proof.
  intros Hhi. split; [apply Math_max_ge_l |].
  apply Math_max_lub; [exact Hhi | apply Math_min_le_l].
Qed.

(** X7.  The crosshair stays on the canvas: after an update from the keys it
    lies within the canvas, wherever it was before, whatever keys are down and
    however long the frame took. *)
Theorem crosshair_stays_on_canvas (input : InputState) (deltaTime : Q)
        (cv : Canvas) (crosshair : Point) :
  (0 <= cv_width cv)%Q -> (0 <= cv_height cv)%Q ->
  let c := moveCrosshair input deltaTime cv crosshair in
  (0 <= pt_x c <= cv_width cv)%Q /\ (0 <= pt_y c <= cv_height cv)%Q.
Proof.
  intros Hw Hh c. subst c. unfold moveCrosshair. cbn [pt_x pt_y].
  split; apply clamp_range; assumption.
Qed.

(** ** The effect that starts the loop *)

(** X8.  Pausing and resuming does not restart the level: the effect that runs
    when the game is paused requests no frame, and the one that runs when it
    resumes does not call [initLevel]; after both, every ref of the simulation
    is as it was and exactly one animation frame has been requested.  An
    effect that starts play from any other state does reset the entities. *)
Theorem resume_keeps_the_level (r : Render) (iw ih iw' ih' : Q) (w : World) :
  gameState r = PLAYING ->
  let paused := canvasEffect PLAYING (inState PAUSED r) iw ih w in
  let resumed := canvasEffect (snd paused) r iw' ih' (fst paused) in
  let w2 := fst resumed in
  log (fst paused) = log w /\ log w2 = log w ++ [RequestFrame]
  /\ snd resumed = PLAYING
  /\ enemies w2 = enemies w /\ interceptors w2 = interceptors w
  /\ explosions w2 = explosions w /\ projectiles w2 = projectiles w
  /\ buildings w2 = buildings w /\ levelTime w2 = levelTime w
  /\ nextSpawnTime w2 = nextSpawnTime w /\ shieldEnergy w2 = shieldEnergy w
  /\ multiplier w2 = multiplier w /\ score w2 = score w
  /\ enemiesDestroyed w2 = enemiesDestroyed w
  /\ buildingsLostInLevel w2 = buildingsLostInLevel w
  /\ forall prev cv, prev <> PAUSED -> canvas w = Some cv ->
       let w3 := fst (canvasEffect prev r iw' ih' w) in
       enemies w3 = [] /\ interceptors w3 = [] /\ explosions w3 = []
       /\ projectiles w3 = [] /\ levelTime w3 = 0%Q
       /\ shieldEnergy w3 = shieldMaxEnergy (upgradeStats r).
Proof.
  intros Hg. unfold canvasEffect, inState. cbn [gameState]. rewrite Hg.
  cbn [GameState_eqb andb orb negb].
  destruct (canvas w) as [cv|] eqn:Hcv; cbn; rewrite ?Hcv; cbn;
    (repeat (split; [reflexivity |])); intros prev cv' Hprev Hcv';
    try discriminate;
    destruct prev; try congruence; cbn; unfold initLevel; cbn;
      destruct (_ || _); cbn; repeat split; unfold shieldMaxEnergy; reflexivity.
Qed.

(** ** The turret *)

Lemma findClosest_closestOf (cv : Canvas) (es : list EnemyMissile.t) :
  forall (seen : list EnemyMissile.t) (closest : option (Q * EnemyMissile.t)),
    closestOf cv seen closest ->
    closestOf cv (seen ++ es) (findClosest cv es closest).
Proof.
  induction es as [|e es IH]; intros seen closest Hc; cbn [findClosest].
  - rewrite app_nil_r. exact Hc.
  - cbv zeta.
    replace (seen ++ e :: es) with ((seen ++ [e]) ++ es)
      by (rewrite <- app_assoc; reflexivity).
    fold (turretDist2 cv e). fold (inTurretView cv e).
    destruct closest as [[c2 c]|].
    + destruct Hc as (Hin & Hview & Hd & Hmin).
      destruct (Qltb (turretDist2 cv e) c2) eqn:Hnear; cbn [andb].
      * destruct (inTurretView cv e) eqn:He; apply IH.
        -- split; [apply in_or_app; right; left; reflexivity |].
           split; [exact He |]. split; [reflexivity |].
           intros e' Hin' Hv'. apply in_app_or in Hin'.
           destruct Hin' as [Hin' | [<- | []]]; [| apply Qle_refl].
           apply Qltb_lt in Hnear. subst c2.
           apply Qle_trans with (turretDist2 cv c);
             [apply Qlt_le_weak, Hnear | apply Hmin; assumption].
        -- split; [apply in_or_app; left; exact Hin |].
           split; [exact Hview |]. split; [exact Hd |].
           intros e' Hin' Hv'. apply in_app_or in Hin'.
           destruct Hin' as [Hin' | [<- | []]]; [apply Hmin; assumption |].
           congruence.
      * apply IH. split; [apply in_or_app; left; exact Hin |].
        split; [exact Hview |]. split; [exact Hd |].
        intros e' Hin' Hv'. apply in_app_or in Hin'.
        destruct Hin' as [Hin' | [<- | []]]; [apply Hmin; assumption |].
        apply Qltb_ge in Hnear. subst c2. exact Hnear.
    + cbn [andb]. destruct (inTurretView cv e) eqn:He; apply IH.
      * split; [apply in_or_app; right; left; reflexivity |].
        split; [exact He |]. split; [reflexivity |].
        intros e' Hin' Hv'. apply in_app_or in Hin'.
        destruct Hin' as [Hin' | [<- | []]]; [| apply Qle_refl].
        rewrite (Hc e' Hin') in Hv'. discriminate.
      * intros e' Hin'. apply in_app_or in Hin'.
        destruct Hin' as [Hin' | [<- | []]]; [apply Hc; exact Hin' | exact He].
Qed.

Lemma turret_closest_helper (cv : Canvas) (es : list EnemyMissile.t) :
  closestOf cv es (findClosest cv es None).
Proof. apply (@findClosest_closestOf cv es [] None). intros e' []. Qed.

(** X9.  The turret picks the nearest enemy it may shoot: the search returns
    an enemy of the array that is more than 100 px above the bottom edge and
    at least as close to the turret as every other such enemy, and it returns
    none only when no enemy is that high. *)
Theorem turret_picks_the_nearest (cv : Canvas) (es : list EnemyMissile.t) :
  match findClosest cv es None with
  | Some (d2, e) =>
      In e es /\ inTurretView cv e = true /\ d2 = turretDist2 cv e
      /\ forall e', In e' es -> inTurretView cv e' = true ->
                    (turretDist2 cv e <= turretDist2 cv e')%Q
  | None => forall e', In e' es -> inTurretView cv e' = false
  end.
Proof. exact (turret_closest_helper cv es). Qed.

Lemma turretCooldown_ge_200 (u : UpgradeStats) : 200 <= turretCooldown u.
Proof. unfold turretCooldown. lia. Qed.

(** X10.  The turret fires at most one projectile per frame, from its own
    place and only at an enemy in its view, and not before its cooldown has
    passed: a frame in which it fires stores the time of the shot, and no
    frame within the cooldown (never shorter than 200 ms) of that time fires
    again. *)
Theorem turret_respects_cooldown (r : Render) (cv : Canvas) (now : Z) (w : World) :
  let w' := autoTurret M H r cv now w in
  (w' = w
   \/ (0 < turretLevel (upgradeStats r)
       /\ turretCooldown (upgradeStats r) < now - lastTurretFireTime w
       /\ lastTurretFireTime w' = now
       /\ enemies w' = enemies w
       /\ log w' = log w ++ [PlaySound turret_shoot 1]
       /\ (exists e, In e (enemies w) /\ inTurretView cv e = true)
       /\ exists p, projectiles w' = projectiles w ++ [p]
                    /\ Projectile.x p = turretX
                    /\ Projectile.y p = (cv_height cv - 40)%Q
                    /\ Projectile.speed p = 800%Q
                    /\ Projectile.trail p = []))
  /\ forall (later : Z) (w2 : World),
       lastTurretFireTime w2 = now -> later - now <= 200 ->
       autoTurret M H r cv later w2 = w2.
Proof.
  intros w'. split.
  - subst w'. unfold autoTurret.
    destruct (0 <? turretLevel (upgradeStats r)) eqn:Hlvl; [| left; reflexivity].
    destruct (turretCooldown (upgradeStats r) <? now - lastTurretFireTime w)
      eqn:Hcool; [| left; reflexivity].
    pose proof (turret_closest_helper cv (enemies w)) as Hsel.
    destruct (findClosest cv (enemies w) None) as [[d2 e]|]; [| left; reflexivity].
    right. apply Z.ltb_lt in Hlvl, Hcool. destruct Hsel as (Hin & Hv & _).
    unfold Math_random. cbv beta iota zeta. cbn.
    split; [exact Hlvl |]. split; [exact Hcool |].
    split; [reflexivity |]. split; [reflexivity |]. split; [reflexivity |].
    split; [exists e; split; assumption |].
    eexists. split; [reflexivity |]. cbn. repeat split; reflexivity.
  - intros later w2 Hnow Hsoon. unfold autoTurret.
    destruct (0 <? turretLevel (upgradeStats r)); [| reflexivity].
    pose proof (turretCooldown_ge_200 (upgradeStats r)) as Hmin.
    destruct (turretCooldown (upgradeStats r) <? later - lastTurretFireTime w2)
      eqn:Hcool; [| reflexivity].
    apply Z.ltb_lt in Hcool. lia.
Qed.

(** ** The choice of the enemy type *)

Lemma js_index_In (A : Type) (l : list A) (k : Z) (a : A) :
  js_index l k = Some a -> In a l.
Proof.
  unfold js_index. destruct (k <? 0); [discriminate |]. apply nth_error_In.
Qed.

Lemma offered_unlocked (d : Difficulty) (level : Z) (t : EnemyType) (s : Z) :
  startLevel d t = Some s ->
  forall t', In t' (if s <=? level then [t] else []) -> unlocked d level t' = true.
Proof.
  intros Hs t' Hin. destruct (s <=? level) eqn:E; [| destruct Hin].
  destruct Hin as [<- | []]. unfold unlocked. rewrite Hs. exact E.
Qed.

Lemma getEnemyConfig_report (level : Z) (d : Difficulty) (w : World) :
  unlocked d level (fst (fst (getEnemyConfig H level d w))) = true
  /\ (0.4 <= snd (fst (getEnemyConfig H level d w)) <= 3.125)%Q.
Proof.
  unfold getEnemyConfig, Math_random. cbv beta iota zeta.
  set (rand := random H (hostCalls w)).
  assert (Hpick : forall (L : list EnemyType) (k : Z),
             (forall t, In t L -> unlocked d level t = true) ->
             unlocked d level (match js_index L k with
                               | Some t => t | None => STANDARD end) = true).
  { intros L k HL. destruct (js_index L k) eqn:E; [| reflexivity].
    apply HL. eapply js_index_In. exact E. }
  assert (Hspeed : forall (t : EnemyType) (m : Q),
             (0.8 <= m <= 1.25)%Q ->
             (0.4 <= match t with
                     | FAST => 1.6 | HEAVY => 0.5 | WOBBLY => 0.8 | BOMB => 0.6
                     | BULLET => 2.2 | LASER => 2.5 | STANDARD => 1
                     end * m <= 3.125)%Q).
  { intros t m Hm. destruct t; lra. }
  destruct d; cbv beta iota zeta;
    match goal with
    | |- context [js_index ?L _] => set (avail := L) in *
    end;
    match goal with
    | |- context [unlocked ?dd level _] =>
        assert (HL : forall t, In t avail -> unlocked dd level t = true);
        [ intros t Hin; unfold avail in Hin; destruct Hin as [<- | Hin];
          [reflexivity |]; cbn [app] in Hin;
          repeat (apply in_app_or in Hin; destruct Hin as [Hin | Hin];
                  [eapply offered_unlocked; [| exact Hin]; reflexivity |]);
          eapply offered_unlocked; [| exact Hin]; reflexivity
        | ]
    end;
    clearbody avail;
    destruct (1 <? length avail)%nat; try destruct (Qgtb rand 0.4);
    try destruct (3 <=? level) eqn:Hchaos;
    try destruct (Qgtb rand 0.9);
    cbn [fst snd andb];
    (split; [first [apply Hpick; exact HL | reflexivity
                   | unfold unlocked; cbn; apply Z.leb_le; apply Z.leb_le in Hchaos; lia]
            | first [apply Hspeed; lra | lra]]).
Qed.

(** X11.  No enemy type appears before its level: the type that getEnemyConfig
    returns is the standard missile or one whose start level for the chosen
    difficulty has been reached, whatever the random numbers are, and the
    speed multiplier that goes with it lies between 0.4 and 3.125; the world
    is left as it was but for the random numbers consumed. *)
Theorem enemy_types_unlock_by_level (level : Z) (d : Difficulty) (w : World) :
  let '(type, speedMultiplier, w') := getEnemyConfig H level d w in
  unlocked d level type = true
  /\ (0.4 <= speedMultiplier <= 3.125)%Q
  /\ exists n, w' = set_hostCalls n w.
Proof.
  pose proof (getEnemyConfig_report level d w) as [Ht Hs].
  pose proof (getEnemyConfig_world level d w) as Hw.
  destruct (getEnemyConfig H level d w) as [[type sm] w'].
  cbn [fst snd] in *. repeat split; [exact Ht | apply Hs | apply Hs | exact Hw].
Qed.

(** ** The spawner *)

Lemma random_index (A : Type) (l : list A) (rnd : Q) :
  (0 <= rnd < 1)%Q -> l <> [] ->
  exists a, js_index l (Qfloor (rnd * inject_Z (Z.of_nat (length l)))) = Some a
            /\ In a l.
Proof.
  intros [Hlo Hhi] Hne.
  set (n := Z.of_nat (length l)).
  assert (Hn : 0 < n) by (destruct l; [congruence | cbn in n; lia]).
  assert (Hnq : (0 < inject_Z n)%Q)
    by (change 0%Q with (inject_Z 0); rewrite <- Zlt_Qlt; exact Hn).
  set (k := Qfloor (rnd * inject_Z n)).
  assert (Hk0 : 0 <= k).
  { change 0 with (Qfloor 0). apply Qfloor_resp_le.
    apply Qmult_le_0_compat; [exact Hlo | apply Qlt_le_weak, Hnq]. }
  assert (Hkn : k < n).
  { rewrite Zlt_Qlt. apply Qle_lt_trans with (rnd * inject_Z n)%Q;
      [apply Qfloor_le |]. nra. }
  unfold js_index. destruct (k <? 0) eqn:E; [apply Z.ltb_lt in E; lia |].
  destruct (nth_error l (Z.to_nat k)) as [a|] eqn:Hnth.
  - exists a. split; [reflexivity | eapply nth_error_In; exact Hnth].
  - apply nth_error_None in Hnth. lia.
Qed.

Lemma standing_some (bs : list Building.t) :
  (0 <? length (filter (fun b => negb (Building.isDestroyed b)) bs))%nat
  = existsb (fun b => negb (Building.isDestroyed b)) bs.
Proof.
  induction bs as [|b bs IH]; [reflexivity |]. cbn [filter existsb].
  destruct (negb (Building.isDestroyed b)); [reflexivity | exact IH].
Qed.

(** X12.  An enemy is spawned only when the spawn time has passed and a
    building stands, one per frame at most; for random numbers of [0, 1) it
    aims at the centre of a building that is still standing, at the bottom
    edge of the canvas; it starts 30 px above the top with nothing travelled,
    an empty trail, no recorded hit and the full health of its type (3 for a
    Heavy, 1 otherwise); its type is unlocked at the level; a Bomb starts
    right above its target. *)
Theorem spawner_targets_a_standing_building (r : Render) (cv : Canvas) (w : World) :
  (forall n, 0 <= random H n < 1)%Q ->
  let w' := spawnEnemies M H r cv w in
  if Qgtb (levelTime w) (nextSpawnTime w)
     && existsb (fun b => negb (Building.isDestroyed b)) (buildings w)
  then
    buildings w' = buildings w
    /\ exists e b,
         enemies w' = enemies w ++ [e]
         /\ In b (buildings w) /\ Building.isDestroyed b = false
         /\ EnemyMissile.targetX e = (Building.x b + Building.width b / 2)%Q
         /\ EnemyMissile.targetY e = cv_height cv
         /\ EnemyMissile.y e = (-30)%Q
         /\ EnemyMissile.startY e = (-30)%Q
         /\ EnemyMissile.x e = EnemyMissile.startX e
         /\ EnemyMissile.traveledDistance e = 0%Q
         /\ EnemyMissile.trail e = []
         /\ EnemyMissile.hitByExplosionIds e = []
         /\ EnemyMissile.health e = fullHealth (EnemyMissile.type e)
         /\ EnemyMissile.maxHealth e = fullHealth (EnemyMissile.type e)
         /\ unlocked (difficulty r) (level r) (EnemyMissile.type e) = true
         /\ if EnemyType_eqb (EnemyMissile.type e) BOMB
            then EnemyMissile.x e = EnemyMissile.targetX e
            else exists rnd, (0 <= rnd < 1)%Q
                             /\ EnemyMissile.x e = (rnd * cv_width cv)%Q
  else w' = w.
Proof.
  intros Hrandom w'.
  assert (E : w' = spawnEnemies M H r cv w) by reflexivity. clearbody w'.
  unfold spawnEnemies in E. rewrite standing_some in E.
  destruct (Qgtb (levelTime w) (nextSpawnTime w)) eqn:Hdue; cbn [andb];
    [| exact E].
  destruct (existsb _ (buildings w)) eqn:Hactive; [| exact E].
  rewrite <- standing_some in Hactive.
  set (active := filter _ (buildings w)) in *.
  assert (Hne : active <> []).
  { apply Nat.ltb_lt in Hactive. destruct active; [cbn in Hactive; lia | congruence]. }
  unfold Math_random at 1 in E. cbv beta iota zeta in E.
  destruct (@random_index _ active (random H (hostCalls w)) (Hrandom _) Hne)
    as (b & Hidx & Hb).
  rewrite Hidx in E. cbv beta iota zeta in E.
  apply filter_In in Hb. destruct Hb as [Hin Halive].
  apply negb_true_iff in Halive.
  unfold Math_random, freshId, Date_now in E. cbv beta iota zeta in E.
  match type of E with
  | context [getEnemyConfig H ?l ?d ?w0] =>
      destruct (getEnemyConfig_world l d w0) as [n Hn];
      destruct (getEnemyConfig_report l d w0) as [Hty _];
      destruct (getEnemyConfig H l d w0) as [[ty sm] wc]
  end.
  cbn [fst snd] in Hn, Hty. subst wc. subst w'. cbn.
  split; [reflexivity |].
  eexists. exists b. split; [reflexivity |]. cbn.
  split; [exact Hin |]. split; [exact Halive |].
  repeat (split; [reflexivity |]).
  split; [destruct ty; reflexivity |].
  split; [destruct ty; reflexivity |].
  split; [exact Hty |].
  destruct (EnemyType_eqb ty BOMB); [reflexivity |].
  eexists. split; [apply Hrandom | reflexivity].
Qed.

(** ** The books of a frame: kills, score and buildings *)

Lemma tally_refl (w : World) : tally w w.
Proof. constructor; try reflexivity; try lia; tauto. Qed.

Lemma tally_trans (w1 w2 w3 : World) : tally w1 w2 -> tally w2 w3 -> tally w1 w3.
Proof.
  intros [K1 S1 C1 L1 B1 T1 V1] [K2 S2 C2 L2 B2 T2 V2]. constructor; try lia.
  - intros Hc. specialize (S1 Hc). specialize (S2 (C1 Hc)). lia.
  - tauto.
  - congruence.
  - congruence.
Qed.

Lemma tally_same (w w' : World) :
  enemiesDestroyed w' = enemiesDestroyed w -> score w' = score w ->
  multiplier w' = multiplier w ->
  buildingsLostInLevel w' = buildingsLostInLevel w ->
  buildings w' = buildings w -> levelTime w' = levelTime w ->
  canvas w' = canvas w ->
  tally w w'.
Proof.
  intros K S Mu L B T V. constructor; try assumption; rewrite ?K, ?S, ?L, ?B; try lia.
  unfold comboInRange. rewrite Mu. tauto.
Qed.

(** Projections of a world written by setters. *)
Tactic Notation "world_simpl" :=
  cbn [
       buildings enemies interceptors explosions projectiles shieldEnergy
       shieldHitTime lastTurretFireTime warningPlayed multiplier lastKillTime
       lastTime levelTime nextSpawnTime lastShotTime gameOverStart
       buildingsLostInLevel enemiesDestroyed score canvas hostCalls log
       set_buildings set_enemies set_interceptors set_explosions set_projectiles
       set_shieldEnergy set_shieldHitTime set_lastTurretFireTime
       set_warningPlayed set_multiplier set_lastKillTime set_lastTime
       set_levelTime set_nextSpawnTime set_lastShotTime set_gameOverStart
       set_buildingsLostInLevel set_enemiesDestroyed set_score set_canvas
       set_hostCalls set_log emit playSound pushExplosion].

Tactic Notation "world_simpl" "in" hyp(Hyp) :=
  cbn [
       buildings enemies interceptors explosions projectiles shieldEnergy
       shieldHitTime lastTurretFireTime warningPlayed multiplier lastKillTime
       lastTime levelTime nextSpawnTime lastShotTime gameOverStart
       buildingsLostInLevel enemiesDestroyed score canvas hostCalls log
       set_buildings set_enemies set_interceptors set_explosions set_projectiles
       set_shieldEnergy set_shieldHitTime set_lastTurretFireTime
       set_warningPlayed set_multiplier set_lastKillTime set_lastTime
       set_levelTime set_nextSpawnTime set_lastShotTime set_gameOverStart
       set_buildingsLostInLevel set_enemiesDestroyed set_score set_canvas
       set_hostCalls set_log emit playSound pushExplosion] in Hyp.

Ltac tally_leaf := apply tally_same; reflexivity.

Lemma killScore_range (t : EnemyType) (d : Difficulty) (m : Z) :
  1 <= m <= 10 ->
  8 <= Qceiling (inject_Z (baseScore t) * diffMult d * inject_Z m) <= 600.
Proof.
  intros [Hlo Hhi].
  assert (Hm : (1 <= inject_Z m <= 10)%Q).
  { split; [change 1%Q with (inject_Z 1) | change 10%Q with (inject_Z 10)];
      rewrite <- Zle_Qle; assumption. }
  set (x := (inject_Z (baseScore t) * diffMult d * inject_Z m)%Q).
  assert (Hx : (8 <= x <= 600)%Q).
  { unfold x. destruct t, d; unfold baseScore, diffMult;
      change (inject_Z 10) with 10%Q; change (inject_Z 20) with 20%Q;
      change (inject_Z 25) with 25%Q; change (inject_Z 30) with 30%Q;
      change (inject_Z 35) with 35%Q; change (inject_Z 40) with 40%Q; lra. }
  destruct Hx as [Hx1 Hx2]. split.
  - change 8 with (Qceiling 8). apply Qceiling_resp_le. exact Hx1.
  - change 600 with (Qceiling 600). apply Qceiling_resp_le. exact Hx2.
Qed.

Lemma handleKill_tally (r : Render) (now : Z) (e : EnemyMissile.t) (w : World) :
  tally w (handleKill r now e w)
  /\ enemiesDestroyed (handleKill r now e w) = enemiesDestroyed w + 1.
Proof.
  unfold handleKill. cbv zeta.
  destruct (now - lastKillTime (set_enemiesDestroyed (enemiesDestroyed w + 1) w)
            <? COMBO_TIMEOUT);
    (split; [| reflexivity]); constructor;
    cbn [enemiesDestroyed score multiplier buildingsLostInLevel buildings levelTime
         canvas set_enemiesDestroyed set_multiplier set_lastKillTime set_score];
    try reflexivity; try lia; unfold comboInRange;
    cbn [enemiesDestroyed score multiplier buildingsLostInLevel buildings levelTime
         canvas set_enemiesDestroyed set_multiplier set_lastKillTime set_score];
    intros Hc; try lia.
  - pose proof (@killScore_range (EnemyMissile.type e) (difficulty r)
                  (Z.min (multiplier w + 1) 10)) as Hk. lia.
  - pose proof (@killScore_range (EnemyMissile.type e) (difficulty r) 1) as Hk. lia.
Qed.

Lemma comboTimeoutCheck_tally (now : Z) (w : World) : tally w (comboTimeoutCheck now w).
Proof.
  unfold comboTimeoutCheck.
  destruct (1 <? multiplier w); [| apply tally_refl].
  destruct (COMBO_TIMEOUT <? now - lastKillTime w); [| apply tally_refl].
  constructor; world_simpl; try reflexivity; try lia.
  unfold comboInRange; world_simpl; lia.
Qed.

Lemma audioWarning_tally (w : World) : tally w (audioWarning w).
Proof.
  unfold audioWarning. destruct (_ && _); [tally_leaf | apply tally_refl].
Qed.

Lemma spawnEnemies_tally (r : Render) (cv : Canvas) (w : World) :
  tally w (spawnEnemies M H r cv w).
Proof.
  unfold spawnEnemies.
  destruct (Qgtb _ _); [| apply tally_refl].
  destruct (0 <? _)%nat; [| apply tally_refl].
  unfold Math_random, freshId, Date_now. cbv beta iota zeta.
  destruct (js_index _ _); cbv beta iota zeta;
    match goal with
    | |- context [getEnemyConfig H ?l ?d ?w0] =>
        destruct (getEnemyConfig_world l d w0) as [n Hn];
        destruct (getEnemyConfig H l d w0) as [[ty sm] wc]
    end;
    cbn [snd] in Hn; subst wc; tally_leaf.
Qed.

Lemma autoTurret_tally (r : Render) (cv : Canvas) (now : Z) (w : World) :
  tally w (autoTurret M H r cv now w).
Proof.
  unfold autoTurret.
  destruct (0 <? _); [| apply tally_refl].
  destruct (_ <? _); [| apply tally_refl].
  destruct (findClosest _ _ _) as [[d2 e]|]; [| apply tally_refl].
  tally_leaf.
Qed.

Lemma stepProjectile_tally (r : Render) (cv : Canvas) (now : Z) (dt : Q)
      (p : Projectile.t) (w : World) :
  tally w (snd (stepProjectile H r cv now dt p w)).
Proof.
  unfold stepProjectile. cbv zeta.
  destruct (_ || _); [apply tally_refl |].
  destruct (splitLast _ _) as [[[pre e] post]|]; [| apply tally_refl].
  destruct (_ <=? 0).
  - unfold Date_now. cbv beta iota zeta. cbn [snd].
    eapply tally_trans; [| apply handleKill_tally]. tally_leaf.
  - tally_leaf.
Qed.

Lemma projectilesLoop_tally (r : Render) (cv : Canvas) (now : Z) (dt : Q)
      (todo : list Projectile.t) :
  forall (kept : list Projectile.t) (w : World),
    tally w (projectilesLoop H r cv now dt todo kept w).
Proof.
  induction todo as [|p todo IH]; intros kept w; cbn [projectilesLoop].
  - tally_leaf.
  - pose proof (stepProjectile_tally r cv now dt p w) as Hstep.
    destruct (stepProjectile H r cv now dt p w) as [res w1]. cbn [snd] in Hstep.
    eapply tally_trans; [exact Hstep | apply IH].
Qed.

Lemma stepInterceptor_tally (r : Render) (dt : Q) (m : Interceptor.t) (w : World) :
  tally w (snd (stepInterceptor M H r dt m w)).
Proof.
  unfold stepInterceptor. cbv zeta.
  destruct (hypot_lt _ _ _); [tally_leaf | apply tally_refl].
Qed.

Lemma interceptorsLoop_tally (r : Render) (dt : Q) (todo : list Interceptor.t) :
  forall (kept : list Interceptor.t) (w : World),
    tally w (interceptorsLoop M H r dt todo kept w).
Proof.
  induction todo as [|m todo IH]; intros kept w; cbn [interceptorsLoop].
  - tally_leaf.
  - pose proof (stepInterceptor_tally r dt m w) as Hstep.
    destruct (stepInterceptor M H r dt m w) as [res w1]. cbn [snd] in Hstep.
    eapply tally_trans; [exact Hstep | apply IH].
Qed.

Lemma updateExplosions_tally (dt : Q) (w : World) : tally w (updateExplosions dt w).
Proof. unfold updateExplosions. tally_leaf. Qed.

Lemma explosionHits_tally (r : Render) (now : Z) (fuel : nat) :
  forall (todo : list Explosion.t) (enemy : EnemyMissile.t) (w : World)
         (enemy' : EnemyMissile.t) (destroyed : bool) (w' : World),
    explosionHits H fuel r now todo enemy w = Some (enemy', destroyed, w') ->
    tally w w'.
Proof.
  induction fuel as [|fuel IH]; intros todo enemy w enemy' destroyed w' Hrun.
  { destruct todo; cbn in Hrun; [| discriminate].
    injection Hrun as <- <- <-. apply tally_refl. }
  destruct todo as [|exp rest]; cbn [explosionHits] in Hrun.
  { injection Hrun as <- <- <-. apply tally_refl. }
  destruct (hypot_lt _ _ _); [| apply IH in Hrun; exact Hrun].
  destruct (negb _); [| apply IH in Hrun; exact Hrun].
  destruct (_ <=? 0).
  - unfold Date_now in Hrun. cbv beta iota zeta in Hrun.
    injection Hrun as <- <- <-.
    match goal with
    | |- context [handleKill ?r0 ?n0 ?e0 w] =>
        apply tally_trans with (w2 := handleKill r0 n0 e0 w);
          [apply handleKill_tally | tally_leaf]
    end.
  - unfold freshId, Date_now, Math_random in Hrun. cbv beta iota zeta in Hrun.
    apply IH in Hrun. eapply tally_trans; [| exact Hrun]. tally_leaf.
Qed.

Lemma shieldAbsorb_tally (r : Render) (now : Z) (enemy : EnemyMissile.t) (w : World) :
  tally w (shieldAbsorb H r now enemy w).
Proof.
  unfold shieldAbsorb, Date_now. cbv beta iota zeta.
  apply tally_trans with (w2 := handleKill r now enemy w);
    [apply handleKill_tally |].
  set (wk := handleKill r now enemy w). clearbody wk.
  destruct (shieldEnergy (set_shieldEnergy (shieldEnergy wk - 30) wk) <? 0);
    tally_leaf.
Qed.

Lemma standing_cons (b : Building.t) (bs : list Building.t) :
  standing (b :: bs)
  = (if Building.isDestroyed b then 0 else 1) + standing bs.
Proof.
  unfold standing. cbn [filter]. destruct (Building.isDestroyed b); cbn [negb length];
    lia.
Qed.

Lemma impactBuildings_tally (cv : Canvas) (enemy : EnemyMissile.t)
      (bs : list Building.t) :
  forall (w : World),
    let '(bs', _, w') := impactBuildings H cv enemy bs w in
    buildingsLostInLevel w' + standing bs' = buildingsLostInLevel w + standing bs
    /\ standing bs' <= standing bs
    /\ enemiesDestroyed w' = enemiesDestroyed w /\ score w' = score w
    /\ (comboInRange w -> comboInRange w')
    /\ buildings w' = buildings w /\ levelTime w' = levelTime w
    /\ canvas w' = canvas w.
Proof.
  induction bs as [|b bs IH]; intros w; cbn [impactBuildings].
  - split; [reflexivity |]. split; [lia |]. split; [reflexivity |].
    split; [reflexivity |]. split; [tauto |]. split; [reflexivity |].
    split; reflexivity.
  - destruct (negb (Building.isDestroyed b)) eqn:Hb; cbn [andb].
    + destruct (_ && _) eqn:Hhit.
      * unfold Date_now. cbv beta iota zeta.
        match goal with
        | |- context [impactBuildings H cv enemy bs ?w0] =>
            specialize (IH w0);
            destruct (impactBuildings H cv enemy bs w0) as [[bs' hit] w']
        end.
        world_simpl in IH. destruct IH as (L & B & K & S & C & Bu & T & V).
        rewrite !standing_cons. apply negb_true_iff in Hb. rewrite Hb.
        cbn [Building.destroy Building.isDestroyed].
        split; [lia |]. split; [lia |]. split; [exact K |]. split; [exact S |].
        split; [| split; [exact Bu | split; [exact T | exact V]]].
        intros _. apply C. unfold comboInRange. world_simpl. lia.
      * specialize (IH w).
        destruct (impactBuildings H cv enemy bs w) as [[bs' hit] w'].
        destruct IH as (L & B & K & S & C & Bu & T & V).
        rewrite !standing_cons.
        split; [lia |]. split; [lia |]. split; [exact K |]. split; [exact S |].
        split; [exact C | split; [exact Bu | split; [exact T | exact V]]].
    + specialize (IH w).
      destruct (impactBuildings H cv enemy bs w) as [[bs' hit] w'].
      destruct IH as (L & B & K & S & C & Bu & T & V).
      rewrite !standing_cons.
      split; [lia |]. split; [lia |]. split; [exact K |]. split; [exact S |].
      split; [exact C | split; [exact Bu | split; [exact T | exact V]]].
Qed.

Lemma groundImpact_tally (r : Render) (cv : Canvas) (enemy : EnemyMissile.t)
      (w : World) :
  tally w (fst (groundImpact H r cv enemy w)).
Proof.
  unfold groundImpact.
  pose proof (impactBuildings_tally cv enemy (buildings w) w) as Himp.
  destruct (impactBuildings H cv enemy (buildings w) w) as [[bs hit] w1].
  destruct Himp as (L & B & K & S & C & Bu & T & V).
  cbv beta iota zeta.
  set (w3 := if hit then set_buildings bs w1 else _).
  assert (H3 : buildings w3 = bs /\ enemiesDestroyed w3 = enemiesDestroyed w1
               /\ score w3 = score w1 /\ multiplier w3 = multiplier w1
               /\ buildingsLostInLevel w3 = buildingsLostInLevel w1
               /\ levelTime w3 = levelTime w1 /\ canvas w3 = canvas w1).
  { unfold w3, Date_now. destruct hit; cbn; repeat split; reflexivity. }
  clearbody w3. destruct H3 as (B3 & K3 & S3 & M3 & L3 & T3 & V3).
  assert (Ht : tally w w3).
  { constructor; rewrite ?B3, ?K3, ?S3, ?L3, ?T3, ?V3; try assumption; try lia.
    unfold comboInRange in *. rewrite M3. exact C. }
  destruct (forallb Building.isDestroyed (buildings w3)); cbn [fst]; [| exact Ht].
  eapply tally_trans; [exact Ht | tally_leaf].
Qed.

Lemma stepEnemy_tally (r : Render) (cv : Canvas) (now : Z) (dt : Q)
      (enemy : EnemyMissile.t) (w : World) :
  tally w (snd (stepEnemy M H r cv now dt enemy w)).
Proof.
  unfold stepEnemy.
  destruct (moveEnemy M dt enemy) as [enemy1 t].
  destruct (shieldBlocks r cv enemy1 w); [apply shieldAbsorb_tally |].
  destruct (checkExplosions H r now enemy1 w) as [[[enemy2 destroyed] w2]|] eqn:Hchk;
    [| apply tally_refl].
  unfold checkExplosions in Hchk.
  pose proof (explosionHits_tally _ _ _ _ _ _ Hchk) as Htally. clear Hchk.
  rename Htally into Hchk.
  destruct destroyed; [exact Hchk |].
  destruct (_ || _); [| exact Hchk].
  pose proof (groundImpact_tally r cv enemy2 w2) as Hg.
  destruct (groundImpact H r cv enemy2 w2) as [w3 over]. cbn [fst] in Hg.
  destruct over; cbn [snd]; eapply tally_trans; eassumption.
Qed.

Lemma enemiesLoop_tally (r : Render) (cv : Canvas) (now : Z) (dt : Q)
      (todo : list EnemyMissile.t) :
  forall (kept : list EnemyMissile.t) (w : World),
    tally w (fst (enemiesLoop M H r cv now dt todo kept w)).
Proof.
  induction todo as [|enemy todo IH]; intros kept w; cbn [enemiesLoop].
  - tally_leaf.
  - pose proof (stepEnemy_tally r cv now dt enemy w) as Hstep.
    destruct (stepEnemy M H r cv now dt enemy w) as [[enemy'| |] w1];
      cbn [snd] in Hstep.
    + eapply tally_trans; [exact Hstep | apply IH].
    + eapply tally_trans; [exact Hstep | apply IH].
    + cbn [fst]. eapply tally_trans; [exact Hstep | tally_leaf].
Qed.

Lemma tally_ledger (w w' : World) : tally w w' -> ledger w w'.
Proof. intros [K S C L B T V]. constructor; assumption. Qed.

Lemma ledger_refl (w : World) : ledger w w.
Proof. apply tally_ledger, tally_refl. Qed.

Lemma ledger_trans (w1 w2 w3 : World) : ledger w1 w2 -> ledger w2 w3 -> ledger w1 w3.
Proof.
  intros [K1 S1 C1 L1 B1 V1] [K2 S2 C2 L2 B2 V2]. constructor; try lia.
  - intros Hc. specialize (S1 Hc). specialize (S2 (C1 Hc)). lia.
  - tauto.
  - congruence.
Qed.

(** The phases of a frame that follow the level timer. *)
Lemma afterTimer_tally (r : Render) (cv : Canvas) (now : Z) (dt : Q) (w1 : World) :
  let w7 :=
    updateExplosions dt
      (moveInterceptors M H r dt
         (moveProjectiles H r cv now dt
            (autoTurret M H r cv now (spawnEnemies M H r cv (audioWarning w1))))) in
  tally w1 (fst (moveEnemies M H r cv now dt w7)).
Proof.
  intros w7. subst w7.
  pose proof (audioWarning_tally w1) as H2.
  set (w2 := audioWarning w1) in *. clearbody w2.
  pose proof (spawnEnemies_tally r cv w2) as H3.
  set (w3 := spawnEnemies M H r cv w2) in *. clearbody w3.
  pose proof (autoTurret_tally r cv now w3) as H4.
  set (w4 := autoTurret M H r cv now w3) in *. clearbody w4.
  pose proof (projectilesLoop_tally r cv now dt (rev (projectiles w4)) [] w4) as H5.
  fold (moveProjectiles H r cv now dt w4) in H5.
  set (w5 := moveProjectiles H r cv now dt w4) in *. clearbody w5.
  pose proof (interceptorsLoop_tally r dt (rev (interceptors w5)) [] w5) as H6.
  fold (moveInterceptors M H r dt w5) in H6.
  set (w6 := moveInterceptors M H r dt w5) in *. clearbody w6.
  pose proof (updateExplosions_tally dt w6) as H7.
  set (w7 := updateExplosions dt w6) in *. clearbody w7.
  pose proof (enemiesLoop_tally r cv now dt (rev (enemies w7)) [] w7) as H8.
  fold (moveEnemies M H r cv now dt w7) in H8.
  repeat (eapply tally_trans; [eassumption |]). apply tally_refl.
Qed.

Lemma gameplay_ledger (r : Render) (cv : Canvas) (now : Z) (dt : Q) (w : World) :
  let w' := gameplay M H r cv now dt w in
  ledger w w' /\ levelTime w' = (levelTime w + dt)%Q.
Proof.
  unfold gameplay. cbv zeta.
  pose proof (comboTimeoutCheck_tally now w) as H0.
  set (w0 := comboTimeoutCheck now w) in *. clearbody w0.
  set (w1 := set_levelTime (levelTime w0 + dt)%Q w0).
  assert (H1 : ledger w w1 /\ levelTime w1 = (levelTime w + dt)%Q).
  { destruct H0 as [K S C L B T V]. split; [| cbn; rewrite T; reflexivity].
    constructor; assumption. }
  clearbody w1. clear H0 w0. destruct H1 as [H1 T1].
  destruct (Qleb _ 0).
  { split; [| exact T1]. eapply ledger_trans; [exact H1 |].
    apply tally_ledger. tally_leaf. }
  pose proof (afterTimer_tally r cv now dt w1) as Ht. cbv zeta in Ht.
  destruct (moveEnemies M H r cv now dt _) as [w8 over]. cbn [fst] in Ht.
  assert (H8 : ledger w w8 /\ levelTime w8 = (levelTime w + dt)%Q).
  { split; [eapply ledger_trans; [exact H1 | apply tally_ledger, Ht] |].
    destruct Ht as [_ _ _ _ _ T _]. congruence. }
  destruct over; [exact H8 |]. destruct H8 as [H8 T8]. split; [| exact T8].
  eapply ledger_trans; [exact H8 |]. apply tally_ledger. tally_leaf.
Qed.

Lemma update_ledger (r : Render) (time : Q) (w : World) :
  ledger w (update M H r time w).
Proof.
  unfold update. cbv zeta.
  destruct (_ && _); [apply ledger_refl |].
  unfold Date_now. cbv beta iota zeta.
  set (w1 := set_hostCalls _ (set_lastTime time w)).
  assert (H1 : ledger w w1) by (apply tally_ledger; tally_leaf).
  clearbody w1.
  destruct (Qgtb _ _); [exact H1 |].
  destruct (canvas w1) as [cv|]; [| exact H1].
  destruct (negb (cv_context2d cv)); [exact H1 |].
  destruct (GameState_eqb (gameState r) GAME_OVER).
  - eapply ledger_trans; [exact H1 |]. apply tally_ledger.
    unfold gameOverAnimation. destruct (Qeq_bool _ 0); tally_leaf.
  - eapply ledger_trans; [exact H1 |]. apply gameplay_ledger.
Qed.

Lemma handleCanvasClick_ledger (r : Render) (e : MouseEvent) (w : World) :
  ledger w (handleCanvasClick H r e w).
Proof.
  unfold handleCanvasClick.
  destruct (negb _); [apply ledger_refl |].
  unfold Date_now, freshId, Math_random. cbv beta iota zeta.
  destruct (_ <? _); [apply tally_ledger; tally_leaf |].
  cbn [canvas set_lastShotTime playSound emit set_log set_hostCalls].
  destruct (canvas w); apply tally_ledger; tally_leaf.
Qed.

Lemma play_ledger (acts : list Action) :
  forall w, ledger w (play M H acts w).
Proof.
  induction acts as [|a acts IH]; intros w; [apply ledger_refl |].
  cbn [play fold_left]. eapply ledger_trans; [| apply IH].
  destruct a; cbn [deliver]; [apply update_ledger | apply handleCanvasClick_ledger].
Qed.

(** X13.  The score keeps step with the kills: through any run of frames and
    clicks that starts with the combo in range, the kill counter never goes
    down, and the score grows by at least 8 and at most 600 points per kill
    counted; so it never goes down either, and it moves only with a kill. *)
Theorem score_follows_kills (acts : list Action) (w : World) :
  comboInRange w ->
  let w' := play M H acts w in
  let kills := enemiesDestroyed w' - enemiesDestroyed w in
  0 <= kills
  /\ 8 * kills <= score w' - score w <= 600 * kills
  /\ score w <= score w'.
Proof.
  intros Hc w' kills. subst w' kills.
  destruct (play_ledger acts w) as [K S _ _ _ _]. specialize (S Hc). lia.
Qed.

Lemma initLevel_books (r : Render) (w : World) :
  canvas w <> None ->
  buildingsLostInLevel (initLevel r w) = 0
  /\ enemiesDestroyed (initLevel r w) = 0
  /\ (level r = 1 -> standing (buildings (initLevel r w)) = 6)
  /\ (level r <> 1 -> buildings w <> [] -> buildings (initLevel r w) = buildings w).
Proof.
  intros Hcv. unfold initLevel. destruct (canvas w) as [cv|]; [| congruence].
  world_simpl.
  destruct (level r =? 1) eqn:Hl; cbn [orb].
  - apply Z.eqb_eq in Hl. split; [reflexivity |]. split; [reflexivity |].
    split; [intros _; reflexivity | congruence].
  - apply Z.eqb_neq in Hl.
    destruct (length (buildings w) =? 0)%nat eqn:Hlen.
    + split; [reflexivity |]. split; [reflexivity |]. split; [congruence |].
      intros _ Hne. apply Nat.eqb_eq in Hlen. destruct (buildings w); [congruence |].
      discriminate.
    + split; [reflexivity |]. split; [reflexivity |]. split; [congruence |].
      intros _ _. reflexivity.
Qed.

(** X14.  The count of buildings that App shows is the count of buildings that
    stand on the canvas.  Every building that falls during a level is counted
    exactly once in [buildingsLostInLevel], whatever the frames and clicks;
    [initLevel] starts the count at zero, with six standing buildings at level
    1 and the buildings of the previous level otherwise; so if App's count
    agrees with the canvas when the level starts, the count that
    [handleLevelComplete] computes from the report agrees when it ends, and
    the reported counters are not negative. *)
Theorem buildings_shown_are_buildings_standing
        (r : Render) (acts : list Action) (w : World) (a : App.t) :
  canvas w <> None ->
  App.buildingsRemaining a = standing (buildings (initLevel r w)) ->
  let w' := play M H acts (initLevel r w) in
  buildingsLostInLevel w'
  = standing (buildings (initLevel r w)) - standing (buildings w')
  /\ 0 <= buildingsLostInLevel w' /\ 0 <= enemiesDestroyed w'
  /\ App.buildingsRemaining
       (App.handleLevelComplete (buildingsLostInLevel w') (enemiesDestroyed w') a)
     = standing (buildings w')
  /\ standing (buildings (initLevel r w))
     = (if level r =? 1 then App.buildingsRemaining (App.startGame a)
        else if (length (buildings w) =? 0)%nat then 6
        else standing (buildings w)).
Proof.
  intros Hcv Hrem w'. subst w'.
  destruct (@initLevel_books r w Hcv) as (L0 & K0 & B1 & Bn).
  destruct (play_ledger acts (initLevel r w)) as [K _ _ L B _].
  set (w0 := initLevel r w) in *. set (w' := play M H acts w0) in *.
  assert (Hst : 0 <= standing (buildings w')) by (unfold standing; lia).
  split; [lia |]. split; [lia |]. split; [lia |]. split.
  - unfold App.handleLevelComplete. cbn [App.buildingsRemaining]. lia.
  - destruct (level r =? 1) eqn:Hl.
    + apply Z.eqb_eq in Hl. rewrite (B1 Hl). reflexivity.
    + apply Z.eqb_neq in Hl. destruct (length (buildings w) =? 0)%nat eqn:Hlen.
      * unfold w0, initLevel. destruct (canvas w); [| congruence].
        world_simpl. rewrite Hlen, orb_true_r. reflexivity.
      * rewrite Bn; [reflexivity | exact Hl |].
        destruct (buildings w); [discriminate | congruence].
Qed.

(** ** The level timer *)

Lemma timeLeft_zero (t : Q) :
  Qleb (Math_max 0 (LEVEL_DURATION - t)) 0 = Qleb LEVEL_DURATION t.
Proof.
  unfold Math_max, LEVEL_DURATION.
  destruct (Qltb 0 (30 - t)) eqn:E.
  - apply Qltb_lt in E.
    destruct (Qleb 30 t) eqn:E2.
    + apply Qleb_le in E2. lra.
    + apply Qleb_gt. exact E.
  - apply Qltb_ge in E. transitivity true.
    + apply Qleb_le. apply Qle_refl.
    + symmetry. apply Qleb_le. lra.
Qed.

Lemma afterTimer_sound (r : Render) (cv : Canvas) (now : Z) (dt : Q) (w1 : World) :
  let w7 :=
    updateExplosions dt
      (moveInterceptors M H r dt
         (moveProjectiles H r cv now dt
            (autoTurret M H r cv now (spawnEnemies M H r cv (audioWarning w1))))) in
  verdict r w1 (fst (moveEnemies M H r cv now dt w7))
          (snd (moveEnemies M H r cv now dt w7)).
Proof.
  intros w7. subst w7.
  pose proof (audioWarning_calm w1) as H2.
  set (w2 := audioWarning w1) in *. clearbody w2.
  pose proof (spawnEnemies_calm r cv w2) as H3.
  set (w3 := spawnEnemies M H r cv w2) in *. clearbody w3.
  pose proof (autoTurret_calm r cv now w3) as H4.
  set (w4 := autoTurret M H r cv now w3) in *. clearbody w4.
  pose proof (projectilesLoop_calm r cv now dt (rev (projectiles w4)) [] w4) as H5.
  fold (moveProjectiles H r cv now dt w4) in H5.
  set (w5 := moveProjectiles H r cv now dt w4) in *. clearbody w5.
  pose proof (interceptorsLoop_calm r dt (rev (interceptors w5)) [] w5) as H6.
  fold (moveInterceptors M H r dt w5) in H6.
  set (w6 := moveInterceptors M H r dt w5) in *. clearbody w6.
  pose proof (updateExplosions_calm dt w6) as H7.
  set (w7 := updateExplosions dt w6) in *. clearbody w7.
  assert (Hpre : calm w1 w7).
  { repeat (eapply calm_trans; [eassumption |]). apply calm_refl. }
  unfold moveEnemies.
  pose proof (enemiesLoop_sound r cv now dt (rev (enemies w7)) [] w7) as Hloop.
  destruct (enemiesLoop M H r cv now dt (rev (enemies w7)) [] w7) as [w8 over].
  destruct Hloop as [_ Hvd]. cbn [fst snd].
  exact (verdict_after_calm Hpre Hvd).
Qed.

Lemma comboTimeoutCheck_fields (now : Z) (w : World) :
  let w0 := comboTimeoutCheck now w in
  log w0 = log w /\ enemies w0 = enemies w /\ buildings w0 = buildings w
  /\ interceptors w0 = interceptors w /\ explosions w0 = explosions w
  /\ projectiles w0 = projectiles w /\ levelTime w0 = levelTime w
  /\ buildingsLostInLevel w0 = buildingsLostInLevel w
  /\ enemiesDestroyed w0 = enemiesDestroyed w.
Proof.
  unfold comboTimeoutCheck.
  destruct (1 <? multiplier w); [destruct (COMBO_TIMEOUT <? _) |];
    repeat split; reflexivity.
Qed.

Lemma gameplay_report (r : Render) (cv : Canvas) (now : Z) (dt : Q) (w : World) :
  let w' := gameplay M H r cv now dt w in
  levelTime w' = (levelTime w + dt)%Q
  /\ if Qleb LEVEL_DURATION (levelTime w + dt)
     then log w'
          = log w ++ [LevelComplete (buildingsLostInLevel w) (enemiesDestroyed w)]
          /\ enemies w' = enemies w /\ buildings w' = buildings w
          /\ interceptors w' = interceptors w /\ explosions w' = explosions w
          /\ projectiles w' = projectiles w
     else exists sounds e,
            log w' = log w ++ sounds ++ [e]
            /\ Forall isSound sounds /\ lastEvent r e.
Proof.
  intros w'. split; [apply gameplay_ledger |]. subst w'.
  unfold gameplay. cbv zeta.
  destruct (comboTimeoutCheck_fields now w)
    as (L0 & E0 & B0 & I0 & X0 & P0 & T0 & Lo0 & K0).
  set (w0 := comboTimeoutCheck now w) in *. clearbody w0.
  world_simpl. rewrite timeLeft_zero, T0.
  destruct (Qleb LEVEL_DURATION (levelTime w + dt)).
  - world_simpl. rewrite L0, E0, B0, I0, X0, P0, Lo0, K0.
    repeat split; reflexivity.
  - pose proof (afterTimer_sound r cv now dt (set_levelTime (levelTime w + dt)%Q w0))
      as Hv. cbv zeta in Hv.
    destruct (moveEnemies M H r cv now dt _) as [w8 over]. cbn [fst snd] in Hv.
    inversion Hv as [(evs & L & Q) Hb | (evs & L & Q) Hd]; subst;
      world_simpl in L; rewrite L0 in L.
    + exists evs, RequestFrame. world_simpl. rewrite L, app_assoc.
      split; [reflexivity |]. split; [exact Q | left; reflexivity].
    + exists evs, (GameOver (displayScore r)).
      split; [exact L |]. split; [exact Q | right; reflexivity].
Qed.

Lemma update_as_gameplay (r : Render) (time : Q) (w : World) (cv : Canvas) :
  gameState r = PLAYING -> canvas w = Some cv -> cv_context2d cv = true ->
  ((time - lastTime w) / 1000 <= 0.1)%Q ->
  update M H r time w
  = gameplay M H r cv (clock H (hostCalls w)) ((time - lastTime w) / 1000)
             (set_hostCalls (S (hostCalls w)) (set_lastTime time w)).
Proof.
  intros Hg Hcv Hctx Hdt. unfold update, Date_now. rewrite Hg.
  cbn [GameState_eqb negb andb]. cbv beta iota zeta.
  assert (Hs : Qgtb ((time - lastTime w) / 1000) 0.1 = false).
  { unfold Qgtb. apply Qltb_ge. exact Hdt. }
  rewrite Hs. world_simpl. rewrite Hcv, Hctx. reflexivity.
Qed.

(** X15.  A level lasts 30 seconds of frame time.  A frame of the game that is
    not skipped adds its duration to the level clock; the frame in which the
    clock reaches 30 reports the level complete with the counters as they
    stand, does nothing else and requests no further frame; every earlier
    frame sends sounds only and ends by requesting the next frame or by
    reporting the game over. *)
Theorem level_ends_at_thirty_seconds (r : Render) (time : Q) (w : World)
        (cv : Canvas) :
  gameState r = PLAYING -> canvas w = Some cv -> cv_context2d cv = true ->
  ((time - lastTime w) / 1000 <= 0.1)%Q ->
  let deltaTime := ((time - lastTime w) / 1000)%Q in
  let w' := update M H r time w in
  levelTime w' = (levelTime w + deltaTime)%Q
  /\ if Qleb LEVEL_DURATION (levelTime w + deltaTime)
     then log w'
          = log w ++ [LevelComplete (buildingsLostInLevel w) (enemiesDestroyed w)]
          /\ enemies w' = enemies w /\ buildings w' = buildings w
          /\ interceptors w' = interceptors w /\ explosions w' = explosions w
          /\ projectiles w' = projectiles w
     else exists sounds e,
            log w' = log w ++ sounds ++ [e]
            /\ Forall isSound sounds /\ lastEvent r e.
Proof.
  intros Hg Hcv Hctx Hdt deltaTime w'. subst w' deltaTime.
  rewrite (@update_as_gameplay r time w cv Hg Hcv Hctx Hdt).
  exact (gameplay_report r cv (clock H (hostCalls w)) ((time - lastTime w) / 1000)
           (set_hostCalls (S (hostCalls w)) (set_lastTime time w))).
Qed.

(** X16.  The frame that the effect requests is never taken for a stall: it
    stores its own time before it calls [update], so whatever [lastTime] held
    (a pause may have lasted minutes) the frame runs with a duration of zero:
    the level clock keeps its value and the frame does send something. *)
Theorem first_frame_is_never_skipped (r : Render) (time stale : Q) (w : World)
        (cv : Canvas) :
  gameState r = PLAYING -> canvas w = Some cv -> cv_context2d cv = true ->
  let w' := firstFrame M H r time (set_lastTime stale w) in
  w' = firstFrame M H r time w
  /\ (levelTime w' == levelTime w)%Q
  /\ exists evs e, log w' = log w ++ evs ++ [e].
Proof.
  intros Hg Hcv Hctx w'. subst w'. split; [reflexivity |].
  unfold firstFrame.
  assert (Hdt : ((time - lastTime (set_lastTime time w)) / 1000 <= 0.1)%Q).
  { world_simpl. setoid_replace ((time - time) / 1000)%Q with 0%Q by field. lra. }
  change (set_lastTime time (set_lastTime stale w)) with (set_lastTime time w).
  rewrite (@update_as_gameplay r time (set_lastTime time w) cv Hg Hcv Hctx Hdt).
  world_simpl.
  pose proof (gameplay_report r cv (clock H (hostCalls w)) ((time - time) / 1000)
                (set_hostCalls (S (hostCalls w))
                               (set_lastTime time (set_lastTime time w))))
    as [Ht Hlog].
  cbv zeta in Ht, Hlog. world_simpl in Ht. world_simpl in Hlog.
  change (set_lastTime time (set_lastTime time w)) with (set_lastTime time w) in *.
  split.
  - rewrite Ht. field.
  - destruct (Qleb LEVEL_DURATION _).
    + destruct Hlog as (L & _). exists [], (LevelComplete (buildingsLostInLevel w)
                                             (enemiesDestroyed w)).
      exact L.
    + destruct Hlog as (sounds & e & L & _). exists sounds, e. exact L.
Qed.

Lemma animate_started (times : list Q) :
  forall w, Qeq_bool (gameOverStart w) 0 = false ->
    log (animate times w) = log w ++ repeat RequestFrame (length times)
    /\ gameOverStart (animate times w) = gameOverStart w.
Proof.
  induction times as [|t ts IH]; intros w Hs.
  - cbn. rewrite app_nil_r. split; reflexivity.
  - cbn [animate fold_left]. fold (animate ts (gameOverAnimation t w)).
    assert (E : gameOverAnimation t w = emit RequestFrame w).
    { unfold gameOverAnimation. rewrite Hs. reflexivity. }
    rewrite E. destruct (IH (emit RequestFrame w) Hs) as [L S].
    rewrite L, S. cbn. rewrite <- app_assoc. split; reflexivity.
Qed.

(** X17.  The nuke sounds once per game over: the first frame of the
    animation (at a time that is not zero) plays it and keeps its time as the
    start of the animation; every later frame only requests the next frame. *)
Theorem nuke_sounds_once (time : Q) (times : list Q) (w : World) :
  Qeq_bool (gameOverStart w) 0 = true -> ~ (time == 0)%Q ->
  let w' := animate (time :: times) w in
  log w'
  = log w ++ [PlaySound nuke 1; RequestFrame] ++ repeat RequestFrame (length times)
  /\ gameOverStart w' = time.
Proof.
  intros Hs Ht w'. subst w'. cbn [animate fold_left].
  fold (animate times (gameOverAnimation time w)).
  unfold gameOverAnimation at 1 2. rewrite Hs.
  assert (Hs' : Qeq_bool
                  (gameOverStart (emit RequestFrame
                                    (playSound nuke 1 (set_gameOverStart time w)))) 0
                = false).
  { world_simpl. apply not_true_iff_false. intros E. apply Qeq_bool_iff in E.
    exact (Ht E). }
  destruct (animate_started times _ Hs') as [L S].
  rewrite L, S. world_simpl. rewrite <- !app_assoc. split; reflexivity.
Qed.

(** ** What holds of every entity in the arrays *)

Lemma pushTrail_bound (n : nat) (p : Point) (trail : list Point) :
  (length trail <= n)%nat -> (length (pushTrail n p trail) <= n)%nat.
Proof.
  intros Hn. unfold pushTrail.
  destruct (n <? length (trail ++ [p]))%nat eqn:E.
  - destruct trail as [|q trail]; cbn [app tl length] in *; [lia |].
    rewrite length_app in *. cbn [length] in *. lia.
  - apply Nat.ltb_ge in E. exact E.
Qed.

Lemma moveEnemy_fit (dt : Q) (e : EnemyMissile.t) :
  fitEnemy e -> fitEnemy (fst (moveEnemy M dt e)).
Proof.
  intros [Hh Hm Ht Hb0]. unfold moveEnemy. cbv zeta.
  assert (Hb : (length
                  (pushTrail (maxTrail (EnemyMissile.type e))
                     (mkPoint (EnemyMissile.x e) (EnemyMissile.y e))
                     (EnemyMissile.trail e))
                <= maxTrail (EnemyMissile.type e))%nat)
    by (apply pushTrail_bound; exact Ht).
  destruct (EnemyMissile.type e) eqn:Hty; cbn [fst];
    constructor;
    cbn [EnemyMissile.health EnemyMissile.maxHealth EnemyMissile.type
         EnemyMissile.trail EnemyMissile.set_motion EnemyMissile.startX
         EnemyMissile.targetX EnemyMissile.x];
    rewrite ?Hty; try assumption; try discriminate.
  intros _. destruct (Hb0 eq_refl) as [Hs _]. split; [exact Hs |].
  rewrite Hs. ring.
Qed.

Lemma damaged_fit (newIds : list Q) (e : EnemyMissile.t) :
  fitEnemy e ->
  newIds = [] \/ 0 < EnemyMissile.health (damaged newIds e) ->
  fitEnemy (damaged newIds e).
Proof.
  intros [Hh Hm Ht Hb0] Halive. constructor;
    cbn [damaged EnemyMissile.health EnemyMissile.maxHealth EnemyMissile.type
         EnemyMissile.trail EnemyMissile.set_health EnemyMissile.startX
         EnemyMissile.targetX EnemyMissile.x
         EnemyMissile.set_hitByExplosionIds] in *; try assumption.
  destruct Halive as [-> | Hpos]; cbn [length Z.of_nat]; lia.
Qed.

Lemma stepEnemy_fit (r : Render) (cv : Canvas) (now : Z) (dt : Q)
      (enemy : EnemyMissile.t) (w : World) :
  fitEnemy enemy ->
  match fst (stepEnemy M H r cv now dt enemy w) with
  | Kept enemy' => fitEnemy enemy'
  | _ => True
  end.
Proof.
  intros Hfit. unfold stepEnemy.
  pose proof (moveEnemy_fit dt Hfit) as Hmoved.
  destruct (moveEnemy M dt enemy) as [enemy1 t]. cbn [fst] in Hmoved.
  destruct (shieldBlocks r cv enemy1 w); [exact I |].
  destruct (checkExplosions H r now enemy1 w) as [[[enemy2 destroyed] w2]|] eqn:Hchk;
    [| exact Hmoved].
  unfold checkExplosions in Hchk.
  apply explosionHits_spec in Hchk. destruct Hchk as (newIds & Hrep).
  destruct destroyed; [exact I |].
  assert (Hfit2 : fitEnemy enemy2).
  { rewrite (hr_enemy Hrep). apply damaged_fit; [exact Hmoved |].
    rewrite <- (hr_enemy Hrep). apply (hr_alive Hrep). reflexivity. }
  destruct (_ || _); [| exact Hfit2].
  destruct (groundImpact H r cv enemy2 w2) as [w3 over].
  destruct over; exact I.
Qed.

Lemma enemiesLoop_fit (r : Render) (cv : Canvas) (now : Z) (dt : Q)
      (todo : list EnemyMissile.t) :
  forall (kept : list EnemyMissile.t) (w : World),
    Forall fitEnemy todo -> Forall fitEnemy kept ->
    allFit (fst (enemiesLoop M H r cv now dt todo kept w)).
Proof.
  induction todo as [|enemy todo IH]; intros kept w Htodo Hkept;
    cbn [enemiesLoop].
  - exact Hkept.
  - inversion Htodo as [|? ? Hc Hrest]; subst.
    pose proof (@stepEnemy_fit r cv now dt enemy w Hc) as Hstep.
    destruct (stepEnemy M H r cv now dt enemy w) as [[enemy'| |] w1];
      cbn [fst] in Hstep.
    + apply IH; [exact Hrest | constructor; assumption].
    + apply IH; assumption.
    + unfold allFit. cbn. apply Forall_app. split; [| exact Hkept].
      apply Forall_rev. exact Hrest.
Qed.

Lemma stepProjectile_fit (r : Render) (cv : Canvas) (now : Z) (dt : Q)
      (p : Projectile.t) (w : World) :
  allFit w -> allFit (snd (stepProjectile H r cv now dt p w)).
Proof.
  intros Hfit. unfold stepProjectile. cbv zeta.
  destruct (_ || _); [exact Hfit |].
  destruct (splitLast _ _) as [[[pre e] post]|] eqn:Hsplit; [| exact Hfit].
  pose proof (splitLast_parts _ _ Hsplit) as Hparts.
  unfold allFit in Hfit. rewrite Hparts in Hfit.
  apply Forall_app in Hfit. destruct Hfit as [Hpre Hrest].
  inversion Hrest as [|? ? He Hpost]; subst.
  destruct (_ <=? 0) eqn:Hdead.
  - unfold Date_now. cbv beta iota zeta. cbn [snd].
    unfold allFit, handleKill. destruct (_ <? _); cbn;
      apply Forall_app; split; assumption.
  - unfold allFit. cbn [snd]. world_simpl. unfold pushExplosion. world_simpl.
    apply Forall_app. split; [exact Hpre |].
    constructor; [| exact Hpost].
    apply Z.leb_gt in Hdead. destruct He as [Hh Hm Ht Hb0].
    cbn [EnemyMissile.health EnemyMissile.set_health] in Hdead.
    constructor;
      cbn [EnemyMissile.health EnemyMissile.maxHealth EnemyMissile.type
           EnemyMissile.trail EnemyMissile.set_health EnemyMissile.startX
           EnemyMissile.targetX EnemyMissile.x]; try assumption; lia.
Qed.

Lemma projectilesLoop_fit (r : Render) (cv : Canvas) (now : Z) (dt : Q)
      (todo : list Projectile.t) :
  forall (kept : list Projectile.t) (w : World),
    allFit w -> allFit (projectilesLoop H r cv now dt todo kept w).
Proof.
  induction todo as [|p todo IH]; intros kept w Hfit; cbn [projectilesLoop].
  - exact Hfit.
  - pose proof (@stepProjectile_fit r cv now dt p w Hfit) as Hstep.
    destruct (stepProjectile H r cv now dt p w) as [res w1]. cbn [snd] in Hstep.
    apply IH. exact Hstep.
Qed.

Lemma spawnEnemies_fit (r : Render) (cv : Canvas) (w : World) :
  allFit w -> allFit (spawnEnemies M H r cv w).
Proof.
  intros Hfit.
  assert (E : exists w', w' = spawnEnemies M H r cv w /\ allFit w');
    [| destruct E as (w' & -> & Hw'); exact Hw'].
  eexists. split; [reflexivity |].
  unfold spawnEnemies.
  destruct (Qgtb _ _); [| exact Hfit].
  destruct (0 <? _)%nat; [| exact Hfit].
  unfold Math_random, freshId, Date_now. cbv beta iota zeta.
  destruct (js_index _ _); cbv beta iota zeta;
    match goal with
    | |- context [getEnemyConfig H ?l ?d ?w0] =>
        destruct (getEnemyConfig_world l d w0) as [n Hn];
        destruct (getEnemyConfig H l d w0) as [[ty sm] wc]
    end;
    cbn [snd] in Hn; subst wc; unfold Math_random; cbv beta iota zeta;
    match goal with
    | |- allFit (set_warningPlayed _ (set_nextSpawnTime _ (set_hostCalls _
                   (set_enemies (_ ++ [?e]) _)))) =>
        change (Forall fitEnemy (enemies w ++ [e]))
    end;
    (apply Forall_app; split; [exact Hfit |]);
    (constructor; [| constructor]);
    (constructor;
     [ destruct ty; split; reflexivity || discriminate
     | destruct ty; reflexivity
     | apply Nat.le_0_l
     | intros Hb; cbn [EnemyMissile.type] in Hb; subst ty; split; reflexivity ]).
Qed.

Lemma same_enemies_fit (w w' : World) :
  enemies w' = enemies w -> allFit w -> allFit w'.
Proof. unfold allFit. intros E Hfit. rewrite E. exact Hfit. Qed.

Lemma gameplay_fit (r : Render) (cv : Canvas) (now : Z) (dt : Q) (w : World) :
  allFit w -> allFit (gameplay M H r cv now dt w).
Proof.
  intros Hfit. unfold gameplay. cbv zeta.
  set (w1 := set_levelTime _ (comboTimeoutCheck now w)).
  assert (H1 : allFit w1).
  { apply same_enemies_fit with (w := w); [| exact Hfit].
    unfold w1, comboTimeoutCheck.
    destruct (1 <? _); [destruct (_ <? _) |]; reflexivity. }
  clearbody w1.
  destruct (Qleb _ 0).
  { apply same_enemies_fit with (w := w1); [reflexivity | exact H1]. }
  assert (H2 : allFit (audioWarning w1)).
  { apply same_enemies_fit with (w := w1); [| exact H1].
    unfold audioWarning. destruct (_ && _); reflexivity. }
  set (w2 := audioWarning w1) in *. clearbody w2.
  pose proof (@spawnEnemies_fit r cv w2 H2) as H3.
  set (w3 := spawnEnemies M H r cv w2) in *. clearbody w3.
  assert (H4 : allFit (autoTurret M H r cv now w3)).
  { apply same_enemies_fit with (w := w3); [| exact H3].
    unfold autoTurret. destruct (0 <? _); [| reflexivity].
    destruct (_ <? _); [| reflexivity].
    destruct (findClosest _ _ _) as [[d2 e]|]; reflexivity. }
  set (w4 := autoTurret M H r cv now w3) in *. clearbody w4.
  pose proof (@projectilesLoop_fit r cv now dt (rev (projectiles w4)) [] w4 H4)
    as H5.
  fold (moveProjectiles H r cv now dt w4) in H5.
  set (w5 := moveProjectiles H r cv now dt w4) in *. clearbody w5.
  assert (H6 : allFit (moveInterceptors M H r dt w5)).
  { apply same_enemies_fit with (w := w5); [| exact H5].
    unfold moveInterceptors. apply interceptorsLoop_enemies. }
  set (w6 := moveInterceptors M H r dt w5) in *. clearbody w6.
  assert (H7 : allFit (updateExplosions dt w6)).
  { apply same_enemies_fit with (w := w6); [reflexivity | exact H6]. }
  set (w7 := updateExplosions dt w6) in *. clearbody w7.
  unfold moveEnemies.
  pose proof (@enemiesLoop_fit r cv now dt (rev (enemies w7)) [] w7) as H8.
  destruct (enemiesLoop M H r cv now dt (rev (enemies w7)) [] w7) as [w8 returned].
  cbn [fst] in H8.
  assert (H8' : allFit w8)
    by (apply H8; [apply Forall_rev; exact H7 | constructor]).
  destruct returned; [exact H8' |].
  apply same_enemies_fit with (w := w8); [reflexivity | exact H8'].
Qed.

Lemma update_fit (r : Render) (time : Q) (w : World) :
  allFit w -> allFit (update M H r time w).
Proof.
  intros Hfit. unfold update. cbv zeta.
  destruct (_ && _); [exact Hfit |].
  unfold Date_now. cbv beta iota zeta.
  set (w1 := set_hostCalls _ (set_lastTime time w)).
  assert (H1 : allFit w1)
    by (apply same_enemies_fit with (w := w); [reflexivity | exact Hfit]).
  clearbody w1.
  destruct (Qgtb _ _); [exact H1 |].
  destruct (canvas w1) as [cv|]; [| exact H1].
  destruct (negb (cv_context2d cv)); [exact H1 |].
  destruct (GameState_eqb (gameState r) GAME_OVER).
  - apply same_enemies_fit with (w := w1); [| exact H1].
    unfold gameOverAnimation. destruct (Qeq_bool _ 0); reflexivity.
  - apply gameplay_fit. exact H1.
Qed.

Lemma play_fit (acts : list Action) :
  forall w : World, allFit w -> allFit (play M H acts w).
Proof.
  unfold play. induction acts as [|a acts IH]; intros w Hfit; cbn [fold_left].
  - exact Hfit.
  - apply IH. destruct a as [r time | r e]; cbn [deliver].
    + apply update_fit. exact Hfit.
    + unfold handleCanvasClick. destruct (negb _); [exact Hfit |].
      unfold Date_now, freshId, Math_random. cbv beta iota zeta.
      destruct (_ <? _); [exact Hfit |].
      cbn [canvas set_lastShotTime playSound emit set_log set_hostCalls].
      destruct (canvas w); exact Hfit.
Qed.

Lemma initLevel_fit (r : Render) (w : World) :
  canvas w <> None -> allFit (initLevel r w).
Proof.
  intros Hcv. unfold allFit, initLevel. destruct (canvas w); [| congruence].
  world_simpl. destruct (_ || _); world_simpl; constructor.
Qed.

(** X18.  Every enemy in the array is alive and within its limits, at every
    moment of a level: from the start of a level on (initLevel empties the
    array), through any frames and clicks, each enemy has at least one point
    of health and never more than the full health of its type (3 for a Heavy,
    1 for the others), and its trail holds at most 40 points for a Wobbly or a
    Laser and 25 for the others. *)
Theorem live_enemies_stay_fit (r : Render) (acts : list Action) (w : World) :
  canvas w <> None ->
  Forall (fun e =>
            0 < EnemyMissile.health e <= fullHealth (EnemyMissile.type e)
            /\ EnemyMissile.maxHealth e = fullHealth (EnemyMissile.type e)
            /\ (length (EnemyMissile.trail e)
                <= maxTrail (EnemyMissile.type e))%nat)
         (enemies (play M H acts (initLevel r w))).
Proof.
  intros Hcv.
  pose proof (@play_fit acts (initLevel r w) (@initLevel_fit r w Hcv)) as Hall.
  unfold allFit in Hall. eapply Forall_impl; [| exact Hall].
  intros e [Hh Hm Ht _]. rewrite <- Hm. repeat split; try assumption; apply Hh.
Qed.

(** X25.  Bombs fall straight down: from the start of a level on, through any
    frames and clicks, every Bomb in the array started right above its target
    and is still right above it. *)
Theorem bombs_fall_straight_down (r : Render) (acts : list Action) (w : World) :
  canvas w <> None ->
  Forall (fun e =>
            if EnemyType_eqb (EnemyMissile.type e) BOMB
            then EnemyMissile.startX e = EnemyMissile.targetX e
                 /\ (EnemyMissile.x e == EnemyMissile.targetX e)%Q
            else True)
         (enemies (play M H acts (initLevel r w))).
Proof.
  intros Hcv.
  pose proof (@play_fit acts (initLevel r w) (@initLevel_fit r w Hcv)) as Hall.
  unfold allFit in Hall. eapply Forall_impl; [| exact Hall].
  intros e [_ _ _ Hb]. destruct (EnemyMissile.type e); try exact I.
  apply Hb. reflexivity.
Qed.

(** ** The city *)

Lemma ruins_apart (bs bs' : list Building.t) :
  Forall2 ruins bs bs' -> ForallOrdPairs apart bs -> ForallOrdPairs apart bs'.
Proof.
  induction 1 as [|b b' l l' Hb Hl IH]; intros Hap; [constructor |].
  inversion Hap as [|? ? Hhead Htail]; subst. constructor; [| apply IH; exact Htail].
  clear IH Hap Htail. induction Hl as [|c c' m m' Hc Hm IHm]; [constructor |].
  inversion Hhead as [|? ? Hbc Hrest]; subst. constructor; [| apply IHm; exact Hrest].
  unfold apart in *. destruct Hb as [-> | ->], Hc as [-> | ->]; exact Hbc.
Qed.

Lemma newBuildings_layout (width height : Q) :
  (360 < width)%Q ->
  let bs := newBuildings width height in
  length bs = 6%nat
  /\ Forall (fun b => (0 < Building.x b)%Q
                      /\ (Building.x b + Building.width b < width)%Q
                      /\ Building.isDestroyed b = false) bs
  /\ ForallOrdPairs apart bs.
Proof.
  intros Hw bs. subst bs. unfold newBuildings. cbv zeta. cbn [map].
  set (gap := ((width - 6 * 60) / (6 + 1))%Q).
  assert (Hgap : (0 < gap)%Q /\ (7 * gap == width - 360)%Q).
  { unfold gap. split; [| field].
    apply Qlt_shift_div_l; [reflexivity | lra]. }
  destruct Hgap as [Hg Hg7].
  assert (Hi : forall i : Z, 0 <= i <= 5 -> (0 <= inject_Z i <= 5)%Q).
  { intros i [Hlo Hhi]. split;
      [change 0%Q with (inject_Z 0) | change 5%Q with (inject_Z 5)];
      rewrite <- Zle_Qle; assumption. }
  split; [reflexivity |]. split.
  - repeat (apply Forall_cons;
            [cbn [Building.x Building.width Building.isDestroyed];
             split; [| split; [| reflexivity]];
             match goal with
             | |- context [inject_Z ?i] =>
                 pose proof (Hi i ltac:(lia)) as Hb;
                 assert (Hq : (inject_Z i == inject_Z i)%Q) by reflexivity;
                 set (q := inject_Z i) in *; clearbody q; nra
             end |]).
    apply Forall_nil.
  - repeat (apply FOP_cons;
            [repeat (apply Forall_cons;
                     [unfold apart, inject_Z; cbn [Building.x Building.width]; lra |]);
             apply Forall_nil |]).
    apply FOP_nil.
Qed.

(** X19.  The city of a new game: six buildings, all standing, each inside a
    canvas that is wider than 360 px, side by side without touching; and the
    buildings keep their places for the rest of the game, whatever happens to
    them. *)
Theorem city_is_laid_out_apart (r : Render) (acts : list Action) (w : World)
        (cv : Canvas) :
  canvas w = Some cv -> (360 < cv_width cv)%Q -> level r = 1 ->
  let w0 := initLevel r w in
  length (buildings w0) = 6%nat
  /\ standing (buildings w0) = 6
  /\ Forall (fun b => (0 < Building.x b)%Q
                      /\ (Building.x b + Building.width b < cv_width cv)%Q
                      /\ Building.isDestroyed b = false) (buildings w0)
  /\ ForallOrdPairs apart (buildings w0)
  /\ length (buildings (play M H acts w0)) = 6%nat
  /\ ForallOrdPairs apart (buildings (play M H acts w0)).
Proof.
  intros Hcv Hw Hl w0.
  assert (E : buildings w0 = newBuildings (cv_width cv) (cv_height cv)).
  { unfold w0, initLevel. rewrite Hcv. world_simpl. rewrite Hl. reflexivity. }
  destruct (@newBuildings_layout (cv_width cv) (cv_height cv) Hw) as (Hlen & Hall & Hap).
  cbv zeta in Hlen, Hall, Hap. rewrite <- E in Hlen, Hall, Hap.
  destruct (play_evolves acts w0) as [Hru _ _ _].
  split; [exact Hlen |]. split; [rewrite E; reflexivity |].
  split; [exact Hall |]. split; [exact Hap |]. split.
  - rewrite <- (Forall2_length Hru). exact Hlen.
  - exact (ruins_apart Hru Hap).
Qed.

Lemma impactBuildings_miss (cv : Canvas) (enemy : EnemyMissile.t)
      (bs : list Building.t) (w : World) :
  Forall (fun b => over enemy b = false) bs ->
  impactBuildings H cv enemy bs w = (bs, false, w).
Proof.
  induction 1 as [|b bs Hb Hbs IH]; cbn [impactBuildings]; [reflexivity |].
  unfold over in Hb. rewrite <- andb_assoc, Hb, andb_false_r, IH. reflexivity.
Qed.

Lemma impactBuildings_one (cv : Canvas) (enemy : EnemyMissile.t)
      (bs : list Building.t) :
  ForallOrdPairs apart bs ->
  forall w,
    buildingsLostInLevel (snd (impactBuildings H cv enemy bs w))
    <= buildingsLostInLevel w + 1.
Proof.
  induction 1 as [|b bs Hb Hbs IH]; intros w; cbn [impactBuildings];
    [cbn; lia |].
  destruct (_ && _) eqn:Hhit.
  - unfold Date_now. cbv beta iota zeta.
    rewrite impactBuildings_miss; [cbn; lia |].
    apply andb_true_iff in Hhit. destruct Hhit as [Hhit Hle].
    apply Qleb_le in Hle.
    eapply Forall_impl; [| exact Hb]. intros b2 Hap. unfold over, apart in *.
    apply andb_false_iff. left. unfold Qgeb. apply Qleb_gt. lra.
  - specialize (IH w).
    destruct (impactBuildings H cv enemy bs w) as [[bs' hit] w']. exact IH.
Qed.

(** X20.  An enemy that reaches the ground takes one building at most, in a
    city whose buildings stand apart: the impact raises the count of lost
    buildings by one or not at all, and it leaves the kill counter and the
    score as they were. *)
Theorem impact_takes_one_building_at_most (r : Render) (cv : Canvas)
        (enemy : EnemyMissile.t) (w : World) :
  ForallOrdPairs apart (buildings w) ->
  let w' := fst (groundImpact H r cv enemy w) in
  buildingsLostInLevel w <= buildingsLostInLevel w' <= buildingsLostInLevel w + 1
  /\ standing (buildings w) - standing (buildings w')
     = buildingsLostInLevel w' - buildingsLostInLevel w
  /\ enemiesDestroyed w' = enemiesDestroyed w /\ score w' = score w
  /\ ForallOrdPairs apart (buildings w').
Proof.
  intros Hap w'.
  pose proof (groundImpact_tally r cv enemy w) as [K _ _ L B _ _].
  pose proof (groundImpact_sound r cv enemy w) as Hs.
  assert (Hone : buildingsLostInLevel w' <= buildingsLostInLevel w + 1
                 /\ enemiesDestroyed w' = enemiesDestroyed w /\ score w' = score w).
  { subst w'. unfold groundImpact.
    pose proof (@impactBuildings_one cv enemy (buildings w) Hap w) as H1.
    pose proof (impactBuildings_tally cv enemy (buildings w) w) as H2.
    destruct (impactBuildings H cv enemy (buildings w) w) as [[bs hit] w1].
    cbn [snd] in H1. destruct H2 as (_ & _ & K1 & S1 & _).
    cbv beta iota zeta. unfold Date_now.
    destruct hit; destruct (forallb _ _); cbn [fst]; world_simpl;
      split; try exact H1; split; assumption. }
  fold w' in K, L, B. destruct (groundImpact H r cv enemy w) as [w2 over0].
  cbn [fst] in *. destruct Hs as [[Hru _ _ _] _].
  destruct Hone as (H1 & HK & HS).
  split; [lia |]. split; [lia |]. split; [exact HK |]. split; [exact HS |].
  subst w'. exact (ruins_apart Hru Hap).
Qed.

(** ** Interceptors *)

Lemma interceptorsLoop_report (r : Render) (dt : Q) (todo : list Interceptor.t) :
  forall (kept : list Interceptor.t) (w : World),
    let w' := interceptorsLoop M H r dt todo kept w in
    exists flying blasts,
      interceptors w' = flying ++ kept
      /\ explosions w' = explosions w ++ blasts
      /\ Forall2 flownFrom (filter (fun m => negb (arrives dt m)) (rev todo)) flying
      /\ Forall2 (blastOf r) (filter (arrives dt) todo) blasts.
Proof.
  induction todo as [|m todo IH]; intros kept w; cbn [interceptorsLoop].
  - exists [], []. cbn. rewrite app_nil_r. repeat split; constructor.
  - cbv zeta. unfold stepInterceptor. cbv zeta. fold (arrives dt m).
    cbn [rev filter]. rewrite filter_app. cbn [filter].
    destruct (arrives dt m) eqn:Harr; cbn [negb].
    + unfold freshId, Date_now, Math_random. cbv beta iota zeta.
      match goal with
      | |- context [interceptorsLoop M H r dt todo kept ?w0] =>
          destruct (IH kept w0) as (flying & blasts & Hi & He & Hf & Hb)
      end.
      eexists flying, (_ :: blasts). rewrite app_nil_r.
      split; [exact Hi |].
      split; [rewrite He; unfold pushExplosion; world_simpl;
              rewrite <- app_assoc; reflexivity |].
      split; [exact Hf |]. constructor; [| exact Hb].
      unfold blastOf. cbn. repeat split; reflexivity.
    + match goal with
      | |- context [interceptorsLoop M H r dt todo (?m' :: kept) w] =>
          destruct (IH (m' :: kept) w) as (flying & blasts & Hi & He & Hf & Hb);
          exists (flying ++ [m']), blasts
      end.
      split; [rewrite Hi, <- app_assoc; reflexivity |]. split; [exact He |].
      split; [| exact Hb].
      apply Forall2_app; [exact Hf |]. constructor; [| constructor].
      unfold flownFrom. cbn. repeat split; reflexivity.
Qed.

(** X21.  Every interceptor ends in exactly one explosion at its target.  In
    one pass of the interceptor loop, each interceptor whose target is within
    the reach of this frame is taken out of the array and leaves one explosion
    at the target, of radius 1, full alpha and the maximal radius of the
    upgrade; every other interceptor stays, with its identity, target and
    speed; nothing else is added to either array, and the order is kept. *)
Theorem interceptor_ends_in_one_explosion (r : Render) (dt : Q) (w : World) :
  let w' := moveInterceptors M H r dt w in
  exists blasts,
    explosions w' = explosions w ++ blasts
    /\ Forall2 (blastOf r) (filter (arrives dt) (rev (interceptors w))) blasts
    /\ Forall2 flownFrom
               (filter (fun m => negb (arrives dt m)) (interceptors w))
               (interceptors w')
    /\ (length (interceptors w') + length (explosions w')
        = length (interceptors w) + length (explosions w))%nat.
Proof.
  intros w'. subst w'. unfold moveInterceptors.
  destruct (interceptorsLoop_report r dt (rev (interceptors w)) [] w)
    as (flying & blasts & Hi & He & Hf & Hb).
  cbv zeta in Hi, He. rewrite rev_involutive in Hf. rewrite app_nil_r in Hi.
  exists blasts. rewrite Hi, He.
  split; [reflexivity |]. split; [exact Hb |]. split; [exact Hf |].
  rewrite length_app, <- (Forall2_length Hf), <- (Forall2_length Hb).
  assert (Hsplit : forall l : list Interceptor.t,
             (length (filter (fun m => negb (arrives dt m)) l)
              + length (filter (arrives dt) l) = length l)%nat).
  { induction l as [|m l IHl]; [reflexivity |]. cbn [filter].
    destruct (arrives dt m); cbn [negb length]; lia. }
  pose proof (Hsplit (interceptors w)) as H1.
  assert (H2 : length (filter (arrives dt) (rev (interceptors w)))
               = length (filter (arrives dt) (interceptors w))).
  { clear. induction (interceptors w) as [|m l IHl]; [reflexivity |].
    cbn [rev filter]. rewrite filter_app, length_app, IHl. cbn [filter].
    destruct (arrives dt m); cbn [length]; lia. }
  lia.
Qed.

(** ** Turret projectiles *)

Lemma splitLast_spec (A : Type) (P : A -> bool) (l : list A) :
  match splitLast P l with
  | Some (pre, hit, post) =>
      l = pre ++ hit :: post /\ P hit = true /\ Forall (fun a => P a = false) post
  | None => Forall (fun a => P a = false) l
  end.
Proof.
  induction l as [|a l IH]; cbn [splitLast]; [constructor |].
  destruct (splitLast P l) as [[[pre hit] post]|].
  - destruct IH as (-> & Hhit & Hpost). repeat split; assumption.
  - destruct (P a) eqn:Ha.
    + repeat split; [exact Ha | exact IH].
    + constructor; assumption.
Qed.

Lemma handleKill_fields (r : Render) (now : Z) (e : EnemyMissile.t) (w : World) :
  enemies (handleKill r now e w) = enemies w
  /\ buildings (handleKill r now e w) = buildings w
  /\ buildingsLostInLevel (handleKill r now e w) = buildingsLostInLevel w
  /\ projectiles (handleKill r now e w) = projectiles w
  /\ enemiesDestroyed (handleKill r now e w) = enemiesDestroyed w + 1.
Proof. unfold handleKill. destruct (_ <? _); repeat split; reflexivity. Qed.

(** X22.  A turret projectile is spent on one enemy.  After its move, a
    projectile that has left the canvas to the left, the right or the top is
    removed and nothing else happens; one that has no enemy within 20 px
    flies on and nothing else happens; otherwise it is removed and exactly one
    enemy, the last of the array within reach, loses exactly one point of
    health: with health left it stays in its place, without it leaves the
    array and one kill is counted.  Every other enemy is untouched. *)
Theorem projectile_is_spent_on_one_enemy (r : Render) (cv : Canvas) (now : Z)
        (dt : Q) (p : Projectile.t) (w : World) :
  let x := (Projectile.x p + Projectile.velocityX p * dt)%Q in
  let y := (Projectile.y p + Projectile.velocityY p * dt)%Q in
  let res := fst (stepProjectile H r cv now dt p w) in
  let w' := snd (stepProjectile H r cv now dt p w) in
  if Qltb x 0 || Qgtb x (cv_width cv) || Qltb y 0
  then res = None /\ w' = w
  else
    (Forall (fun e => inReach x y e = false) (enemies w)
     /\ w' = w
     /\ exists p', res = Some p' /\ Projectile.x p' = x /\ Projectile.y p' = y
                   /\ Projectile.velocityX p' = Projectile.velocityX p
                   /\ Projectile.velocityY p' = Projectile.velocityY p)
    \/ (res = None
        /\ buildings w' = buildings w
        /\ exists pre e post,
             enemies w = pre ++ e :: post
             /\ inReach x y e = true
             /\ Forall (fun e' => inReach x y e' = false) post
             /\ if EnemyMissile.health e - 1 <=? 0
                then enemies w' = pre ++ post
                     /\ enemiesDestroyed w' = enemiesDestroyed w + 1
                else enemies w'
                     = pre ++ EnemyMissile.set_health (EnemyMissile.health e - 1) e
                           :: post
                     /\ enemiesDestroyed w' = enemiesDestroyed w
                     /\ score w' = score w).
Proof.
  intros x y res w'. subst res w'. unfold stepProjectile. cbv zeta.
  fold x y. destruct (_ || _); [split; reflexivity |].
  fold (inReach x y).
  pose proof (splitLast_spec (inReach x y) (enemies w)) as Hsp.
  destruct (splitLast (inReach x y) (enemies w)) as [[[pre e] post]|].
  - right. destruct Hsp as (Hparts & Hhit & Hpost).
    cbn [EnemyMissile.health EnemyMissile.set_health].
    destruct (EnemyMissile.health e - 1 <=? 0) eqn:Hdead.
    + unfold Date_now. cbv beta iota zeta. cbn [fst snd].
      match goal with
      | |- context [handleKill ?r0 ?n0 ?e0 ?w0] =>
          destruct (handleKill_fields r0 n0 e0 w0) as (E & B & _ & _ & K);
          split; [reflexivity |]; split; [rewrite B; reflexivity |];
          exists pre, e, post; rewrite E, K, Hdead
      end.
      repeat split; try assumption; reflexivity.
    + unfold freshId, Date_now, Math_random. cbv beta iota zeta. cbn [fst snd].
      split; [reflexivity |]. split; [reflexivity |].
      exists pre, e, post. rewrite Hdead.
      repeat split; try assumption; reflexivity.
  - left. cbn [fst snd]. split; [exact Hsp |]. split; [reflexivity |].
    eexists. split; [reflexivity |]. cbn. repeat split; reflexivity.
Qed.

(** ** The ways an enemy leaves the array *)

Lemma shieldAbsorb_fields (r : Render) (now : Z) (enemy : EnemyMissile.t)
      (w : World) :
  let w' := shieldAbsorb H r now enemy w in
  enemiesDestroyed w' = enemiesDestroyed w + 1
  /\ buildings w' = buildings w
  /\ buildingsLostInLevel w' = buildingsLostInLevel w.
Proof.
  unfold shieldAbsorb, Date_now. cbv beta iota zeta.
  destruct (handleKill_fields r now enemy w) as (_ & B & L & _ & K).
  set (wk := handleKill r now enemy w) in *. clearbody wk.
  destruct (_ <? 0); world_simpl; repeat split; assumption.
Qed.

Lemma explosionHits_lost (r : Render) (now : Z) (fuel : nat) :
  forall (todo : list Explosion.t) (enemy : EnemyMissile.t) (w : World)
         (enemy' : EnemyMissile.t) (destroyed : bool) (w' : World),
    explosionHits H fuel r now todo enemy w = Some (enemy', destroyed, w') ->
    buildingsLostInLevel w' = buildingsLostInLevel w /\ buildings w' = buildings w.
Proof.
  intros todo enemy w enemy' destroyed w' Hrun.
  pose proof (explosionHits_tally _ _ _ _ _ _ Hrun) as [_ _ _ L _ _ _].
  pose proof (explosionHits_calm _ _ _ _ _ _ Hrun) as [B _ _ _].
  rewrite B in *. split; [lia | reflexivity].
Qed.

Lemma explosionHits_score (r : Render) (now : Z) (fuel : nat) :
  forall (todo : list Explosion.t) (enemy : EnemyMissile.t) (w : World)
         (enemy' : EnemyMissile.t) (w' : World),
    explosionHits H fuel r now todo enemy w = Some (enemy', false, w') ->
    score w' = score w.
Proof.
  induction fuel as [|fuel IH]; intros todo enemy w enemy' w' Hrun.
  { destruct todo; cbn in Hrun; [| discriminate].
    injection Hrun as <- <-. reflexivity. }
  destruct todo as [|exp rest]; cbn [explosionHits] in Hrun.
  { injection Hrun as <- <-. reflexivity. }
  destruct (hypot_lt _ _ _); [| apply IH in Hrun; exact Hrun].
  destruct (negb _); [| apply IH in Hrun; exact Hrun].
  destruct (_ <=? 0).
  - unfold Date_now in Hrun. cbv beta iota zeta in Hrun. discriminate.
  - unfold freshId, Date_now, Math_random in Hrun. cbv beta iota zeta in Hrun.
    apply IH in Hrun. exact Hrun.
Qed.

Lemma groundImpact_kills (r : Render) (cv : Canvas) (enemy : EnemyMissile.t)
      (w : World) :
  enemiesDestroyed (fst (groundImpact H r cv enemy w)) = enemiesDestroyed w
  /\ score (fst (groundImpact H r cv enemy w)) = score w.
Proof.
  unfold groundImpact.
  pose proof (impactBuildings_tally cv enemy (buildings w) w) as H2.
  destruct (impactBuildings H cv enemy (buildings w) w) as [[bs hit] w1].
  destruct H2 as (_ & _ & K1 & S1 & _).
  cbv beta iota zeta. unfold Date_now.
  destruct hit; destruct (forallb _ _); cbn [fst]; world_simpl; split; assumption.
Qed.

(** X23.  An enemy leaves the array in one of two ways, and only when it is
    due.  One step of the enemy loop either keeps the enemy, and then it is
    still in the air (less than its whole way travelled and more than 40 px
    above the bottom edge) and neither a kill nor a building is counted; or
    it removes the enemy, and then either exactly one kill is counted and the
    buildings are untouched (shield or explosion), or the enemy has landed
    (its way is travelled or it is within 40 px of the bottom edge) and no
    kill and no score is counted. *)
Theorem enemy_leaves_by_kill_or_impact (r : Render) (cv : Canvas) (now : Z)
        (dt : Q) (enemy : EnemyMissile.t) (w : World) :
  let moved := fst (moveEnemy M dt enemy) in
  let landed :=
    Qgeb (EnemyMissile.traveledDistance moved / EnemyMissile.totalDistance moved) 1
    || Qgeb (EnemyMissile.y moved) (cv_height cv - 40) in
  let w' := snd (stepEnemy M H r cv now dt enemy w) in
  match fst (stepEnemy M H r cv now dt enemy w) with
  | Kept enemy' =>
      landed = false
      /\ EnemyMissile.y enemy' = EnemyMissile.y moved
      /\ enemiesDestroyed w' = enemiesDestroyed w
      /\ buildings w' = buildings w
      /\ buildingsLostInLevel w' = buildingsLostInLevel w
  | _ =>
      (enemiesDestroyed w' = enemiesDestroyed w + 1
       /\ buildings w' = buildings w
       /\ buildingsLostInLevel w' = buildingsLostInLevel w)
      \/ (landed = true
          /\ enemiesDestroyed w' = enemiesDestroyed w /\ score w' = score w)
  end.
Proof.
  intros moved landed w'. subst moved landed w'. unfold stepEnemy.
  assert (Ht : snd (moveEnemy M dt enemy)
               = (EnemyMissile.traveledDistance (fst (moveEnemy M dt enemy))
                  / EnemyMissile.totalDistance (fst (moveEnemy M dt enemy)))%Q).
  { unfold moveEnemy. cbv zeta. destruct (EnemyMissile.type enemy); reflexivity. }
  destruct (moveEnemy M dt enemy) as [enemy1 t]. cbn [fst snd] in *. subst t.
  destruct (shieldBlocks r cv enemy1 w).
  { cbn [fst snd]. left. apply shieldAbsorb_fields. }
  destruct (checkExplosions_report r now enemy1 w)
    as (enemy2 & destroyed & w2 & newIds & Hchk & Hrep).
  rewrite Hchk. unfold checkExplosions in Hchk.
  pose proof (explosionHits_kills _ _ _ _ _ _ Hchk) as Hk.
  pose proof (explosionHits_lost _ _ _ _ _ _ Hchk) as [Hl Hb].
  destruct destroyed.
  { cbn [fst snd]. left. repeat split; assumption. }
  assert (Hy : EnemyMissile.y enemy2 = EnemyMissile.y enemy1)
    by (rewrite (hr_enemy Hrep); reflexivity).
  rewrite Hy. rewrite Z.add_0_r in Hk.
  destruct (_ || _) eqn:Hland.
  - pose proof (groundImpact_kills r cv enemy2 w2) as [Hgk Hgs].
    destruct (groundImpact H r cv enemy2 w2) as [w3 over0].
    cbn [fst] in Hgk, Hgs.
    pose proof (explosionHits_score _ _ _ _ _ _ Hchk) as Hs2.
    destruct over0; cbn [fst snd]; right; repeat split; congruence.
  - cbn [fst snd]. repeat split; assumption.
Qed.

(** ** The life of an explosion *)

Lemma archimedes (q c : Q) :
  (0 < c)%Q -> exists k : nat, (q <= c * inject_Z (Z.of_nat k))%Q.
Proof.
  intros Hc. exists (Z.to_nat (Qceiling (q / c))).
  assert (H1 : (q / c <= inject_Z (Qceiling (q / c)))%Q) by apply Qle_ceiling.
  assert (H2 : (inject_Z (Qceiling (q / c))
                <= inject_Z (Z.of_nat (Z.to_nat (Qceiling (q / c)))))%Q).
  { rewrite <- Zle_Qle. lia. }
  assert (H3 : (q == c * (q / c))%Q) by (field; lra).
  rewrite H3 at 1. apply Qmult_le_l; [exact Hc |].
  eapply Qle_trans; eassumption.
Qed.

Lemma inject_succ (k : nat) :
  (inject_Z (Z.of_nat (S k)) == inject_Z (Z.of_nat k) + 1)%Q.
Proof. rewrite Nat2Z.inj_succ. unfold Z.succ. rewrite inject_Z_plus. reflexivity. Qed.

Lemma fade_phase (dt : Q) :
  (0 < dt)%Q ->
  forall (k : nat) (exp : Explosion.t),
    (Explosion.maxRadius exp < Explosion.currentRadius exp + 100 * dt)%Q ->
    (Explosion.alpha exp <= 2 * dt * inject_Z (Z.of_nat k))%Q ->
    exists n, ageTicks dt n exp = None.
Proof.
  intros Hdt. induction k as [|k IH]; intros exp Hmax Halpha.
  - exists 1%nat. cbn [ageTicks]. unfold ageExplosion. cbv zeta.
    apply Qgtb_gt in Hmax. rewrite Hmax.
    assert (E : Qleb (Explosion.alpha exp - 2 * dt) 0 = true).
    { apply Qleb_le. change (inject_Z (Z.of_nat 0)) with 0%Q in Halpha. lra. }
    rewrite E. reflexivity.
  - destruct (Qleb (Explosion.alpha exp - 2 * dt) 0) eqn:E.
    + exists 1%nat. cbn [ageTicks]. unfold ageExplosion. cbv zeta.
      apply Qgtb_gt in Hmax. rewrite Hmax, E. reflexivity.
    + set (exp' := Explosion.mk (Explosion.id exp) (Explosion.x exp)
                     (Explosion.y exp) (Explosion.currentRadius exp + 100 * dt)%Q
                     (Explosion.maxRadius exp) (Explosion.alpha exp - 2 * dt)%Q).
      destruct (IH exp') as [n Hn].
      * unfold exp'. cbn [Explosion.maxRadius Explosion.currentRadius]. lra.
      * unfold exp'. cbn [Explosion.alpha]. rewrite inject_succ in Halpha. lra.
      * exists (S n). cbn [ageTicks]. unfold ageExplosion. cbv zeta.
        apply Qgtb_gt in Hmax. rewrite Hmax, E. exact Hn.
Qed.

Lemma grow_phase (dt : Q) :
  (0 < dt)%Q ->
  forall (k : nat) (exp : Explosion.t),
    (Explosion.maxRadius exp - Explosion.currentRadius exp
     < 100 * dt * (inject_Z (Z.of_nat k) + 1))%Q ->
    exists n, ageTicks dt n exp = None.
Proof.
  intros Hdt. induction k as [|k IH]; intros exp Hgap;
    destruct (Qgtb (Explosion.currentRadius exp + 100 * dt) (Explosion.maxRadius exp))
      eqn:Hgrown.
  - apply Qgtb_gt in Hgrown.
    destruct (@archimedes (Explosion.alpha exp) (2 * dt)%Q ltac:(lra)) as [k Hk].
    exact (fade_phase Hdt k exp Hgrown Hk).
  - unfold Qgtb in Hgrown. apply Qltb_ge in Hgrown.
    change (inject_Z (Z.of_nat 0)) with 0%Q in Hgap. lra.
  - apply Qgtb_gt in Hgrown.
    destruct (@archimedes (Explosion.alpha exp) (2 * dt)%Q ltac:(lra)) as [k' Hk].
    exact (fade_phase Hdt k' exp Hgrown Hk).
  - set (exp' := Explosion.mk (Explosion.id exp) (Explosion.x exp)
                   (Explosion.y exp) (Explosion.currentRadius exp + 100 * dt)%Q
                   (Explosion.maxRadius exp) (Explosion.alpha exp)).
    destruct (IH exp') as [n Hn].
    + unfold exp'. cbn [Explosion.maxRadius Explosion.currentRadius].
      rewrite inject_succ in Hgap. lra.
    + exists (S n). cbn [ageTicks]. unfold ageExplosion. cbv zeta.
      rewrite Hgrown. exact Hn.
Qed.

Lemma ageTicks_stays (dt : Q) (n : nat) :
  forall exp, ageTicks dt n exp = None ->
    forall m, (n <= m)%nat -> ageTicks dt m exp = None.
Proof.
  induction n as [|n IH]; intros exp Hn m Hm.
  - discriminate.
  - destruct m as [|m]; [lia |]. cbn [ageTicks] in Hn |- *.
    destruct (ageExplosion dt exp) as [exp'|]; [| reflexivity].
    apply IH; [exact Hn | lia].
Qed.

(** X24.  No explosion lingers: with frames of a positive duration, every
    explosion, whatever its radius, maximal radius and alpha, is removed
    from the array after finitely many frames, and once removed it does not
    come back. *)
Theorem every_explosion_fades (deltaTime : Q) (exp : Explosion.t) :
  (0 < deltaTime)%Q ->
  exists n, ageTicks deltaTime n exp = None
            /\ forall m, (n <= m)%nat -> ageTicks deltaTime m exp = None.
Proof.
  intros Hdt.
  destruct (@archimedes (Explosion.maxRadius exp - Explosion.currentRadius exp + 1)
              (100 * deltaTime)%Q ltac:(lra)) as [k Hk].
  destruct (@grow_phase deltaTime Hdt k exp) as [n Hn]; [lra |].
  exists n. split; [exact Hn |]. apply ageTicks_stays. exact Hn.
Qed.

(** ** initLevel *)

Ltac world_cbv :=
  cbv beta iota zeta delta [
      buildings enemies interceptors explosions projectiles shieldEnergy
      shieldHitTime lastTurretFireTime warningPlayed multiplier lastKillTime
      lastTime levelTime nextSpawnTime lastShotTime gameOverStart
      buildingsLostInLevel enemiesDestroyed score canvas hostCalls log
      set_buildings set_enemies set_interceptors set_explosions set_projectiles
      set_shieldEnergy set_shieldHitTime set_lastTurretFireTime
      set_warningPlayed set_multiplier set_lastKillTime set_lastTime
      set_levelTime set_nextSpawnTime set_lastShotTime set_gameOverStart
      set_buildingsLostInLevel set_enemiesDestroyed set_score set_canvas
      set_hostCalls set_log].

(** X26.  Starting a level twice is starting it once: a second run of
    initLevel right after the first (an effect that runs twice) changes
    nothing, at level 1 as at any other level, whether or not buildings
    existed before. *)
Theorem initLevel_is_idempotent (r : Render) (w : World) :
  initLevel r (initLevel r w) = initLevel r w.
Proof.
  destruct w as [bs es ms xs ps se sh lt wp mu lk la lv ns ls go bl ed sc cv hc lg].
  destruct cv as [cv|]; [| reflexivity].
  unfold initLevel at 2. world_cbv.
  destruct (level r =? 1) eqn:Hl; cbn [orb].
  - unfold initLevel. world_cbv. rewrite Hl. reflexivity.
  - destruct (length bs =? 0)%nat eqn:Hlen; unfold initLevel; world_cbv;
      rewrite Hl; cbn [orb]; rewrite Hlen; reflexivity.
Qed.

End Properties.

(** * The properties on sample runs *)

Local Open Scope Z_scope.

(** ** Explosions *)

(** One blast on a Heavy enemy at full health 3: the spark of each survived
    hit is pushed at the enemy's own position and is visited by the same
    loop, under an identity of its own.  The enemy records three distinct
    identities and is destroyed within the one check. *)
Example heavy_enemy_falls_in_one_check :
  let enemy := sampleEnemy HEAVY 100 100 3 in
  let w := set_explosions [Explosion.mk 7 100 100 10 60 1] mounted in
  exists enemy' w',
    checkExplosions (sampleHost (1 # 2)) sampleRender 1700000000000 enemy w
    = Some (enemy', true, w')
    /\ length (EnemyMissile.hitByExplosionIds enemy') = 3%nat
    /\ EnemyMissile.health enemy' = 0
    /\ length (explosions w') = 4%nat.
Proof.
  cbv zeta. eexists. eexists.
  split; [vm_compute; reflexivity |].
  repeat split.
Qed.


(** C2, as stated, fails: the explosion left by a kill (radius 5, maximum 30),
    aged by frames of 50 ms, is in its fade phase after six frames, alpha
    already below 1, with a radius above [maxRadius]; the seventh frame grows
    the radius again instead of holding it at [maxRadius]. *)
Lemma radius_grows_past_maxRadius :
  let exp0 := Explosion.mk 7 100 100 5 30 1 in
  exists e6 e7 : Explosion.t,
    ageTicks 0.05 6 exp0 = Some e6
    /\ ageExplosion 0.05 e6 = Some e7
    /\ (Explosion.alpha e6 < 1)%Q
    /\ (Explosion.maxRadius e6 < Explosion.currentRadius e6)%Q
    /\ (Explosion.currentRadius e6 < Explosion.currentRadius e7)%Q
    /\ (Explosion.alpha e7 < Explosion.alpha e6)%Q
    /\ ~ (Explosion.currentRadius e7 == Explosion.maxRadius e7)%Q.
Proof.
  cbv zeta. eexists. eexists.
  split; [vm_compute; reflexivity |].
  split; [vm_compute; reflexivity |].
  repeat split. intros Heq. discriminate Heq.
Qed.

Lemma explosion_keeps_growing_witness :
  let exp := Explosion.mk 7 100 100 5 30 1 in
  ageExplosion 0.05 exp
  = Some (Explosion.mk (Explosion.id exp) (Explosion.x exp) (Explosion.y exp)
            (Explosion.currentRadius exp + 100 * 0.05) (Explosion.maxRadius exp)
            (Explosion.alpha exp)).
Proof.
  intros exp.
  assert (Hgrowing : (Explosion.currentRadius exp + 100 * 0.05
                      <= Explosion.maxRadius exp)%Q)
    by (vm_compute; discriminate).
  exact (proj1 (@explosion_keeps_growing (sampleHost (1 # 2)) 0.05 exp) Hgrowing).
Defined.

(** ** The stall guard *)

Lemma stalled_tick_is_skipped_witness :
  let w := set_enemies [sampleEnemy STANDARD 100 100 1] mounted in
  enemies (update sampleMath (sampleHost (1 # 2)) sampleRender 500 w) = enemies w.
Proof.
  intros w.
  assert (Hstall : (0.1 < (500 - lastTime w) / 1000)%Q) by (vm_compute; reflexivity).
  exact (proj1 (proj2 (@stalled_tick_is_skipped sampleMath (sampleHost (1 # 2))
                         sampleRender 500 w Hstall))).
Defined.

(** ** The combo *)



(** ** The shield *)

(** C5, as stated, fails: no single radius decides the absorption.  An enemy
    170 away from the shield is absorbed by a full shield (radius 180) and
    passes a shield at a tenth of its charge (radius 163.8). *)
Lemma shield_radius_depends_on_energy :
  let enemy := sampleEnemy STANDARD 400 410 1 in
  let full := set_shieldEnergy 100 mounted in
  let weak := set_shieldEnergy 10 mounted in
  shieldBlocks sampleRender sampleCanvas enemy full = true
  /\ shieldBlocks sampleRender sampleCanvas enemy weak = false
  /\ ~ (exists R : Q,
          forall (w : World) (e : EnemyMissile.t),
            0 < shieldEnergy w ->
            shieldBlocks sampleRender sampleCanvas e w
            = distToShield_lt sampleCanvas e R).
Proof.
  cbv zeta.
  assert (Hfull : shieldBlocks sampleRender sampleCanvas
                    (sampleEnemy STANDARD 400 410 1) (set_shieldEnergy 100 mounted)
                  = true) by (vm_compute; reflexivity).
  assert (Hweak : shieldBlocks sampleRender sampleCanvas
                    (sampleEnemy STANDARD 400 410 1) (set_shieldEnergy 10 mounted)
                  = false) by (vm_compute; reflexivity).
  split; [exact Hfull |]. split; [exact Hweak |].
  intros [R HR].
  rewrite HR in Hfull by reflexivity. rewrite HR in Hweak by reflexivity.
  congruence.
Qed.

Lemma shield_radius_follows_energy_witness :
  let w := set_shieldEnergy 100 mounted in
  (162 < visualShieldRadius (upgradeStats sampleRender) (shieldEnergy w) <= 180)%Q.
Proof.
  intros w.
  assert (Hlevel : 0 < shieldLevel (upgradeStats sampleRender)) by reflexivity.
  assert (Henergy : 0 < shieldEnergy w <= shieldMaxEnergy (upgradeStats sampleRender))
    by (vm_compute; split; [reflexivity | discriminate]).
  exact (proj1 (proj2 (proj2
           (@shield_radius_follows_energy sampleMath (sampleHost (1 # 2))
              sampleRender sampleCanvas (sampleEnemy STANDARD 400 410 1) w
              Hlevel Henergy)))).
Defined.

Lemma shield_energy_in_range_witness :
  let acts :=
    [Frame sampleRender 16; Click sampleRender (mkMouseEvent 300 200 0 0);
     Frame sampleRender 32] in
  0 <= shieldEnergy
         (play sampleMath (sampleHost (1 # 2)) acts (initLevel sampleRender mounted))
    <= shieldMaxEnergy (upgradeStats sampleRender).
Proof.
  intros acts.
  assert (Hlevel : 0 <= shieldLevel (upgradeStats sampleRender))
    by (vm_compute; discriminate).
  assert (Hcanvas : canvas mounted <> None) by discriminate.
  exact (proj1 (proj2 (@shield_energy_in_range sampleMath (sampleHost (1 # 2))
                         sampleRender mounted acts Hlevel Hcanvas))).
Defined.

(** ** Buildings *)

Lemma buildings_fall_for_good_witness :
  let r := mkRender PLAYING 2 MEDIUM sampleUpgrades 0 in
  let w := initLevel sampleRender mounted in
  buildings (initLevel r w) = buildings w.
Proof.
  intros r w.
  assert (Hlevel : level r <> 1) by (vm_compute; discriminate).
  assert (Hbuildings : buildings w <> []) by (vm_compute; discriminate).
  exact (proj1 (proj2 (proj2 (@buildings_fall_for_good sampleMath
                                (sampleHost (1 # 2)) r 16 w)))
               Hlevel Hbuildings).
Defined.

(** ** The spawn schedule *)

(** C8, as stated, fails: when [Math.random()] answers 0 the spawner spawns
    and schedules the next spawn at the current level time, an interval of 0,
    below any positive floor. *)
Lemma spawn_interval_can_be_zero :
  let w := set_levelTime 1 (initLevel sampleRender mounted) in
  let w' := spawnEnemies sampleMath (sampleHost 0) sampleRender sampleCanvas w in
  length (enemies w) = 0%nat
  /\ length (enemies w') = 1%nat
  /\ (nextSpawnTime w' - levelTime w' == 0)%Q
  /\ forall floor : Q, (0 < floor)%Q ->
       ~ (floor <= nextSpawnTime w' - levelTime w')%Q.
Proof.
  cbv zeta.
  split; [reflexivity |]. split; [vm_compute; reflexivity |].
  assert (Hzero : (nextSpawnTime
                     (spawnEnemies sampleMath (sampleHost 0) sampleRender sampleCanvas
                        (set_levelTime 1 (initLevel sampleRender mounted)))
                   - levelTime
                       (spawnEnemies sampleMath (sampleHost 0) sampleRender
                          sampleCanvas
                          (set_levelTime 1 (initLevel sampleRender mounted)))
                   == 0)%Q) by (vm_compute; reflexivity).
  split; [exact Hzero |].
  intros floor Hpos Hle. rewrite Hzero in Hle.
  apply (Qlt_irrefl 0). apply Qlt_le_trans with floor; assumption.
Qed.

Lemma next_spawn_within_rate_witness :
  let w := set_levelTime 1 (initLevel sampleRender mounted) in
  let w' :=
    spawnEnemies sampleMath (sampleHost (1 # 2)) sampleRender sampleCanvas w in
  (0 <= nextSpawnTime w' - levelTime w'
   < spawnRate (level sampleRender) (difficulty sampleRender))%Q.
Proof.
  intros w w'.
  assert (Hrandom : forall n, (0 <= random (sampleHost (1 # 2)) n < 1)%Q)
    by (intros n; vm_compute; split; [discriminate | reflexivity]).
  assert (Hdue : (nextSpawnTime w < levelTime w)%Q) by (vm_compute; reflexivity).
  assert (Hstanding : exists b, In b (buildings w)
                                /\ Building.isDestroyed b = false)
    by (eexists; split; [left; reflexivity | reflexivity]).
  exact (proj1 (proj2 (proj2 (proj2
           (@next_spawn_within_rate sampleMath (sampleHost (1 # 2)) sampleRender
              sampleCanvas w Hrandom Hdue Hstanding))))).
Defined.

(** ** The fire cooldown *)

Lemma click_inside_cooldown_is_noop_witness :
  let w := set_lastShotTime 1699999999900 mounted in
  let e := mkMouseEvent 300 200 0 0 in
  handleCanvasClick (sampleHost (1 # 2)) sampleRender e w
  = set_hostCalls (S (hostCalls w)) w.
Proof.
  intros w e.
  assert (Hplaying : gameState sampleRender = PLAYING) by reflexivity.
  assert (Hearly : clock (sampleHost (1 # 2)) (hostCalls w) - lastShotTime w
                   < fireCooldown (upgradeStats sampleRender))
    by (vm_compute; reflexivity).
  exact (proj1 (proj2 (@click_inside_cooldown_is_noop (sampleHost (1 # 2))
                         sampleRender e w Hplaying))
               Hearly).
Defined.

(** ** Witnesses of the properties beyond the claims *)

Lemma app_state_stays_in_range_witness :
  let evs :=
    [App.StartButton; App.onLevelComplete 1 12;
     App.UpgradeButton App.speedLevelKey; App.NextLevelButton;
     App.onGameOver 340] in
  0 <= App.credits (App.run evs (pageLoad None)).
Proof.
  intros evs.
  assert (Hp : Forall plausible evs) by (repeat constructor; lia).
  exact (proj1 (@app_state_stays_in_range None evs Hp)).
Defined.

Lemma buyUpgrade_conserves_wealth_witness :
  let a := App.mk LEVEL_COMPLETE 1 1200 6 0 false MEDIUM noUpgrades None in
  wealth (App.buyUpgrade App.speedLevelKey a) = wealth a.
Proof.
  intros a.
  assert (Hu : forall k, 0 <= App.levelOf k (App.upgrades a))
    by (intros []; vm_compute; discriminate).
  exact (proj1 (@buyUpgrade_conserves_wealth App.speedLevelKey a Hu)).
Defined.

Lemma level_settings_fixed_during_play_witness :
  let a := App.startGame (App.initial None) in
  App.upgrades (App.handle (App.UpgradeButton App.turretLevelKey) a)
  = App.upgrades a.
Proof.
  intros a.
  assert (Hg : App.gameState a = PLAYING \/ App.gameState a = PAUSED)
    by (left; reflexivity).
  exact (proj1 (proj2 (proj2
           (@level_settings_fixed_during_play
              (App.UpgradeButton App.turretLevelKey) a Hg)))).
Defined.

Lemma crosshair_stays_on_canvas_witness :
  let c :=
    moveCrosshair (mkInputState true false false true true) (1 # 20) sampleCanvas
                  (mkPoint 790 5) in
  (0 <= pt_x c <= cv_width sampleCanvas)%Q.
Proof.
  intros c.
  assert (Hw : (0 <= cv_width sampleCanvas)%Q) by (vm_compute; discriminate).
  assert (Hh : (0 <= cv_height sampleCanvas)%Q) by (vm_compute; discriminate).
  exact (proj1 (@crosshair_stays_on_canvas
                  (mkInputState true false false true true) (1 # 20) sampleCanvas
                  (mkPoint 790 5) Hw Hh)).
Defined.

Lemma resume_keeps_the_level_witness :
  let w := initLevel sampleRender mounted in
  let paused := canvasEffect PLAYING (inState PAUSED sampleRender) 800 600 w in
  let resumed := canvasEffect (snd paused) sampleRender 1024 768 (fst paused) in
  log (fst resumed) = log w ++ [RequestFrame].
Proof.
  intros w paused resumed.
  assert (Hg : gameState sampleRender = PLAYING) by reflexivity.
  exact (proj1 (proj2 (@resume_keeps_the_level sampleRender 800 600 1024 768 w Hg))).
Defined.

Lemma spawner_targets_a_standing_building_witness :
  let w := set_levelTime 1 (initLevel sampleRender mounted) in
  let w' :=
    spawnEnemies sampleMath (sampleHost (1 # 2)) sampleRender sampleCanvas w in
  buildings w' = buildings w.
Proof.
  intros w w'.
  assert (Hrandom : forall n, (0 <= random (sampleHost (1 # 2)) n < 1)%Q)
    by (intros n; vm_compute; split; [discriminate | reflexivity]).
  exact (proj1 (@spawner_targets_a_standing_building sampleMath
                  (sampleHost (1 # 2)) sampleRender sampleCanvas w Hrandom)).
Defined.

Lemma score_follows_kills_witness :
  let w := initLevel sampleRender mounted in
  let acts := [Frame sampleRender 16; Frame sampleRender 32] in
  score w <= score (play sampleMath (sampleHost (1 # 2)) acts w).
Proof.
  intros w acts.
  assert (Hc : comboInRange w) by (vm_compute; split; discriminate).
  exact (proj2 (proj2 (@score_follows_kills sampleMath (sampleHost (1 # 2))
                         acts w Hc))).
Defined.

Lemma buildings_shown_are_buildings_standing_witness :
  let a := App.startGame (App.initial None) in
  let acts := [Frame sampleRender 16; Frame sampleRender 32] in
  let w' :=
    play sampleMath (sampleHost (1 # 2)) acts (initLevel sampleRender mounted) in
  App.buildingsRemaining
    (App.handleLevelComplete (buildingsLostInLevel w') (enemiesDestroyed w') a)
  = standing (buildings w').
Proof.
  intros a acts w'.
  assert (Hcv : canvas mounted <> None) by discriminate.
  assert (Hrem : App.buildingsRemaining a
                 = standing (buildings (initLevel sampleRender mounted)))
    by (vm_compute; reflexivity).
  exact (proj1 (proj2 (proj2 (proj2
           (@buildings_shown_are_buildings_standing sampleMath
              (sampleHost (1 # 2)) sampleRender acts mounted a Hcv Hrem))))).
Defined.

Lemma level_ends_at_thirty_seconds_witness :
  let w := initLevel sampleRender mounted in
  levelTime (update sampleMath (sampleHost (1 # 2)) sampleRender 16 w)
  = (levelTime w + (16 - lastTime w) / 1000)%Q.
Proof.
  intros w.
  assert (Hg : gameState sampleRender = PLAYING) by reflexivity.
  assert (Hcv : canvas w = Some sampleCanvas) by reflexivity.
  assert (Hctx : cv_context2d sampleCanvas = true) by reflexivity.
  assert (Hdt : ((16 - lastTime w) / 1000 <= 0.1)%Q) by (vm_compute; discriminate).
  exact (proj1 (@level_ends_at_thirty_seconds sampleMath (sampleHost (1 # 2))
                  sampleRender 16 w sampleCanvas Hg Hcv Hctx Hdt)).
Defined.

Lemma first_frame_is_never_skipped_witness :
  let w := initLevel sampleRender mounted in
  (levelTime (firstFrame sampleMath (sampleHost (1 # 2)) sampleRender 5000
                         (set_lastTime 12 w))
   == levelTime w)%Q.
Proof.
  intros w.
  assert (Hg : gameState sampleRender = PLAYING) by reflexivity.
  assert (Hcv : canvas w = Some sampleCanvas) by reflexivity.
  assert (Hctx : cv_context2d sampleCanvas = true) by reflexivity.
  exact (proj1 (proj2 (@first_frame_is_never_skipped sampleMath
                         (sampleHost (1 # 2)) sampleRender 5000 12 w sampleCanvas
                         Hg Hcv Hctx))).
Defined.

Lemma nuke_sounds_once_witness :
  gameOverStart (animate [16; 32; 48]%Q mounted) = 16%Q.
Proof.
  assert (Hs : Qeq_bool (gameOverStart mounted) 0 = true) by reflexivity.
  assert (Ht : ~ (16 == 0)%Q) by (intros E; vm_compute in E; discriminate).
  exact (proj2 (@nuke_sounds_once 16 [32; 48]%Q mounted Hs Ht)).
Defined.

Lemma live_enemies_stay_fit_witness :
  let acts := [Frame sampleRender 16; Frame sampleRender 32] in
  Forall (fun e =>
            0 < EnemyMissile.health e <= fullHealth (EnemyMissile.type e)
            /\ EnemyMissile.maxHealth e = fullHealth (EnemyMissile.type e)
            /\ (length (EnemyMissile.trail e)
                <= maxTrail (EnemyMissile.type e))%nat)
         (enemies (play sampleMath (sampleHost (1 # 2)) acts
                        (initLevel sampleRender mounted))).
Proof.
  intros acts.
  assert (Hcv : canvas mounted <> None) by discriminate.
  exact (@live_enemies_stay_fit sampleMath (sampleHost (1 # 2)) sampleRender acts
           mounted Hcv).
Defined.

Lemma bombs_fall_straight_down_witness :
  let acts := [Frame sampleRender 16; Frame sampleRender 32] in
  Forall (fun e =>
            if EnemyType_eqb (EnemyMissile.type e) BOMB
            then EnemyMissile.startX e = EnemyMissile.targetX e
                 /\ (EnemyMissile.x e == EnemyMissile.targetX e)%Q
            else True)
         (enemies (play sampleMath (sampleHost (1 # 2)) acts
                        (initLevel sampleRender mounted))).
Proof.
  intros acts.
  assert (Hcv : canvas mounted <> None) by discriminate.
  exact (@bombs_fall_straight_down sampleMath (sampleHost (1 # 2)) sampleRender
           acts mounted Hcv).
Defined.

Lemma city_is_laid_out_apart_witness :
  standing (buildings (initLevel sampleRender mounted)) = 6.
Proof.
  assert (Hcv : canvas mounted = Some sampleCanvas) by reflexivity.
  assert (Hw : (360 < cv_width sampleCanvas)%Q) by (vm_compute; reflexivity).
  assert (Hl : level sampleRender = 1) by reflexivity.
  exact (proj1 (proj2 (@city_is_laid_out_apart sampleMath (sampleHost (1 # 2))
                         sampleRender [] mounted sampleCanvas Hcv Hw Hl))).
Defined.

Lemma impact_takes_one_building_at_most_witness :
  let w := initLevel sampleRender mounted in
  let enemy := sampleEnemy STANDARD 200 570 1 in
  buildingsLostInLevel
    (fst (groundImpact (sampleHost (1 # 2)) sampleRender sampleCanvas enemy w))
  <= buildingsLostInLevel w + 1.
Proof.
  intros w enemy.
  assert (Hw : (360 < 800)%Q) by (vm_compute; reflexivity).
  assert (Hap : ForallOrdPairs apart (buildings w))
    by exact (proj2 (proj2 (@newBuildings_layout 800 600 Hw))).
  exact (proj2 (proj1 (@impact_takes_one_building_at_most (sampleHost (1 # 2))
                         sampleRender sampleCanvas enemy w Hap))).
Defined.

Lemma every_explosion_fades_witness :
  exists n,
    ageTicks (2 # 125) n (Explosion.mk 1 100 100 1 60 1) = None
    /\ forall m, (n <= m)%nat ->
         ageTicks (2 # 125) m (Explosion.mk 1 100 100 1 60 1) = None.
Proof.
  assert (Hdt : (0 < 2 # 125)%Q) by (vm_compute; reflexivity).
  exact (@every_explosion_fades (2 # 125) (Explosion.mk 1 100 100 1 60 1) Hdt).
Defined.
